(** * db-tunnel: bastion lifecycle and SSM tunnel orchestrator

    Shallow embedding of [scripts/db-tunnel.ts] (the version that starts and
    stops the bastion around the port-forwarding session) and the properties
    checked against it.

    The script is a Node program made of [async] functions.  Each function is
    written here in direct style as a tree of the calls it makes ([Async]):
    every [await] is a node whose children are indexed by the way the awaited
    promise settles.  Two interpreters give the trees their meaning:
    - [play] answers every request at once from an injected [World] (a state
      sequence, a fake clock), which is how the polling loop is exercised;
    - [step] is the Node event loop: a running activation is executed up to
      its next [await], and signals, the child's exit and the settlement of
      pending requests arrive as events in any order. *)

From Stdlib Require Import ZArith List String Bool Lia Arith.
Import ListNotations.
Local Open Scope string_scope.
Local Open Scope Z_scope.

Set Implicit Arguments.

(** ** JavaScript values used by the script *)

(** The only numbers the script handles are the local port and what
    [Number(...)] makes of a command line word.  Their representation (IEEE
    doubles) plays no role: the script only converts, tests for falsiness
    and prints them. *)
Class JsNumber : Type := {
  number : Type;
  Number_of_string : string -> number;   (* Number(s) for a string s *)
  number_5439 : number;                  (* the literal 5439 *)
  isZero : number -> bool;               (* +0 or -0 *)
  isNaN : number -> bool                 (* Number.isNaN *)
}.

(** [!n] for a number: true for 0, -0 and NaN. *)
Definition not_number `{JsNumber} (n : number) : bool := isZero n || isNaN n.

(** A value of type [string | undefined]. *)
Definition truthy (v : option string) : bool :=
  match v with
  | Some s => negb (s =? "")%string
  | None => false
  end.

(** [a || b] on [string | undefined]. *)
Definition or_else (a b : option string) : option string :=
  if truthy a then a else b.

(** [a || "literal"]: the result is a string. *)
Definition or_literal (a : option string) (lit : string) : string :=
  match a with
  | Some s => if (s =? "")%string then lit else s
  | None => lit
  end.

(** [xs.indexOf(x)], counting from [i]; -1 when absent. *)
Fixpoint indexOf_from (xs : list string) (x : string) (i : Z) : Z :=
  match xs with
  | [] => -1
  | y :: ys => if (y =? x)%string then i else indexOf_from ys x (i + 1)
  end.

Definition indexOf (xs : list string) (x : string) : Z := indexOf_from xs x 0.

(** [xs[i]] for an index that may be out of range. *)
Definition at_index (xs : list string) (i : Z) : option string :=
  if i <? 0 then None else nth_error xs (Z.to_nat i).

(** ** Errors *)

Inductive InstanceStateName : Type :=
| pending | running | shutting_down | stopped | stopping | terminated.

Inductive Error : Type :=
| MissingRegion
| MissingAccessStack
| MissingDbStack
| InvalidLocalPort
| StackNotFound (stackName : string)
| OutputNotFound (outputKey stackName : string)
| TerminalState (instanceId : string) (state : option InstanceStateName)
| TimedOutStopping (instanceId : string)
| TimedOutRunning (instanceId : string)
| ServiceError (detail : string).   (* a rejection coming from the AWS SDK *)

(** The text of an observed state inside a template string. *)
Definition stateName (s : option InstanceStateName) : string :=
  match s with
  | Some pending => "pending"
  | Some running => "running"
  | Some shutting_down => "shutting-down"
  | Some stopped => "stopped"
  | Some stopping => "stopping"
  | Some terminated => "terminated"
  | None => "undefined"
  end.

(** The text given to [new Error(...)]. *)
Definition message (e : Error) : string :=
  match e with
  | MissingRegion => "Missing --region"
  | MissingAccessStack => "Missing --access-stack"
  | MissingDbStack => "Missing --db-stack"
  | InvalidLocalPort => "Invalid --local-port"
  | StackNotFound n => "Stack not found: " ++ n
  | OutputNotFound k n => "Output " ++ k ++ " not found in " ++ n
  | TerminalState i s =>
      "Bastion " ++ i ++ " is in terminal state: " ++ stateName s
  | TimedOutStopping i =>
      "Timed out waiting for bastion " ++ i ++ " to finish stopping"
  | TimedOutRunning i =>
      "Timed out waiting for bastion " ++ i ++ " to become running"
  | ServiceError d => d
  end.

(** ** parseArgs *)

Section ParseArgs.
Context `{JsNumber}.

Record Args : Type := {
  region : string;
  accessStack : string;
  dbStack : string;
  localPort : number
}.

(** What the script reads from its process: [process.argv] and
    [process.env.AWS_REGION]. *)
Record Invocation : Type := {
  argv : list string;
  AWS_REGION : option string
}.

(** [get(k)] of [parseArgs]; every call site leaves [def] undefined. *)
Definition get (args : list string) (k : string) (def : option string)
  : option string :=
  let i := indexOf args ("--" ++ k) in
  if i >=? 0 then at_index args (i + 1) else def.

Definition parseArgs (inv : Invocation) : Error + Args :=
  let args := skipn 2 (argv inv) in
  let region := or_literal (or_else (get args "region" None) (AWS_REGION inv))
                           "us-east-1" in
  let accessStack :=
    or_literal (get args "access-stack" None) "VersoStat-AccessStack-prod" in
  let dbStack :=
    or_literal (get args "db-stack" None) "VersoStat-DatabaseStack-prod" in
  let localPort :=
    match get args "local-port" None with
    | Some s => if (s =? "")%string then number_5439 else Number_of_string s
    | None => number_5439
    end in
  if (region =? "")%string then inl MissingRegion
  else if (accessStack =? "")%string then inl MissingAccessStack
  else if (dbStack =? "")%string then inl MissingDbStack
  else if not_number localPort || isNaN localPort then inl InvalidLocalPort
  else inr {| region := region; accessStack := accessStack;
              dbStack := dbStack; localPort := localPort |}.

(** The earlier revision of the script differs only in the two default
    stack names. *)
Definition parseArgs_v1 (inv : Invocation) : Error + Args :=
  let args := skipn 2 (argv inv) in
  let region := or_literal (or_else (get args "region" None) (AWS_REGION inv))
                           "us-east-1" in
  let accessStack :=
    or_literal (get args "access-stack" None) "VersoStat-AccessStack" in
  let dbStack :=
    or_literal (get args "db-stack" None) "VersoStat-DatabaseStack" in
  let localPort :=
    match get args "local-port" None with
    | Some s => if (s =? "")%string then number_5439 else Number_of_string s
    | None => number_5439
    end in
  if (region =? "")%string then inl MissingRegion
  else if (accessStack =? "")%string then inl MissingAccessStack
  else if (dbStack =? "")%string then inl MissingDbStack
  else if not_number localPort || isNaN localPort then inl InvalidLocalPort
  else inr {| region := region; accessStack := accessStack;
              dbStack := dbStack; localPort := localPort |}.

End ParseArgs.

(** ** What the script talks to *)

(** Responses of the AWS SDK, with the optional fields the script reads. *)
Record Output : Type := {
  OutputKey : option string;
  OutputValue : option string
}.
Record Stack : Type := { Outputs : option (list Output) }.
Record DescribeStacksOutput : Type := { Stacks : option (list Stack) }.

Record InstanceState : Type := { Name : option InstanceStateName }.
Record Instance : Type := { State : option InstanceState }.
Record Reservation : Type := { Instances : option (list Instance) }.
Record DescribeInstancesOutput : Type := {
  Reservations : option (list Reservation)
}.

(** [new CloudFormationClient({ region })], [new EC2Client({ region })]. *)
Record CloudFormationClient : Type := { cf_region : string }.
Record EC2Client : Type := { ec2_region : string }.

Inductive Ec2Command : Type :=
| DescribeInstancesCommand (InstanceId : string)
| StartInstancesCommand (InstanceId : string)
| StopInstancesCommand (InstanceId : string).

(** Everything the script awaits: a command sent through a client, or a
    timer ([sleep]). *)
Inductive Request : Type :=
| CfSend (cf : CloudFormationClient) (StackName : string)
| Ec2Send (ec2 : EC2Client) (cmd : Ec2Command)
| SetTimeout (ms : Z).

Definition Reply (rq : Request) : Type :=
  match rq with
  | CfSend _ _ => DescribeStacksOutput
  | Ec2Send _ (DescribeInstancesCommand _) => DescribeInstancesOutput
  | Ec2Send _ (StartInstancesCommand _) => unit
  | Ec2Send _ (StopInstancesCommand _) => unit
  | SetTimeout _ => unit
  end.

(** How a promise settles. *)
Inductive Settled (R : Type) : Type :=
| Resolved (value : R)
| Rejected (reason : Error).
Arguments Rejected {R} reason.

Inductive Signal : Type := SIGTERM | SIGINT | SIGTSTP.

(** The tunnel child: the two facts about the [ChildProcess] object that the
    script or the runtime consult. *)
Record ChildProcess : Type := {
  killed : bool;      (* child.killed: a signal was delivered by kill() *)
  exited : bool       (* the 'exit' event has been emitted *)
}.

(** A reference to the one [ChildProcess] object of a run. *)
Inductive ChildHandle : Type := TunnelChild.

(** What [child.kill(sig)] does: deliver the signal and return true, return
    false, or throw. *)
Inductive KillResult : Type :=
| KillSent
| KillNotSent
| KillThrew (e : Error).

(** The functions whose activations are recorded in the trace. *)
Inductive Callee : Type :=
| call_cleanupAndExit (code : Z)
| call_stopInstance (instanceId : string).

Section Script.
Context `{JsNumber}.

(** The payload handed to [JSON.stringify] for [--parameters]. *)
Record ForwardParameters : Type := {
  host : list string;
  portNumber : list string;
  localPortNumber : list number     (* [String(localPort)] *)
}.

Inductive SpawnArg : Type :=
| Word (s : string)
| Json (p : ForwardParameters).

(** The lines the script prints, one constructor per call site. *)
Inductive Line : Type :=
| CurrentBastionState (state : option InstanceStateName)
| BastionIsRunning (instanceId : string)
| BastionStarting (instanceId : string) (state : option InstanceStateName)
| StoppingBastion (instanceId : string)
| StoppingBastionBeforeExit
| BastionStopped
| FailedToStopBastion (e : Error)
| SsmSessionExited (code : option Z)
| PortForwardParameters (region bastionId dbEndpoint : string)
                        (localPort : number)
| WhenConnected (localPort : number)
| Uncaught (e : Error).

(** Synchronous operations: they complete inside the running activation.
    [Enter f] is the mark a call of [f] leaves in the trace; it does nothing
    else. *)
Inductive SyncOp : Type :=
| ConsoleLog (l : Line)
| ConsoleError (l : Line)
| DateNow
| GetEc2Global
| SetEc2Global (ec2 : EC2Client)
| GetBastionIdGlobal
| SetBastionIdGlobal (id : string)
| GetChildGlobal
| SetChildGlobal (child : ChildHandle)
| ChildKilled (child : ChildHandle)
| ChildKill (child : ChildHandle) (sig : Signal)
| Spawn (command : string) (args : list SpawnArg)
| ChildOnExit (child : ChildHandle) (ec2 : EC2Client) (bastionId : string)
| Enter (f : Callee).

Definition Result (op : SyncOp) : Type :=
  match op with
  | DateNow => Z
  | GetEc2Global => option EC2Client
  | GetBastionIdGlobal => option string
  | GetChildGlobal => option ChildHandle
  | ChildKilled _ => bool
  | ChildKill _ _ => KillResult
  | Spawn _ _ => ChildHandle
  | _ => unit
  end.

(** *** Asynchronous programs *)

Inductive Async (A : Type) : Type :=
| Return (a : A)
| Throw (e : Error)
| ProcessExit (code : Z)                 (* process.exit: never returns *)
| Sync (op : SyncOp) (k : Result op -> Async A)
| Await (rq : Request) (k : Settled (Reply rq) -> Async A)
| OutOfFuel.                             (* a loop unrolled to its bound *)
Arguments Throw {A} e.
Arguments ProcessExit {A} code.
Arguments OutOfFuel {A}.

Fixpoint bind {A B} (t : Async A) (f : A -> Async B) : Async B :=
  match t with
  | Return a => f a
  | Throw e => Throw e
  | ProcessExit c => ProcessExit c
  | Sync op k => Sync op (fun r => bind (k r) f)
  | Await rq k => Await rq (fun r => bind (k r) f)
  | OutOfFuel => OutOfFuel
  end.

(** [try { t } catch (e) { h e }] *)
Fixpoint try_catch {A} (t : Async A) (h : Error -> Async A) : Async A :=
  match t with
  | Return a => Return a
  | Throw e => h e
  | ProcessExit c => ProcessExit c
  | Sync op k => Sync op (fun r => try_catch (k r) h)
  | Await rq k => Await rq (fun r => try_catch (k r) h)
  | OutOfFuel => OutOfFuel
  end.

Definition call (op : SyncOp) : Async (Result op) := Sync op (@Return _).

(** [await p]: the value of the promise, or its rejection thrown. *)
Definition await (rq : Request) : Async (Reply rq) :=
  Await rq (fun s => match s with
                     | Resolved v => Return v
                     | Rejected e => Throw e
                     end).

End Script.

Arguments Throw {_ A} e.
Arguments ProcessExit {_ A} code.
Arguments OutOfFuel {_ A}.

Declare Scope async_scope.
Delimit Scope async_scope with async.
Notation "x <- t ;; u" := (bind t (fun x => u))
  (at level 61, t at next level, right associativity) : async_scope.
Notation "t ;; u" := (bind t (fun _ => u))
  (at level 61, right associativity) : async_scope.
Notation "'try' t 'catch' e => h" := (try_catch t (fun e => h))
  (at level 60, t at level 61, e name, h at level 61) : async_scope.

(** ** The script *)

Section Functions.
Context `{JsNumber}.
Local Open Scope async_scope.

Definition console_log (l : Line) : Async unit := call (ConsoleLog l).
Definition console_error (l : Line) : Async unit := call (ConsoleError l).

(** [o?.f] *)
Definition chain {A B} (o : option A) (f : A -> option B) : option B :=
  match o with
  | Some a => f a
  | None => None
  end.

(** [sleep(ms)]: a promise resolved by a timer. *)
Definition sleep (ms : Z) : Async unit :=
  Await (SetTimeout ms) (fun _ => Return tt).

(** The part of [getStackOutput] that follows the [await]. *)
Definition outputValue (resp : DescribeStacksOutput) (outputKey : string)
  : option (option string) :=
  match chain (Stacks resp) (@hd_error _) with
  | None => None                                   (* !stack *)
  | Some stack =>
      Some (chain
              (chain (Outputs stack)
                 (find (fun o => match OutputKey o with
                                 | Some k => (k =? outputKey)%string
                                 | None => false
                                 end)))
              OutputValue)
  end.

Definition getStackOutput (cf : CloudFormationClient)
           (stackName outputKey : string) : Async string :=
  resp <- await (CfSend cf stackName);;
  match outputValue resp outputKey with
  | None => Throw (StackNotFound stackName)
  | Some val =>
      match val with
      | Some v => if (v =? "")%string
                  then Throw (OutputNotFound outputKey stackName)
                  else Return v
      | None => Throw (OutputNotFound outputKey stackName)
      end
  end.

(** The part of [getInstanceState] that follows the [await]. *)
Definition stateOf (resp : DescribeInstancesOutput)
  : option InstanceStateName :=
  let reservations := match Reservations resp with
                      | Some rs => rs
                      | None => []
                      end in
  let inst := chain (chain (hd_error reservations) Instances)
                    (@hd_error _) in
  chain (chain inst State) Name.

Definition getInstanceState (ec2 : EC2Client) (instanceId : string)
  : Async (option InstanceStateName) :=
  resp <- await (Ec2Send ec2 (DescribeInstancesCommand instanceId));;
  Return (stateOf resp).

(** [state === "name"] *)
Definition is_state (state : option InstanceStateName)
           (name : InstanceStateName) : bool :=
  match state, name with
  | Some pending, pending | Some running, running
  | Some shutting_down, shutting_down | Some stopped, stopped
  | Some stopping, stopping | Some terminated, terminated => true
  | _, _ => false
  end.

Definition is_undefined (state : option InstanceStateName) : bool :=
  match state with
  | None => true
  | Some _ => false
  end.

(** The [for (;;)] loop of [ensureInstanceRunning], unrolled [fuel]
    times; [start] is the clock reading taken before the loop. *)
Fixpoint poll (fuel : nat) (ec2 : EC2Client) (instanceId : string)
         (timeoutMs start : Z) : Async unit :=
  match fuel with
  | O => OutOfFuel
  | S fuel' =>
      state <- getInstanceState ec2 instanceId;;
      console_log (CurrentBastionState state);;
      if is_state state running then
        console_log (BastionIsRunning instanceId);;
        Return tt
      else if is_state state terminated || is_state state shutting_down then
        Throw (TerminalState instanceId state)
      else if is_state state stopping then
        now <- call DateNow;;
        if now - start >? timeoutMs then
          Throw (TimedOutStopping instanceId)
        else
          sleep 5000;;
          poll fuel' ec2 instanceId timeoutMs start
      else
        (if is_state state stopped || is_undefined state then
           console_log (BastionStarting instanceId state);;
           await (Ec2Send ec2 (StartInstancesCommand instanceId))
         else Return tt);;
        now <- call DateNow;;
        if now - start >? timeoutMs then
          Throw (TimedOutRunning instanceId)
        else
          sleep 5000;;
          poll fuel' ec2 instanceId timeoutMs start
  end.

Definition ensureInstanceRunning (fuel : nat) (ec2 : EC2Client)
           (instanceId : string) (timeoutMs : Z) : Async unit :=
  start <- call DateNow;;
  poll fuel ec2 instanceId timeoutMs start.

(** The default of [timeoutMs]: 5 minutes. *)
Definition default_timeoutMs : Z := 5 * 60 * 1000.

Definition stopInstance (ec2 : EC2Client) (instanceId : string)
  : Async unit :=
  call (Enter (call_stopInstance instanceId));;
  console_log (StoppingBastion instanceId);;
  await (Ec2Send ec2 (StopInstancesCommand instanceId)).

(** [childGlobal.kill(sig)], which may throw. *)
Definition kill (child : ChildHandle) (sig : Signal) : Async bool :=
  r <- call (ChildKill child sig);;
  match r with
  | KillSent => Return true
  | KillNotSent => Return false
  | KillThrew e => Throw e
  end.

Definition cleanupAndExit (code : Z) : Async unit :=
  call (Enter (call_cleanupAndExit code));;
  childGlobal <- call GetChildGlobal;;
  match childGlobal with
  | Some child =>
      was_killed <- call (ChildKilled child);;
      if negb was_killed then
        try (kill child SIGINT;; Return tt) catch _ => Return tt
      else Return tt
  | None => Return tt
  end;;
  ec2Global <- call GetEc2Global;;
  bastionIdGlobal <- call GetBastionIdGlobal;;
  match ec2Global with
  | Some ec2 =>
      match bastionIdGlobal with
      | Some bastionId =>
          if truthy bastionIdGlobal then
            try (console_log StoppingBastionBeforeExit;;
                 stopInstance ec2 bastionId;;
                 console_log BastionStopped)
            catch e => console_error (FailedToStopBastion e)
          else Return tt
      | None => Return tt
      end
  | None => Return tt
  end;;
  ProcessExit code.

(** The three [process.on(signal, ...)] listeners. *)
Definition on_signal (sig : Signal) : Async unit :=
  match sig with
  | SIGTERM => cleanupAndExit 143
  | SIGINT => cleanupAndExit 130
  | SIGTSTP => cleanupAndExit 148
  end.

(** The listener given to [child.on("exit", ...)]; it closes over the
    [ec2] and [bastionId] of [main]. *)
Definition on_child_exit (ec2 : EC2Client) (bastionId : string)
           (code : option Z) : Async unit :=
  console_log (SsmSessionExited code);;
  try (stopInstance ec2 bastionId;;
       console_log BastionStopped)
  catch e => console_error (FailedToStopBastion e).

Definition main (fuel : nat) (inv : Invocation) : Async unit :=
  args <- match parseArgs inv with
          | inl e => Throw e
          | inr a => Return a
          end;;
  let cf := {| cf_region := region args |} in
  let ec2 := {| ec2_region := region args |} in
  bastionId <- getStackOutput cf (accessStack args)
                              "VersoStatBastionInstanceId";;
  call (SetEc2Global ec2);;
  call (SetBastionIdGlobal bastionId);;
  dbEndpoint <- getStackOutput cf (dbStack args) "VersoStatDbHost";;
  ensureInstanceRunning fuel ec2 bastionId default_timeoutMs;;
  sleep 10000;;
  console_log (PortForwardParameters (region args) bastionId dbEndpoint
                                     (localPort args));;
  let params := {| host := [dbEndpoint];
                   portNumber := ["5432"];
                   localPortNumber := [localPort args] |} in
  child <- call (Spawn "aws"
                   [Word "ssm"; Word "start-session";
                    Word "--region"; Word (region args);
                    Word "--target"; Word bastionId;
                    Word "--document-name";
                    Word "AWS-StartPortForwardingSessionToRemoteHost";
                    Word "--parameters"; Json params]);;
  call (SetChildGlobal child);;
  call (ChildOnExit child ec2 bastionId);;
  console_log (WhenConnected (localPort args)).

(** [main().catch((e) => { console.error(e); process.exit(1); })] *)
Definition script (fuel : nat) (inv : Invocation) : Async unit :=
  try main fuel inv
  catch e => (console_error (Uncaught e);; ProcessExit 1).

End Functions.

(** ** Executing the script *)

(** How a run against an injected world ends. *)
Inductive Outcome (A : Type) : Type :=
| Returned (a : A)
| Threw (e : Error)
| ExitedWith (code : Z)
| Starved           (* the injected world has no further answer *)
| Unfinished.       (* the loop bound was reached *)
Arguments Threw {A} e.
Arguments ExitedWith {A} code.
Arguments Starved {A}.
Arguments Unfinished {A}.

Section Execution.
Context `{JsNumber}.

(** What the outside world can observe, in the order it happens. *)
Inductive Effect : Type :=
| Stdout (l : Line)
| Stderr (l : Line)
| Sent (rq : Request)
| Kill (sig : Signal) (r : KillResult)
| Spawned (command : string) (args : list SpawnArg)
| Exited (code : Z)
| Called (f : Callee).

(** The mutable state the script shares between its activations: the
    three module-level variables, the child object and its listener. *)
Record Memory : Type := {
  ec2Global : option EC2Client;
  bastionIdGlobal : option string;
  childGlobal : option ChildHandle;
  child : option ChildProcess;
  exitListener : option (EC2Client * string)
}.

Definition fresh : Memory :=
  {| ec2Global := None; bastionIdGlobal := None; childGlobal := None;
     child := None; exitListener := None |}.

Definition with_child (m : Memory) (c : option ChildProcess) : Memory :=
  {| ec2Global := ec2Global m; bastionIdGlobal := bastionIdGlobal m;
     childGlobal := childGlobal m; child := c;
     exitListener := exitListener m |}.

(** What a synchronous operation needs from outside the script. *)
Definition External (op : SyncOp) : Type :=
  match op with
  | DateNow => Z
  | ChildKill _ _ => KillResult
  | _ => unit
  end.

Definition perform (op : SyncOp)
  : External op -> Memory -> Result op * Memory * list Effect :=
  match op as o
        return External o -> Memory -> Result o * Memory * list Effect with
  | ConsoleLog l => fun _ m => (tt, m, [Stdout l])
  | ConsoleError l => fun _ m => (tt, m, [Stderr l])
  | DateNow => fun now m => (now, m, [])
  | GetEc2Global => fun _ m => (ec2Global m, m, [])
  | SetEc2Global ec2 => fun _ m =>
      (tt, {| ec2Global := Some ec2; bastionIdGlobal := bastionIdGlobal m;
              childGlobal := childGlobal m; child := child m;
              exitListener := exitListener m |}, [])
  | GetBastionIdGlobal => fun _ m => (bastionIdGlobal m, m, [])
  | SetBastionIdGlobal id => fun _ m =>
      (tt, {| ec2Global := ec2Global m; bastionIdGlobal := Some id;
              childGlobal := childGlobal m; child := child m;
              exitListener := exitListener m |}, [])
  | GetChildGlobal => fun _ m => (childGlobal m, m, [])
  | SetChildGlobal h => fun _ m =>
      (tt, {| ec2Global := ec2Global m; bastionIdGlobal := bastionIdGlobal m;
              childGlobal := Some h; child := child m;
              exitListener := exitListener m |}, [])
  | ChildKilled _ => fun _ m =>
      (match child m with
       | Some c => killed c
       | None => false
       end, m, [])
  | ChildKill _ sig => fun outcome m =>
      match child m with
      | Some c =>
          if exited c then (KillNotSent, m, [Kill sig KillNotSent])
          else match outcome with
               | KillSent =>
                   (KillSent,
                    with_child m (Some {| killed := true;
                                          exited := exited c |}),
                    [Kill sig KillSent])
               | r => (r, m, [Kill sig r])
               end
      | None => (KillNotSent, m, [Kill sig KillNotSent])
      end
  | Spawn command args => fun _ m =>
      (TunnelChild,
       with_child m (Some {| killed := false; exited := false |}),
       [Spawned command args])
  | ChildOnExit _ ec2 id => fun _ m =>
      (tt, {| ec2Global := ec2Global m; bastionIdGlobal := bastionIdGlobal m;
              childGlobal := childGlobal m; child := child m;
              exitListener := Some (ec2, id) |}, [])
  | Enter f => fun _ m => (tt, m, [Called f])
  end.

(** *** Against an injected world *)

(** The answers injected for a run: the replies to the successive
    requests of each kind, the successive readings of the clock and the
    results of the successive [kill] calls.  Timers always fire. *)
Record World : Type := {
  stacks : list (Settled DescribeStacksOutput);
  observations : list (Settled DescribeInstancesOutput);
  commands : list (Settled unit);
  clock : list Z;
  kills : list KillResult
}.

Definition answer (rq : Request) (w : World)
  : option (Settled (Reply rq) * World) :=
  match rq as r return option (Settled (Reply r) * World) with
  | CfSend _ _ =>
      match stacks w with
      | s :: rest =>
          Some (s, {| stacks := rest; observations := observations w;
                      commands := commands w; clock := clock w;
                      kills := kills w |})
      | [] => None
      end
  | Ec2Send ec2 cmd =>
      let next_command :=
        match commands w with
        | s :: rest =>
            Some (s, {| stacks := stacks w; observations := observations w;
                        commands := rest; clock := clock w;
                        kills := kills w |})
        | [] => None
        end in
      match cmd as c
            return option (Settled (Reply (Ec2Send ec2 c)) * World) with
      | DescribeInstancesCommand _ =>
          match observations w with
          | s :: rest =>
              Some (s, {| stacks := stacks w; observations := rest;
                          commands := commands w; clock := clock w;
                          kills := kills w |})
          | [] => None
          end
      | StartInstancesCommand _ => next_command
      | StopInstancesCommand _ => next_command
      end
  | SetTimeout _ => Some (Resolved tt, w)
  end.

Definition draw (op : SyncOp) (w : World) : option (External op * World) :=
  match op as o return option (External o * World) with
  | DateNow =>
      match clock w with
      | t :: rest =>
          Some (t, {| stacks := stacks w; observations := observations w;
                      commands := commands w; clock := rest;
                      kills := kills w |})
      | [] => None
      end
  | ChildKill _ _ =>
      match kills w with
      | r :: rest =>
          Some (r, {| stacks := stacks w; observations := observations w;
                      commands := commands w; clock := clock w;
                      kills := rest |})
      | [] => None
      end
  | _ => Some (tt, w)
  end.

Record Run (A : Type) : Type := {
  outcome : Outcome A;
  effects : list Effect;
  final : Memory;
  remaining : World
}.

Definition finish {A} (o : Outcome A) (w : World) (m : Memory) : Run A :=
  {| outcome := o; effects := []; final := m; remaining := w |}.

Definition emit {A} (es : list Effect) (r : Run A) : Run A :=
  {| outcome := outcome r; effects := es ++ effects r;
     final := final r; remaining := remaining r |}.

Fixpoint play {A} (t : Async A) (w : World) (m : Memory) : Run A :=
  match t with
  | Return a => finish (Returned a) w m
  | Throw e => finish (Threw e) w m
  | ProcessExit c => emit [Exited c] (finish (ExitedWith c) w m)
  | Sync op k =>
      match draw op w with
      | Some (x, w') =>
          let '(r, m', es) := perform op x m in
          emit es (play (k r) w' m')
      | None => finish Starved w m
      end
  | Await rq k =>
      emit [Sent rq]
           match answer rq w with
           | Some (s, w') => play (k s) w' m
           | None => finish Starved w m
           end
  | OutOfFuel => finish Unfinished w m
  end.

End Execution.

(** ** The event loop *)

Section EventLoop.
Context `{JsNumber}.

(** An activation stopped at an [await]. *)
Record Suspended : Type := {
  awaited : Request;
  resume : Settled (Reply awaited) -> Async unit
}.

Record Proc : Type := {
  memory : Memory;
  tasks : list (option Suspended);   (* by age; [None] once resumed *)
  exitCode : option Z;               (* set by process.exit *)
  output : list Effect;
  unhandled : list Error             (* rejections nobody caught *)
}.

Definition loaded : Proc :=
  {| memory := fresh; tasks := []; exitCode := None; output := [];
     unhandled := [] |}.

(** What the surroundings decide while an activation runs: the reading of
    the clock and the fate of a [kill]. *)
Record Env : Type := {
  env_now : Z;
  env_kill : KillResult
}.

Definition supply (env : Env) (op : SyncOp) : External op :=
  match op as o return External o with
  | DateNow => env_now env
  | ChildKill _ _ => env_kill env
  | _ => tt
  end.

(** How an activation leaves the stage. *)
Inductive Pause : Type :=
| Finished                    (* it returned *)
| Failed (e : Error)          (* it threw and nobody caught *)
| Quit (code : Z)             (* it called process.exit *)
| Waiting (t : Suspended)     (* it reached an [await] *)
| Unrolled.                   (* the loop bound was reached *)

Record Turn : Type := {
  pause : Pause;
  said : list Effect;
  mem : Memory
}.

(** Run an activation until it ends or reaches its next [await]. *)
Fixpoint turn (env : Env) (t : Async unit) (m : Memory) : Turn :=
  match t with
  | Return _ => {| pause := Finished; said := []; mem := m |}
  | Throw e => {| pause := Failed e; said := []; mem := m |}
  | ProcessExit c => {| pause := Quit c; said := [Exited c]; mem := m |}
  | Sync op k =>
      let '(r, m', es) := perform op (supply env op) m in
      let u := turn env (k r) m' in
      {| pause := pause u; said := es ++ said u; mem := mem u |}
  | Await rq k =>
      {| pause := Waiting {| awaited := rq; resume := k |};
         said := [Sent rq]; mem := m |}
  | OutOfFuel => {| pause := Unrolled; said := []; mem := m |}
  end.

Definition activate (env : Env) (t : Async unit) (st : Proc)
  : option Proc :=
  let u := turn env t (memory st) in
  match pause u with
  | Finished =>
      Some {| memory := mem u; tasks := tasks st; exitCode := exitCode st;
              output := output st ++ said u; unhandled := unhandled st |}
  | Failed e =>
      Some {| memory := mem u; tasks := tasks st; exitCode := exitCode st;
              output := output st ++ said u;
              unhandled := unhandled st ++ [e] |}
  | Quit c =>
      Some {| memory := mem u; tasks := tasks st; exitCode := Some c;
              output := output st ++ said u; unhandled := unhandled st |}
  | Waiting t' =>
      Some {| memory := mem u; tasks := tasks st ++ [Some t'];
              exitCode := exitCode st; output := output st ++ said u;
              unhandled := unhandled st |}
  | Unrolled => None
  end.

Inductive Status : Type :=
| Running
| Terminated (code : Z).

Definition settled_all (ts : list (option Suspended)) : bool :=
  forallb (fun t => match t with
                    | None => true
                    | Some _ => false
                    end) ts.

Definition child_alive (m : Memory) : bool :=
  match child m with
  | Some c => negb (exited c)
  | None => false
  end.

(** Node ends the process when [process.exit] is called, or, with exit
    code 0, when nothing is pending any more (signal listeners do not keep
    the loop alive; a running child and a pending request do). *)
Definition status (st : Proc) : Status :=
  match exitCode st with
  | Some c => Terminated c
  | None =>
      if settled_all (tasks st) && negb (child_alive (memory st))
      then Terminated 0
      else Running
  end.

Inductive Settlement : Type :=
| StacksDescribed (r : Settled DescribeStacksOutput)
| InstancesDescribed (r : Settled DescribeInstancesOutput)
| CommandDone (r : Settled unit)
| TimerFired.

Inductive Event : Type :=
| SignalReceived (sig : Signal)
| ChildExited (code : option Z)
| Settle (task : nat) (by_ : Settlement).

Definition deliver (rq : Request) (s : Settlement)
  : option (Settled (Reply rq)) :=
  match rq as r return option (Settled (Reply r)) with
  | CfSend _ _ =>
      match s with
      | StacksDescribed r => Some r
      | _ => None
      end
  | Ec2Send ec2 cmd =>
      match cmd as c return option (Settled (Reply (Ec2Send ec2 c))) with
      | DescribeInstancesCommand _ =>
          match s with
          | InstancesDescribed r => Some r
          | _ => None
          end
      | StartInstancesCommand _ =>
          match s with
          | CommandDone r => Some r
          | _ => None
          end
      | StopInstancesCommand _ =>
          match s with
          | CommandDone r => Some r
          | _ => None
          end
      end
  | SetTimeout _ =>
      match s with
      | TimerFired => Some (Resolved tt)
      | _ => None
      end
  end.

Fixpoint clear (n : nat) (ts : list (option Suspended))
  : list (option Suspended) :=
  match ts, n with
  | [], _ => []
  | _ :: rest, O => None :: rest
  | t :: rest, S n' => t :: clear n' rest
  end.

(** One turn of the loop; [None] when the event cannot happen in this
    state (the process has ended, no such pending request, ...). *)
Definition step (env : Env) (st : Proc) (ev : Event) : option Proc :=
  match status st with
  | Terminated _ => None
  | Running =>
      match ev with
      | SignalReceived sig => activate env (on_signal sig) st
      | ChildExited code =>
          match child (memory st) with
          | Some c =>
              if exited c then None
              else
                let st' :=
                  {| memory := with_child (memory st)
                                 (Some {| killed := killed c;
                                          exited := true |});
                     tasks := tasks st; exitCode := exitCode st;
                     output := output st; unhandled := unhandled st |} in
                match exitListener (memory st) with
                | Some (ec2, id) =>
                    activate env (on_child_exit ec2 id code) st'
                | None => Some st'
                end
          | None => None
          end
      | Settle n s =>
          match nth_error (tasks st) n with
          | Some (Some t) =>
              match deliver (awaited t) s with
              | Some reply =>
                  activate env (resume t reply)
                    {| memory := memory st; tasks := clear n (tasks st);
                       exitCode := exitCode st; output := output st;
                       unhandled := unhandled st |}
              | None => None
              end
          | _ => None
          end
      end
  end.

Fixpoint run (st : Proc) (evs : list (Env * Event)) : option Proc :=
  match evs with
  | [] => Some st
  | (env, ev) :: rest =>
      match step env st ev with
      | Some st' => run st' rest
      | None => None
      end
  end.

(** Loading the module: the signal listeners are registered, then [main]
    is called and runs to its first [await]. *)
Definition boot (env : Env) (fuel : nat) (inv : Invocation) : option Proc :=
  activate env (script fuel inv) loaded.

End EventLoop.

(** ** Where the teardown code waits *)

Section Suspensions.
Context `{JsNumber}.
Local Open Scope async_scope.

(** [cleanupAndExit(code)] from its [await stopInstance(...)] on. *)
Definition finish_cleanup (code : Z) (r : Settled unit) : Async unit :=
  (try (match r with
        | Resolved v => Return v
        | Rejected e => Throw e
        end;;
        console_log BastionStopped)
   catch e => console_error (FailedToStopBastion e));;
  ProcessExit code.

Definition stop_in_cleanup (ec2 : EC2Client) (bastionId : string)
           (code : Z) : Suspended :=
  {| awaited := Ec2Send ec2 (StopInstancesCommand bastionId);
     resume := finish_cleanup code |}.

(** The exit listener from its [await stopInstance(...)] on. *)
Definition finish_listener (r : Settled unit) : Async unit :=
  try (match r with
       | Resolved v => Return v
       | Rejected e => Throw e
       end;;
       console_log BastionStopped)
  catch e => console_error (FailedToStopBastion e).

Definition stop_in_listener (ec2 : EC2Client) (bastionId : string)
  : Suspended :=
  {| awaited := Ec2Send ec2 (StopInstancesCommand bastionId);
     resume := finish_listener |}.

(** The first statement of [cleanupAndExit], the guarded [kill]: what it
    does to the outside and how it leaves the memory. *)
Definition teardown_kill (env : Env) (m : Memory) : list Effect * Memory :=
  match childGlobal m with
  | Some h =>
      if match child m with
         | Some c => killed c
         | None => false
         end
      then ([], m)
      else let '(_, m', es) := perform (ChildKill h SIGINT) (env_kill env) m in
           (es, m')
  | None => ([], m)
  end.

(** The exit code each handled signal asks for. *)
Definition signal_code (sig : Signal) : Z :=
  match sig with
  | SIGTERM => 143
  | SIGINT => 130
  | SIGTSTP => 148
  end.

(** A burst of signals, each with the surroundings it meets. *)
Definition signals (sigs : list (Env * Signal)) : list (Env * Event) :=
  map (fun p => (fst p, SignalReceived (snd p))) sigs.

End Suspensions.

(** ** Reading traces *)

Section Traces.
Context `{JsNumber}.

Definition is_describe (e : Effect) : bool :=
  match e with
  | Sent (Ec2Send _ (DescribeInstancesCommand _)) => true
  | _ => false
  end.

Definition is_start (e : Effect) : bool :=
  match e with
  | Sent (Ec2Send _ (StartInstancesCommand _)) => true
  | _ => false
  end.

Definition is_stop (e : Effect) : bool :=
  match e with
  | Sent (Ec2Send _ (StopInstancesCommand _)) => true
  | _ => false
  end.

Definition is_ec2 (e : Effect) : bool :=
  match e with
  | Sent (Ec2Send _ _) => true
  | _ => false
  end.

Definition is_sleep (e : Effect) : bool :=
  match e with
  | Sent (SetTimeout _) => true
  | _ => false
  end.

Definition is_kill (e : Effect) : bool :=
  match e with
  | Kill _ _ => true
  | _ => false
  end.

Definition is_teardown (e : Effect) : bool :=
  match e with
  | Called (call_cleanupAndExit _) => true
  | _ => false
  end.

Definition count (p : Effect -> bool) (es : list Effect) : nat :=
  List.length (filter p es).

(** A start request is justified when the state printed by the iteration
    it belongs to is [stopped] or undefined.  An iteration begins with its
    DescribeInstances request; [seen] is the state the current iteration
    has printed, if it has. *)
Definition may_start (seen : option (option InstanceStateName)) : bool :=
  match seen with
  | Some (Some stopped) | Some None => true
  | _ => false
  end.

Fixpoint starts_justified (seen : option (option InstanceStateName))
         (es : list Effect) : bool :=
  match es with
  | [] => true
  | Sent (Ec2Send _ (DescribeInstancesCommand _)) :: rest =>
      starts_justified None rest
  | Stdout (CurrentBastionState s) :: rest =>
      starts_justified (Some s) rest
  | Sent (Ec2Send _ (StartInstancesCommand _)) :: rest =>
      may_start seen && starts_justified seen rest
  | _ :: rest => starts_justified seen rest
  end.

(** The states the loop has printed, oldest first. *)
Fixpoint printed_states (es : list Effect)
  : list (option InstanceStateName) :=
  match es with
  | [] => []
  | Stdout (CurrentBastionState s) :: rest => s :: printed_states rest
  | _ :: rest => printed_states rest
  end.

(** The state an injected reply shows, when it is a reply. *)
Definition observed (o : Settled DescribeInstancesOutput)
  : option (option InstanceStateName) :=
  match o with
  | Resolved resp => Some (stateOf resp)
  | Rejected _ => None
  end.

(** The two timeout errors of [ensureInstanceRunning]. *)
Definition is_timeout (e : Error) : bool :=
  match e with
  | TimedOutStopping _ | TimedOutRunning _ => true
  | _ => false
  end.

(** The states in which an iteration neither returns nor gives up at
    once: it reads the clock. *)
Definition waits_on (state : option InstanceStateName) : bool :=
  negb (is_state state running)
  && negb (is_state state terminated || is_state state shutting_down).

(** [getStackOutput] on a settled DescribeStacks request. *)
Definition lookup (s : Settled DescribeStacksOutput)
           (stackName outputKey : string) : Error + string :=
  match s with
  | Rejected e => inl e
  | Resolved resp =>
      match outputValue resp outputKey with
      | None => inl (StackNotFound stackName)
      | Some None => inl (OutputNotFound outputKey stackName)
      | Some (Some v) =>
          if (v =? "")%string then inl (OutputNotFound outputKey stackName)
          else inr v
      end
  end.

End Traces.

(** ** Who may ask for the instance to be polled or started *)

Section Gating.
Context `{JsNumber}.

(** The requests that belong to [main]: the lookups and the polling and
    starting of the instance. *)
Definition is_main_request (rq : Request) : bool :=
  match rq with
  | CfSend _ _ => true
  | Ec2Send _ (DescribeInstancesCommand _) => true
  | Ec2Send _ (StartInstancesCommand _) => true
  | _ => false
  end.

Definition is_lifecycle (e : Effect) : bool := is_describe e || is_start e.

(** A program that makes none of them, whatever it is answered. *)
Fixpoint aside {A} (t : Async A) : Prop :=
  match t with
  | Sync op k => forall r, aside (k r)
  | Await rq k => is_main_request rq = false /\ forall s, aside (k s)
  | _ => True
  end.

(** A settled DescribeStacks request from which [getStackOutput] gets a
    value for [key]. *)
Definition good (s : Settled DescribeStacksOutput) (key : string) : bool :=
  match s with
  | Resolved resp =>
      match outputValue resp key with
      | Some (Some v) => negb (v =? "")%string
      | _ => false
      end
  | Rejected _ => false
  end.

(** A program that, as long as [keys] are still to be looked up, awaits
    nothing but the lookup of the first of them, goes on to the others when
    it succeeds and turns aside when it fails. *)
Fixpoint gated {A} (keys : list string) (t : Async A) : Prop :=
  match keys with
  | [] => True
  | key :: rest =>
      match t with
      | Sync op k => forall r, gated keys (k r)
      | Await rq k =>
          match rq as r return (Settled (Reply r) -> Async A) -> Prop with
          | CfSend _ _ => fun k =>
              forall s, if good s key then gated rest (k s) else aside (k s)
          | _ => fun _ => False
          end k
      | _ => True
      end
  end.

(** The two outputs [main] looks up, in its order. *)
Definition lookup_keys : list string :=
  ["VersoStatBastionInstanceId"; "VersoStatDbHost"].

(** Among the events, one successful lookup for each of [keys], in order. *)
Fixpoint resolved (keys : list string) (evs : list (Env * Event)) : Prop :=
  match keys with
  | [] => True
  | key :: rest =>
      exists pre e n s post,
        evs = (pre ++ (e, Settle n (StacksDescribed s)) :: post)%list
        /\ good s key = true
        /\ resolved rest post
  end.

(** A suspended activation as the program it is: its [await] and what
    follows. *)
Definition pending_program (t : Suspended) : Async unit :=
  Await (awaited t) (resume t).

(** What every activation satisfies after the events [evs]: it is aside, or
    it is gated by the lookups that have not succeeded yet. *)
Definition program_ok (evs : list (Env * Event)) (t : Async unit) : Prop :=
  aside t
  \/ exists done todo,
      (done ++ todo)%list = lookup_keys
      /\ resolved done evs
      /\ gated todo t.

Definition task_ok (evs : list (Env * Event)) (t : Suspended) : Prop :=
  program_ok evs (pending_program t).

Definition lookups_first (evs : list (Env * Event)) (st : Proc) : Prop :=
  (count is_lifecycle (output st) = 0%nat \/ resolved lookup_keys evs)
  /\ forall t, In (Some t) (tasks st) -> task_ok evs t.

End Gating.

(** ** Where errors end up *)

Section Containment.
Context `{JsNumber}.

(** The line printed by the error handler of [main]. *)
Definition is_report (e : Effect) : bool :=
  match e with
  | Stderr (Uncaught _) => true
  | _ => false
  end.

Definition reports (op : SyncOp) : bool :=
  match op with
  | ConsoleError (Uncaught _) => true
  | _ => false
  end.

(** A program that never prints that line. *)
Fixpoint silent {A} (t : Async A) : Prop :=
  match t with
  | Sync op k => reports op = false /\ forall r, silent (k r)
  | Await rq k => forall s, silent (k s)
  | _ => True
  end.

(** A program from which no error escapes, and which exits with code 1
    right after it has printed that line. *)
Fixpoint contained (t : Async unit) : Prop :=
  match t with
  | Throw _ => False
  | Sync op k =>
      if reports op
      then forall r, k r = ProcessExit 1
      else forall r, contained (k r)
  | Await rq k => forall s, contained (k s)
  | _ => True
  end.

Definition errors_contained (st : Proc) : Prop :=
  unhandled st = []
  /\ (count is_report (output st) = 0%nat \/ exitCode st = Some 1)
  /\ forall t, In (Some t) (tasks st) -> contained (pending_program t).

End Containment.

(** ** More ways of reading command lines, replies and clocks *)

(** A flag that gives [get] nothing to use: it is absent, it is the last
    word, or the word after its first occurrence is empty. *)
Definition unusable (args : list string) (flag : string) : Prop :=
  ~ In flag args
  \/ (exists pre, args = (pre ++ [flag])%list /\ ~ In flag pre)
  \/ (exists pre post,
         args = (pre ++ flag :: "" :: post)%list /\ ~ In flag pre).

(** A DescribeInstances reply in which there is no instance to read the
    state of: no reservation, or a first reservation without instances. *)
Definition shows_no_instance (resp : DescribeInstancesOutput) : bool :=
  match Reservations resp with
  | None | Some [] => true
  | Some (r :: _) =>
      match Instances r with
      | None | Some [] => true
      | Some (_ :: _) => false
      end
  end.

(** Clock readings taken by successive iterations of the polling loop when
    its five second pauses really last five seconds: the reading of an
    iteration is at least [elapsed] after [start], the next one at least
    five seconds more, and so on. *)
Fixpoint advancing (start elapsed : Z) (readings : list Z) : bool :=
  match readings with
  | [] => true
  | t :: rest =>
      (elapsed <=? t - start) && advancing start (elapsed + 5000) rest
  end.

(** The number of iterations after which the loop must have ended under
    such a clock. *)
Definition enough_polls (timeoutMs : Z) : nat :=
  Z.to_nat (timeoutMs / 5000) + 2.

(** The step shared by the waiting cases of the proof that a successful
    call has observed [running]. *)
Ltac poll_success_step Hp Hw Hs Hd Ho Hst :=
  repeat split;
  [ cbn; rewrite Hp; reflexivity
  | cbn; rewrite Hw; reflexivity
  | cbn; rewrite Hs; reflexivity
  | unfold count in *; cbn; rewrite Hd; reflexivity
  | cbn [List.length firstn map observed observations app] in *;
    rewrite ?Hst, Ho; reflexivity ].

(** ** Which instance the requests are about *)

Section Targeting.
Context `{JsNumber}.

(** How far [main] has got in telling the teardown code what to stop:
    nothing is set, [ec2Global] is set, or both globals are. *)
Inductive Phase : Type :=
| Unresolved
| ClientSet (ec2 : EC2Client)
| Armed (ec2 : EC2Client) (bastionId : string).

(** The instance a command is about. *)
Definition instanceOf (cmd : Ec2Command) : string :=
  match cmd with
  | DescribeInstancesCommand i => i
  | StartInstancesCommand i => i
  | StopInstancesCommand i => i
  end.

(** The memory in each phase.  The exit listener is only ever registered
    with the client and the instance the globals hold. *)
Definition agrees (p : Phase) (m : Memory) : Prop :=
  match p with
  | Unresolved =>
      ec2Global m = None /\ bastionIdGlobal m = None
      /\ exitListener m = None
  | ClientSet ec2 =>
      ec2Global m = Some ec2 /\ bastionIdGlobal m = None
      /\ exitListener m = None
  | Armed ec2 id =>
      ec2Global m = Some ec2 /\ bastionIdGlobal m = Some id
      /\ (id =? "")%string = false
      /\ (exitListener m = None \/ exitListener m = Some (ec2, id))
  end.

(** An EC2 request is on target when it goes through the client and to
    the instance of the phase. *)
Definition on_target (p : Phase) (e : Effect) : Prop :=
  match e with
  | Sent (Ec2Send ec2 cmd) => p = Armed ec2 (instanceOf cmd)
  | _ => True
  end.

(** A program that, started in phase [p], sets the globals in order and
    once, to a non-empty instance id, and sends EC2 requests and registers
    the exit listener only for what the globals hold. *)
Fixpoint aims {A} (t : Async A) (p : Phase) : Prop :=
  match t with
  | Sync op k =>
      match op as o return (Result o -> Async A) -> Prop with
      | SetEc2Global ec2 => fun k =>
          p = Unresolved /\ aims (k tt) (ClientSet ec2)
      | SetBastionIdGlobal id => fun k =>
          exists ec2,
            p = ClientSet ec2 /\ (id =? "")%string = false
            /\ aims (k tt) (Armed ec2 id)
      | ChildOnExit _ ec2 id => fun k =>
          p = Armed ec2 id /\ aims (k tt) p
      | _ => fun k => forall r, aims (k r) p
      end k
  | Await rq k => on_target p (Sent rq) /\ forall s, aims (k s) p
  | _ => True
  end.

(** The operations that write what the phases are about. *)
Definition touches (op : SyncOp) : bool :=
  match op with
  | SetEc2Global _ | SetBastionIdGlobal _ | ChildOnExit _ _ _ => true
  | _ => false
  end.

(** A program that writes none of it and sends no EC2 request. *)
Fixpoint inert {A} (t : Async A) : Prop :=
  match t with
  | Sync op k => touches op = false /\ forall r, inert (k r)
  | Await rq k =>
      match rq with
      | Ec2Send _ _ => False
      | _ => True
      end /\ forall s, inert (k s)
  | _ => True
  end.

Definition slot_inert (t : option Suspended) : Prop :=
  match t with
  | Some s => forall r, inert (resume s r)
  | None => True
  end.

Definition slot_aims (p : Phase) (t : option Suspended) : Prop :=
  match t with
  | Some s => forall r, aims (resume s r) p
  | None => True
  end.

(** Among the pending activations at most one is not inert, and it aims
    at the phase. *)
Fixpoint one_main (p : Phase) (ts : list (option Suspended)) : Prop :=
  match ts with
  | [] => True
  | t :: rest =>
      (slot_inert t /\ one_main p rest)
      \/ (slot_aims p t /\ Forall slot_inert rest)
  end.

(** A phase only changes before it is [Armed]. *)
Definition moves (p p' : Phase) : Prop :=
  p' = p \/ forall ec2 id, p <> Armed ec2 id.

Definition targeted (st : Proc) : Prop :=
  exists p,
    agrees p (memory st)
    /\ Forall (on_target p) (output st)
    /\ one_main p (tasks st).

End Targeting.

(** ** The constants of the script *)

Section Conduct.
Context `{JsNumber}.

(** The constants the script is written with: the exit codes it passes to
    [process.exit], the signal it sends to the child, the length of its
    pauses and the command it spawns. *)
Definition expected (e : Effect) : bool :=
  match e with
  | Exited c => (c =? 1) || (c =? 130) || (c =? 143) || (c =? 148)
  | Kill SIGINT _ => true
  | Kill _ _ => false
  | Sent (SetTimeout ms) => (ms =? 5000) || (ms =? 10000)
  | Spawned command _ => (command =? "aws")%string
  | _ => true
  end.

(** A program all of whose exits, signals, timers and spawned commands are
    of these kinds. *)
Fixpoint tame {A} (t : Async A) : Prop :=
  match t with
  | ProcessExit c => expected (Exited c) = true
  | Sync op k =>
      match op with
      | ChildKill _ sig => expected (Kill sig KillSent) = true
      | Spawn command args => expected (Spawned command args) = true
      | _ => True
      end /\ forall r, tame (k r)
  | Await rq k => expected (Sent rq) = true /\ forall s, tame (k s)
  | _ => True
  end.

Definition well_behaved (st : Proc) : Prop :=
  forallb expected (output st) = true
  /\ (forall c, exitCode st = Some c -> In (Exited c) (output st))
  /\ forall t, In (Some t) (tasks st) -> forall r, tame (resume t r).

End Conduct.

(** ** When the tunnel may be opened *)

Section Opening.
Context `{JsNumber}.

Definition is_spawn (e : Effect) : bool :=
  match e with
  | Spawned _ _ => true
  | _ => false
  end.

Definition spawns (op : SyncOp) : bool :=
  match op with
  | Spawn _ _ => true
  | _ => false
  end.

(** A settled DescribeInstances request that shows the instance running. *)
Definition shows_running (s : Settled DescribeInstancesOutput) : bool :=
  match s with
  | Resolved resp => is_state (stateOf resp) running
  | Rejected _ => false
  end.

(** A program that spawns nothing, whatever it is answered. *)
Fixpoint spawnless {A} (t : Async A) : Prop :=
  match t with
  | Sync op k => spawns op = false /\ forall r, spawnless (k r)
  | Await rq k => forall s, spawnless (k s)
  | _ => True
  end.

(** A program that spawns nothing unless one of its DescribeInstances
    requests has been answered with [running] before. *)
Fixpoint held {A} (t : Async A) : Prop :=
  match t with
  | Sync op k => spawns op = false /\ forall r, held (k r)
  | Await rq k =>
      match rq as r return (Settled (Reply r) -> Async A) -> Prop with
      | Ec2Send ec2 cmd =>
          match cmd as c
                return (Settled (Reply (Ec2Send ec2 c)) -> Async A) -> Prop
          with
          | DescribeInstancesCommand _ => fun k =>
              forall s, shows_running s = true \/ held (k s)
          | _ => fun k => forall s, held (k s)
          end
      | _ => fun k => forall s, held (k s)
      end k
  | _ => True
  end.

(** A program that does not return, and spawns nothing, unless one of its
    DescribeInstances requests has been answered with [running]. *)
Fixpoint leads {A} (t : Async A) : Prop :=
  match t with
  | Return _ => False
  | Sync op k => spawns op = false /\ forall r, leads (k r)
  | Await rq k =>
      match rq as r return (Settled (Reply r) -> Async A) -> Prop with
      | Ec2Send ec2 cmd =>
          match cmd as c
                return (Settled (Reply (Ec2Send ec2 c)) -> Async A) -> Prop
          with
          | DescribeInstancesCommand _ => fun k =>
              forall s, shows_running s = true \/ leads (k s)
          | _ => fun k => forall s, leads (k s)
          end
      | _ => fun k => forall s, leads (k s)
      end k
  | _ => True
  end.

(** Among the events, a DescribeInstances request answered with
    [running]. *)
Definition seen_running (evs : list (Env * Event)) : Prop :=
  exists e n s,
    In (e, Settle n (InstancesDescribed s)) evs /\ shows_running s = true.

Definition spawn_held (evs : list (Env * Event)) (st : Proc) : Prop :=
  (count is_spawn (output st) = 0%nat \/ seen_running evs)
  /\ forall t, In (Some t) (tasks st) ->
               held (pending_program t) \/ seen_running evs.

End Opening.

(** ** After the tunnel is opened *)

Section Afterwards.
Context `{JsNumber}.

Definition is_stop_request (rq : Request) : bool :=
  match rq with
  | Ec2Send _ (StopInstancesCommand _) => true
  | _ => false
  end.

(** What belongs to starting up: spawning the child, and every request
    other than a stop request. *)
Definition is_startup (e : Effect) : bool :=
  match e with
  | Spawned _ _ => true
  | Sent rq => negb (is_stop_request rq)
  | _ => false
  end.

(** A program that only winds down: it spawns nothing and awaits nothing
    but stop requests, whatever it is answered. *)
Fixpoint winding {A} (t : Async A) : Prop :=
  match t with
  | Sync op k => spawns op = false /\ forall r, winding (k r)
  | Await rq k => is_stop_request rq = true /\ forall s, winding (k s)
  | _ => True
  end.

(** A program that spawns at most once, and only winds down once it has
    spawned. *)
Fixpoint opens {A} (t : Async A) : Prop :=
  match t with
  | Sync op k =>
      forall r, if spawns op then winding (k r) else opens (k r)
  | Await rq k => forall s, opens (k s)
  | _ => True
  end.

Definition slot_winding (t : option Suspended) : Prop :=
  match t with
  | Some s => forall r, winding (resume s r)
  | None => True
  end.

Definition slot_opens (t : option Suspended) : Prop :=
  match t with
  | Some s => forall r, opens (resume s r)
  | None => True
  end.

(** Among the pending activations at most one may still spawn. *)
Fixpoint one_opener (ts : list (option Suspended)) : Prop :=
  match ts with
  | [] => True
  | t :: rest =>
      (slot_winding t /\ one_opener rest)
      \/ (slot_opens t /\ Forall slot_winding rest)
  end.

(** Either nothing has been spawned and at most one activation may still
    do it, or one child has been spawned, nothing of a start-up has
    followed and every activation only winds down. *)
Definition opened_once (st : Proc) : Prop :=
  (count is_spawn (output st) = 0%nat /\ one_opener (tasks st))
  \/ (exists pre command args post,
         output st = (pre ++ Spawned command args :: post)%list
         /\ count is_spawn pre = 0%nat
         /\ count is_startup post = 0%nat
         /\ Forall slot_winding (tasks st)).

End Afterwards.

(** ** Signalling the child *)

Section Signalling.
Context `{JsNumber}.

(** A signal that [kill] has delivered. *)
Definition is_delivered (e : Effect) : bool :=
  match e with
  | Kill _ KillSent => true
  | _ => false
  end.

Definition sends_signal (op : SyncOp) : bool :=
  match op with
  | ChildKill _ _ => true
  | _ => false
  end.

(** A program that calls no [kill], whatever it is answered. *)
Fixpoint killfree {A} (t : Async A) : Prop :=
  match t with
  | Sync op k => sends_signal op = false /\ forall r, killfree (k r)
  | Await rq k => forall s, killfree (k s)
  | _ => True
  end.

(** A program that does not assign [childGlobal] unless it has spawned
    before. *)
Fixpoint cautious {A} (t : Async A) : Prop :=
  match t with
  | Sync op k =>
      match op with
      | SetChildGlobal _ => False
      | Spawn _ _ => True
      | _ => forall r, cautious (k r)
      end
  | Await rq k => forall s, cautious (k s)
  | _ => True
  end.

(** Every [kill] in the trace comes after a spawn. *)
Definition kills_late (out : list Effect) : Prop :=
  forall pre sig r post,
    out = (pre ++ Kill sig r :: post)%list -> count is_spawn pre <> 0%nat.

(** No pending activation calls [kill]; as long as nothing has been
    spawned [childGlobal] is unset and stays so until a spawn; at most one
    signal has been delivered, and then the child's [killed] flag is set;
    no [kill] has come before the spawn. *)
Definition kill_guarded (st : Proc) : Prop :=
  (forall t, In (Some t) (tasks st) -> forall r, killfree (resume t r))
  /\ (count is_spawn (output st) = 0%nat ->
      childGlobal (memory st) = None
      /\ forall t, In (Some t) (tasks st) -> forall r, cautious (resume t r))
  /\ (count is_delivered (output st) = 0%nat
      \/ (count is_delivered (output st) = 1%nat
          /\ exists c, child (memory st) = Some c /\ killed c = true))
  /\ kills_late (output st).

End Signalling.

(** ** What makes the script stop the instance *)

Section Triggers.
Context `{JsNumber}.

(** The events a listener of the script answers: a signal, and the exit
    of the child. *)
Definition is_trigger (ev : Event) : bool :=
  match ev with
  | SignalReceived _ => true
  | ChildExited _ => true
  | Settle _ _ => false
  end.

Definition triggers (evs : list (Env * Event)) : nat :=
  List.length (filter (fun p => is_trigger (snd p)) evs).

(** A program that sends no stop request, whatever it is answered. *)
Fixpoint stopless {A} (t : Async A) : Prop :=
  match t with
  | Sync op k => forall r, stopless (k r)
  | Await rq k => is_stop_request rq = false /\ forall s, stopless (k s)
  | _ => True
  end.

(** There are no more stop requests than triggers, and no pending
    activation will send one. *)
Definition stops_triggered (evs : list (Env * Event)) (st : Proc) : Prop :=
  (count is_stop (output st) <= triggers evs)%nat
  /\ forall t, In (Some t) (tasks st) -> forall r, stopless (resume t r).

End Triggers.

(** ** States reached by events that can happen *)

Section Replay.
Context `{JsNumber}.

(** The state a loading or a sequence of events leads to, when it can
    happen. *)
Definition forced (o : option Proc) : Proc :=
  match o with
  | Some st => st
  | None => loaded
  end.

Definition happens (o : option Proc) : bool :=
  match o with
  | Some _ => true
  | None => false
  end.

End Replay.

(** ** Concrete values for examples *)

(** A DescribeInstances reply that shows one instance in the given state. *)
Definition showing (s : option InstanceStateName) : DescribeInstancesOutput :=
  {| Reservations :=
       Some [ {| Instances := Some [ {| State := Some {| Name := s |} |} ] |} ]
  |}.

Definition observing (s : option InstanceStateName)
  : Settled DescribeInstancesOutput :=
  Resolved (showing s).

(** A DescribeStacks reply with one stack publishing one output. *)
Definition publishing (key value : string) : Settled DescribeStacksOutput :=
  Resolved {| Stacks :=
    Some [ {| Outputs := Some [ {| OutputKey := Some key;
                                   OutputValue := Some value |} ] |} ]
  |}.


(** Decimal words as numbers: [Number] on a word made of digits only; any
    other word is read as NaN, which is all the examples below need. *)
Fixpoint digits (s : string) (acc : Z) : option Z :=
  match s with
  | EmptyString => Some acc
  | String c rest =>
      let n := Z.of_nat (Ascii.nat_of_ascii c) - 48 in
      if (0 <=? n) && (n <=? 9) then digits rest (10 * acc + n) else None
  end.

Definition decimal_numbers : JsNumber := {|
  number := option Z;
  Number_of_string := fun s => digits s 0;
  number_5439 := Some 5439;
  isZero := fun n => match n with
                     | Some 0 => true
                     | _ => false
                     end;
  isNaN := fun n => match n with
                    | None => true
                    | Some _ => false
                    end
|}.

Definition example_invocation : Invocation :=
  {| argv := ["node"; "db-tunnel.ts"; "--local-port"; "6000"];
     AWS_REGION := None |}.

Definition example_ec2 : EC2Client := {| ec2_region := "us-east-1" |}.

(** Surroundings in which the clock reads 0 and [kill] delivers. *)
Definition calm : Env := {| env_now := 0; env_kill := KillSent |}.

(** The events of an uneventful start: both lookups succeed, the bastion is
    already running, the ten second pause elapses. *)
Definition example_startup : list (Env * Event) :=
  [(calm, Settle 0 (StacksDescribed
                      (publishing "VersoStatBastionInstanceId" "i-0abc")));
   (calm, Settle 1 (StacksDescribed
                      (publishing "VersoStatDbHost" "db.internal")));
   (calm, Settle 2 (InstancesDescribed (observing (Some running))));
   (calm, Settle 3 TimerFired)].

(** The process once the tunnel child has been spawned. *)
Definition example_session : @Proc decimal_numbers :=
  match boot (H := decimal_numbers) calm 1 example_invocation with
  | Some st =>
      match run st example_startup with
      | Some st' => st'
      | None => loaded
      end
  | None => loaded
  end.

(** What [parseArgs] makes of [example_invocation]. *)
Definition example_args : @Args decimal_numbers :=
  @Build_Args decimal_numbers "us-east-1" "VersoStat-AccessStack-prod"
              "VersoStat-DatabaseStack-prod" (Some 6000).

(** A world in which the first lookup succeeds and the second is refused. *)
Definition second_lookup_refused : World :=
  {| stacks := [publishing "VersoStatBastionInstanceId" "i-0abc";
                Rejected (ServiceError "AccessDenied")];
     observations := [observing (Some stopped)];
     commands := [Resolved tt]; clock := [0; 200]; kills := [] |}.

(** Two signals in a row, nothing settling in between. *)
Definition example_burst : list (Env * Signal) :=
  [(calm, SIGINT); (calm, SIGTERM)].

(** A world in which the state [s] is observed once, [late] milliseconds
    after the clock was first read at 0. *)
Definition seen_once (s : option InstanceStateName) (late : Z) : World :=
  {| stacks := []; observations := [observing s];
     commands := [Resolved tt]; clock := [0; late]; kills := [] |}.

(** A world for a cold start: the bastion is found stopped, is pending for
    two polls and then runs; the clock advances by the five second pauses. *)
Definition cold_start : World :=
  {| stacks := [publishing "VersoStatBastionInstanceId" "i-0abc";
                publishing "VersoStatDbHost" "db.internal"];
     observations := map observing [Some stopped; Some pending;
                                    Some pending; Some running];
     commands := [Resolved tt];
     clock := [0; 200; 5400; 10600];
     kills := [] |}.

(** An invocation that gives every option, in an environment that names
    another region. *)
Definition example_full_invocation : Invocation :=
  {| argv := ["node"; "db-tunnel.ts"; "--region"; "eu-west-1";
              "--access-stack"; "Access"; "--db-stack"; "Database";
              "--local-port"; "6000"];
     AWS_REGION := Some "us-west-2" |}.

Definition example_full_args : @Args decimal_numbers :=
  @Build_Args decimal_numbers "eu-west-1" "Access" "Database" (Some 6000).

(** A DescribeStacks reply in which the wanted output comes twice, first
    without a value. *)
Definition shadowed_output : DescribeStacksOutput :=
  {| Stacks :=
       Some [ {| Outputs :=
                   Some [ {| OutputKey := Some "VersoStatDbPort";
                             OutputValue := Some "5432" |};
                          {| OutputKey := Some "VersoStatDbHost";
                             OutputValue := None |};
                          {| OutputKey := Some "VersoStatDbHost";
                             OutputValue := Some "db.internal" |} ] |} ]
  |}.

(** A DescribeInstances reply without reservations. *)
Definition nothing_described : DescribeInstancesOutput :=
  {| Reservations := Some [] |}.

(** Surroundings in which [kill] throws. *)
Definition unkillable : Env :=
  {| env_now := 0; env_kill := KillThrew (ServiceError "EPERM") |}.

(** The process once the script has been loaded, and once the tunnel
    child has been spawned. *)
Definition example_booted : @Proc decimal_numbers :=
  forced (boot (H := decimal_numbers) calm 1 example_invocation).

Definition example_tunnel : @Proc decimal_numbers :=
  forced (run example_booted example_startup).

(** The start-up followed by an interrupt. *)
Definition example_interrupt : list (Env * Event) :=
  (example_startup ++ [(calm, SignalReceived SIGINT)])%list.

Definition example_interrupted : @Proc decimal_numbers :=
  forced (run example_booted example_interrupt).

(** A start-up that fails after the instance has been started: the
    bastion is found stopped, the start request succeeds, and the next
    DescribeInstances request is refused. *)
Definition example_failed_start : list (Env * Event) :=
  [(calm, Settle 0 (StacksDescribed
                      (publishing "VersoStatBastionInstanceId" "i-0abc")));
   (calm, Settle 1 (StacksDescribed
                      (publishing "VersoStatDbHost" "db.internal")));
   (calm, Settle 2 (InstancesDescribed (observing (Some stopped))));
   (calm, Settle 3 (CommandDone (Resolved tt)));
   (calm, Settle 4 TimerFired);
   (calm, Settle 5 (InstancesDescribed
                      (Rejected (ServiceError "RequestLimitExceeded"))))].

Definition example_patient : @Proc decimal_numbers :=
  forced (boot (H := decimal_numbers) calm 2 example_invocation).

Definition example_abandoned : @Proc decimal_numbers :=
  forced (run example_patient example_failed_start).

(** * Properties *)

Unset Implicit Arguments.
Local Open Scope list_scope.

(** ** parseArgs *)

Section ParseArgsFacts.
Context `{JsNumber}.

Lemma or_literal_nonempty (a : option string) (lit : string) :
  (lit =? "")%string = false -> (or_literal a lit =? "")%string = false.
Proof.
  intros Hlit. unfold or_literal.
  destruct a as [s|]; [|exact Hlit].
  destruct (s =? "")%string eqn:Hs; [exact Hlit | exact Hs].
Qed.

(** C10: for every argument vector and environment, [parseArgs] never
    throws "Missing --region", "Missing --access-stack" or
    "Missing --db-stack": the three options are non-empty once their
    defaults are applied, so the only error it can produce is
    "Invalid --local-port".  This holds for both revisions of the
    script. *)
Theorem parseArgs_only_rejects_local_port (inv : Invocation) :
  match parseArgs inv with
  | inl e => e = InvalidLocalPort /\ message e = "Invalid --local-port"
  | inr a => (region a =? "")%string = false
             /\ (accessStack a =? "")%string = false
             /\ (dbStack a =? "")%string = false
  end
  /\
  match parseArgs_v1 inv with
  | inl e => e = InvalidLocalPort /\ message e = "Invalid --local-port"
  | inr a => (region a =? "")%string = false
             /\ (accessStack a =? "")%string = false
             /\ (dbStack a =? "")%string = false
  end.
Proof.
  split.
  - unfold parseArgs.
    rewrite (or_literal_nonempty _ "us-east-1" eq_refl).
    rewrite (or_literal_nonempty _ "VersoStat-AccessStack-prod" eq_refl).
    rewrite (or_literal_nonempty _ "VersoStat-DatabaseStack-prod" eq_refl).
    destruct (not_number _ || isNaN _); cbn [region accessStack dbStack].
    + split; reflexivity.
    + repeat split; apply or_literal_nonempty; reflexivity.
  - unfold parseArgs_v1.
    rewrite (or_literal_nonempty _ "us-east-1" eq_refl).
    rewrite (or_literal_nonempty _ "VersoStat-AccessStack" eq_refl).
    rewrite (or_literal_nonempty _ "VersoStat-DatabaseStack" eq_refl).
    destruct (not_number _ || isNaN _); cbn [region accessStack dbStack].
    + split; reflexivity.
    + repeat split; apply or_literal_nonempty; reflexivity.
Qed.

End ParseArgsFacts.

(** ** ensureInstanceRunning against an injected state sequence *)

Section PollFacts.
Context `{JsNumber}.

Lemma gtb_false_of_le (a b : Z) : a <= b -> (a >? b) = false.
Proof. intros Hle. rewrite Z.gtb_ltb. apply Z.ltb_ge. exact Hle. Qed.

Lemma poll_starts_justified fuel ec2 id timeoutMs start :
  forall seen w m,
    starts_justified seen
      (effects (play (poll fuel ec2 id timeoutMs start) w m)) = true.
Proof.
  induction fuel as [|fuel IH]; intros seen w m; [reflexivity|].
  destruct w as [ss obs cs ck ks].
  destruct obs as [|[resp|e] obs]; cbn; try reflexivity.
  destruct (stateOf resp) as [[]|] eqn:Hst; cbn; try reflexivity.
  - destruct ck as [|t ck]; cbn; [reflexivity|].
    destruct (t - start >? timeoutMs); cbn; [reflexivity|apply IH].
  - destruct cs as [|[[]|e] cs]; cbn; try reflexivity.
    destruct ck as [|t ck]; cbn; [reflexivity|].
    destruct (t - start >? timeoutMs); cbn; [reflexivity|apply IH].
  - destruct ck as [|t ck]; cbn; [reflexivity|].
    destruct (t - start >? timeoutMs); cbn; [reflexivity|apply IH].
  - destruct cs as [|[[]|e] cs]; cbn; try reflexivity.
    destruct ck as [|t ck]; cbn; [reflexivity|].
    destruct (t - start >? timeoutMs); cbn; [reflexivity|apply IH].
Qed.

(** The states the loop prints are the injected ones, in order. *)
Lemma poll_prints_observations fuel ec2 id timeoutMs start :
  forall w m,
    let es := effects (play (poll fuel ec2 id timeoutMs start) w m) in
    map Some (printed_states es)
    = firstn (List.length (printed_states es))
             (map observed (observations w)).
Proof.
  induction fuel as [|fuel IH]; intros w m; [reflexivity|].
  destruct w as [ss obs cs ck ks].
  destruct obs as [|[resp|e] obs]; cbn; try reflexivity.
  destruct (stateOf resp) as [[]|] eqn:Hst; cbn; try reflexivity.
  - destruct ck as [|t ck]; cbn; [reflexivity|].
    destruct (t - start >? timeoutMs); cbn; [reflexivity|].
    f_equal. apply (IH {| stacks := ss; observations := obs;
                          commands := cs; clock := ck; kills := ks |}).
  - destruct cs as [|[[]|e] cs]; cbn; try reflexivity.
    destruct ck as [|t ck]; cbn; [reflexivity|].
    destruct (t - start >? timeoutMs); cbn; [reflexivity|].
    f_equal. apply (IH {| stacks := ss; observations := obs;
                          commands := cs; clock := ck; kills := ks |}).
  - destruct ck as [|t ck]; cbn; [reflexivity|].
    destruct (t - start >? timeoutMs); cbn; [reflexivity|].
    f_equal. apply (IH {| stacks := ss; observations := obs;
                          commands := cs; clock := ck; kills := ks |}).
  - destruct cs as [|[[]|e] cs]; cbn; try reflexivity.
    destruct ck as [|t ck]; cbn; [reflexivity|].
    destruct (t - start >? timeoutMs); cbn; [reflexivity|].
    f_equal. apply (IH {| stacks := ss; observations := obs;
                          commands := cs; clock := ck; kills := ks |}).
Qed.

(** C3: whatever sequence of states is injected, a start request is only
    ever sent from an iteration whose observed state is [stopped] or
    undefined, never from one that observed [pending], [stopping] or
    [running].  The states the iterations print are the injected
    observations, in order. *)
Theorem start_only_from_stopped_or_undefined fuel ec2 id timeoutMs w m :
  let es :=
    effects (play (ensureInstanceRunning fuel ec2 id timeoutMs) w m) in
  starts_justified None es = true
  /\ map Some (printed_states es)
     = firstn (List.length (printed_states es))
              (map observed (observations w)).
Proof.
  destruct w as [ss obs cs ck ks].
  destruct ck as [|t ck]; cbn; [split; reflexivity|].
  split.
  - apply poll_starts_justified.
  - apply (poll_prints_observations fuel ec2 id timeoutMs t
             {| stacks := ss; observations := obs; commands := cs;
                clock := ck; kills := ks |}).
Qed.

(** C4: when the first observed state is [terminated] or [shutting-down],
    the call fails with the terminal-state error on that first poll: the
    trace holds the one DescribeInstances request and the state line, no
    start request, no pause, and no further observation is consumed. *)
Theorem terminal_state_fails_on_first_poll
        fuel ec2 id timeoutMs resp ss obs cs now ck ks m :
  is_state (stateOf resp) terminated
  || is_state (stateOf resp) shutting_down = true ->
  let w := {| stacks := ss; observations := Resolved resp :: obs;
              commands := cs; clock := now :: ck; kills := ks |} in
  let r := play (ensureInstanceRunning (S fuel) ec2 id timeoutMs) w m in
  outcome r = Threw (TerminalState id (stateOf resp))
  /\ effects r = [Sent (Ec2Send ec2 (DescribeInstancesCommand id));
                  Stdout (CurrentBastionState (stateOf resp))]
  /\ observations (remaining r) = obs
  /\ commands (remaining r) = cs.
Proof.
  intros Hterm. cbn.
  destruct (stateOf resp) as [[]|]; try discriminate Hterm; cbn;
    repeat split; reflexivity.
Qed.

(** C5, as the code has it: the deadline is consulted only by an
    iteration that is about to wait.  When the elapsed time exceeds the
    deadline, an iteration whose observed state is neither [running] nor
    terminal fails with a timeout error (after its start request, which
    is still sent from [stopped] or undefined, has succeeded); an
    iteration that observes [running] returns and one that observes a
    terminal state fails with the terminal-state error. *)
Theorem deadline_checked_only_while_waiting
        fuel ec2 id timeoutMs start resp ss obs cs now ck ks m :
  now - start > timeoutMs ->
  let state := stateOf resp in
  let w := {| stacks := ss; observations := Resolved resp :: obs;
              commands := Resolved tt :: cs; clock := now :: ck;
              kills := ks |} in
  let r := play (poll (S fuel) ec2 id timeoutMs start) w m in
  (if is_state state running then outcome r = Returned tt
   else if is_state state terminated || is_state state shutting_down
        then outcome r = Threw (TerminalState id state)
        else outcome r = Threw (if is_state state stopping
                                then TimedOutStopping id
                                else TimedOutRunning id))
  /\ count is_start (effects r)
     = (if is_state state stopped || is_undefined state then 1 else 0)%nat.
Proof.
  intros Hlate. apply Z.gtb_gt in Hlate. cbn.
  destruct (stateOf resp) as [[]|]; cbn; try rewrite Hlate;
    split; reflexivity.
Qed.

(** C8: with the injected sequence stopped, pending, pending, running
    (and a clock that stays within the deadline), the call sends exactly
    one start request and returns successfully after three polls, each of
    which ends in a five second pause; what ends the call is the
    observation of [running] that follows them.  The whole trace is
    given. *)
Theorem stopped_pending_pending_running
        fuel ec2 id timeoutMs t0 t1 t2 t3 ss obs cs ck ks m :
  t1 - t0 <= timeoutMs -> t2 - t0 <= timeoutMs -> t3 - t0 <= timeoutMs ->
  let w := {| stacks := ss;
              observations :=
                map observing [Some stopped; Some pending; Some pending;
                               Some running] ++ obs;
              commands := Resolved tt :: cs;
              clock := t0 :: t1 :: t2 :: t3 :: ck;
              kills := ks |} in
  let r := play (ensureInstanceRunning (4 + fuel) ec2 id timeoutMs) w m in
  outcome r = Returned tt
  /\ count is_start (effects r) = 1%nat
  /\ count is_sleep (effects r) = 3%nat
  /\ effects r
     = [Sent (Ec2Send ec2 (DescribeInstancesCommand id));
        Stdout (CurrentBastionState (Some stopped));
        Stdout (BastionStarting id (Some stopped));
        Sent (Ec2Send ec2 (StartInstancesCommand id));
        Sent (SetTimeout 5000);
        Sent (Ec2Send ec2 (DescribeInstancesCommand id));
        Stdout (CurrentBastionState (Some pending));
        Sent (SetTimeout 5000);
        Sent (Ec2Send ec2 (DescribeInstancesCommand id));
        Stdout (CurrentBastionState (Some pending));
        Sent (SetTimeout 5000);
        Sent (Ec2Send ec2 (DescribeInstancesCommand id));
        Stdout (CurrentBastionState (Some running));
        Stdout (BastionIsRunning id)]
  /\ observations (remaining r) = obs.
Proof.
  intros H1 H2 H3.
  apply gtb_false_of_le in H1, H2, H3.
  cbn. rewrite H1. cbn. rewrite H2. cbn. rewrite H3. cbn.
  repeat split; reflexivity.
Qed.

End PollFacts.

(** ** The start-up sequence against an injected world *)

Section PlayFacts.
Context `{JsNumber}.

Lemma emit_nil A (r : Run A) : emit [] r = r.
Proof. destruct r; reflexivity. Qed.

Lemma emit_emit A es es' (r : Run A) :
  emit es (emit es' r) = emit (es ++ es') r.
Proof. unfold emit; cbn. rewrite app_assoc. reflexivity. Qed.

(** [try ... catch] seen from outside: the handler takes over exactly
    when the body throws. *)
Lemma play_try_catch A (t : Async A) (h : Error -> Async A) :
  forall w m,
    play (try_catch t h) w m =
    match outcome (play t w m) with
    | Threw e =>
        emit (effects (play t w m))
             (play (h e) (remaining (play t w m)) (final (play t w m)))
    | _ => play t w m
    end.
Proof.
  induction t as [a|e|c|op k IH|rq k IH|]; intros w m; cbn;
    try reflexivity.
  - symmetry. apply emit_nil.
  - destruct (draw op w) as [[x w']|]; [|reflexivity].
    destruct (perform op x m) as [[r m'] es].
    rewrite IH.
    destruct (play (k r) w' m') as [[] efs fm rw]; cbn; try reflexivity;
      apply emit_emit.
  - destruct (answer rq w) as [[s w']|]; [|reflexivity].
    rewrite IH.
    destruct (play (k s) w' m) as [[] efs fm rw]; cbn; reflexivity.
Qed.

(** Sequencing: what follows runs only if what precedes returns. *)
Lemma play_bind_threw A B (t : Async A) (f : A -> Async B) e :
  forall w m,
    outcome (play t w m) = Threw e ->
    outcome (play (bind t f) w m) = Threw e.
Proof.
  induction t as [a|e0|c|op k IH|rq k IH|]; intros w m; cbn;
    try discriminate.
  - intros [= ->]. reflexivity.
  - destruct (draw op w) as [[x w']|]; [|discriminate].
    destruct (perform op x m) as [[r m'] es]. cbn. apply IH.
  - destruct (answer rq w) as [[s w']|]; [|discriminate].
    cbn. apply IH.
Qed.

(** Every error that leaves [main] ends the process with exit code 1. *)
Lemma script_exits_1_when_main_throws fuel inv w m e :
  outcome (play (main fuel inv) w m) = Threw e ->
  outcome (play (script fuel inv) w m) = ExitedWith 1
  /\ effects (play (script fuel inv) w m)
     = effects (play (main fuel inv) w m)
       ++ [Stderr (Uncaught e); Exited 1].
Proof.
  intros Hthrow. unfold script. rewrite play_try_catch, Hthrow. cbn.
  split; reflexivity.
Qed.

(** An error of the polling loop leaves [main]. *)
Lemma main_throws_what_polling_throws
      fuel inv args r1 r2 bastionId dbEndpoint ss obs cs ck ks m e :
  parseArgs inv = inr args ->
  lookup (Resolved r1) (accessStack args) "VersoStatBastionInstanceId"
  = inr bastionId ->
  lookup (Resolved r2) (dbStack args) "VersoStatDbHost" = inr dbEndpoint ->
  let ec2 := {| ec2_region := region args |} in
  let w' := {| stacks := ss; observations := obs; commands := cs;
               clock := ck; kills := ks |} in
  let m' := {| ec2Global := Some ec2; bastionIdGlobal := Some bastionId;
               childGlobal := childGlobal m; child := child m;
               exitListener := exitListener m |} in
  outcome (play (ensureInstanceRunning fuel ec2 bastionId default_timeoutMs)
                w' m') = Threw e ->
  outcome (play (main fuel inv)
                {| stacks := Resolved r1 :: Resolved r2 :: ss;
                   observations := obs; commands := cs; clock := ck;
                   kills := ks |} m) = Threw e.
Proof.
  intros Hargs H1 H2 ec2 w' m' Hthrow.
  unfold main. rewrite Hargs. cbn -[ensureInstanceRunning].
  unfold lookup in H1, H2.
  destruct (outputValue r1 _) as [[v1|]|]; try discriminate H1.
  destruct (v1 =? "")%string; [discriminate H1|].
  injection H1 as ->. cbn -[ensureInstanceRunning].
  destruct (outputValue r2 _) as [[v2|]|]; try discriminate H2.
  destruct (v2 =? "")%string; [discriminate H2|].
  injection H2 as ->. cbn -[ensureInstanceRunning].
  apply (play_bind_threw _ _ (ensureInstanceRunning fuel ec2 bastionId
                                default_timeoutMs)).
  exact Hthrow.
Qed.

End PlayFacts.

(** ** Triggers and teardown in the event loop *)

Section LoopFacts.
Context `{JsNumber}.

Lemma count_app p (a b : list Effect) :
  count p (a ++ b) = (count p a + count p b)%nat.
Proof. unfold count. rewrite filter_app, length_app. reflexivity. Qed.

Lemma settled_all_pending ts t : settled_all (ts ++ [Some t]) = false.
Proof.
  unfold settled_all. rewrite forallb_app. cbn. apply andb_false_r.
Qed.

Lemma settled_all_done ts :
  settled_all ts = true -> settled_all (ts ++ [None]) = true.
Proof.
  unfold settled_all. intros Hts. rewrite forallb_app, Hts. reflexivity.
Qed.

Lemma running_no_exit st : status st = Running -> exitCode st = None.
Proof.
  unfold status. destruct (exitCode st); [discriminate|reflexivity].
Qed.

Lemma clear_last ts (t : option Suspended) :
  clear (List.length ts) (ts ++ [t]) = ts ++ [None].
Proof. induction ts as [|x ts IH]; cbn; [|rewrite IH]; reflexivity. Qed.

Lemma nth_error_last ts (t : option Suspended) :
  nth_error (ts ++ [t]) (List.length ts) = Some t.
Proof. induction ts as [|x ts IH]; cbn; [reflexivity|exact IH]. Qed.

Lemma on_signal_code sig : on_signal sig = cleanupAndExit (signal_code sig).
Proof. destruct sig; reflexivity. Qed.

(** One activation of [cleanupAndExit] when both globals are set: it
    signals the child if it has to, asks for the stop and waits. *)
Lemma turn_cleanup_armed env code m ec2 id :
  ec2Global m = Some ec2 -> bastionIdGlobal m = Some id ->
  (id =? "")%string = false ->
  turn env (cleanupAndExit code) m =
  {| pause := Waiting (stop_in_cleanup ec2 id code);
     said := Called (call_cleanupAndExit code)
             :: fst (teardown_kill env m)
             ++ [Stdout StoppingBastionBeforeExit;
                 Called (call_stopInstance id);
                 Stdout (StoppingBastion id);
                 Sent (Ec2Send ec2 (StopInstancesCommand id))];
     mem := snd (teardown_kill env m) |}.
Proof.
  destruct m as [e b cg ch l]. cbn. intros -> -> Hid.
  unfold teardown_kill. cbn.
  destruct cg as [c|]; cbn; [|rewrite Hid; reflexivity].
  destruct ch as [[[] []]|]; cbn; try destruct (env_kill env); cbn;
    rewrite Hid; reflexivity.
Qed.

(** The guarded [kill] leaves the two globals alone, sends at most one
    signal and nothing else, and does nothing at all once the child's
    [killed] flag is set. *)
Lemma teardown_kill_globals env m :
  ec2Global (snd (teardown_kill env m)) = ec2Global m
  /\ bastionIdGlobal (snd (teardown_kill env m)) = bastionIdGlobal m.
Proof.
  destruct m as [e b cg ch l]. unfold teardown_kill. cbn.
  destruct cg as [c|]; cbn; [|split; reflexivity].
  destruct ch as [[[] []]|]; cbn; try destruct (env_kill env); cbn;
    split; reflexivity.
Qed.

Lemma teardown_kill_effects env m :
  count is_stop (fst (teardown_kill env m)) = 0%nat
  /\ count is_teardown (fst (teardown_kill env m)) = 0%nat
  /\ (count is_kill (fst (teardown_kill env m)) <= 1)%nat.
Proof.
  destruct m as [e b cg ch l]. unfold teardown_kill. cbn.
  destruct cg as [c|]; cbn; [|repeat split; lia].
  destruct ch as [[[] []]|]; cbn; try destruct (env_kill env); cbn;
    repeat split; lia.
Qed.

Lemma teardown_kill_once env m c :
  child m = Some c -> killed c = true -> teardown_kill env m = ([], m).
Proof.
  intros Hc Hk. unfold teardown_kill. rewrite Hc, Hk.
  destruct (childGlobal m); reflexivity.
Qed.

(** ... and when one of them is not: it leaves at once. *)
Lemma turn_cleanup_unarmed env code m :
  match ec2Global m with
  | Some _ => truthy (bastionIdGlobal m)
  | None => false
  end = false ->
  pause (turn env (cleanupAndExit code) m) = Quit code.
Proof.
  destruct m as [[ec2|] [id|] cg ch l]; cbn; intros Hoff;
    destruct cg as [c|]; cbn;
    try destruct ch as [[[] []]|]; cbn;
    try destruct (env_kill env); cbn;
    rewrite ?Hoff; try discriminate Hoff; reflexivity.
Qed.

Lemma signal_arms_teardown env st sig ec2 id :
  status st = Running ->
  ec2Global (memory st) = Some ec2 ->
  bastionIdGlobal (memory st) = Some id ->
  (id =? "")%string = false ->
  step env st (SignalReceived sig) =
  Some {| memory := snd (teardown_kill env (memory st));
          tasks := tasks st
                   ++ [Some (stop_in_cleanup ec2 id (signal_code sig))];
          exitCode := exitCode st;
          output := output st
                    ++ Called (call_cleanupAndExit (signal_code sig))
                       :: fst (teardown_kill env (memory st))
                       ++ [Stdout StoppingBastionBeforeExit;
                           Called (call_stopInstance id);
                           Stdout (StoppingBastion id);
                           Sent (Ec2Send ec2 (StopInstancesCommand id))];
          unhandled := unhandled st |}.
Proof.
  intros Hrun He Hb Hid.
  unfold step. rewrite Hrun, on_signal_code.
  unfold activate.
  rewrite (turn_cleanup_armed env (signal_code sig) (memory st) ec2 id
             He Hb Hid).
  reflexivity.
Qed.

(** A process with a pending request and no exit code is running. *)
Lemma waiting_is_running m ts t out unh :
  status {| memory := m; tasks := ts ++ [Some t]; exitCode := None;
            output := out; unhandled := unh |} = Running.
Proof.
  unfold status. cbn [exitCode tasks memory].
  rewrite settled_all_pending. reflexivity.
Qed.

Lemma signal_unarmed env st sig :
  status st = Running ->
  match ec2Global (memory st) with
  | Some _ => truthy (bastionIdGlobal (memory st))
  | None => false
  end = false ->
  exists st1,
    step env st (SignalReceived sig) = Some st1
    /\ status st1 = Terminated (signal_code sig).
Proof.
  intros Hrun Hoff. unfold step. rewrite Hrun, on_signal_code.
  unfold activate.
  rewrite (turn_cleanup_unarmed env (signal_code sig) (memory st) Hoff).
  eexists. split; reflexivity.
Qed.

(** The settlement of the stop request a teardown waits for. *)
Lemma settle_cleanup env st n ec2 id code r :
  status st = Running ->
  nth_error (tasks st) n = Some (Some (stop_in_cleanup ec2 id code)) ->
  step env st (Settle n (CommandDone r)) =
  Some {| memory := memory st; tasks := clear n (tasks st);
          exitCode := Some code;
          output := output st ++
                    [match r with
                     | Resolved _ => Stdout BastionStopped
                     | Rejected e => Stderr (FailedToStopBastion e)
                     end; Exited code];
          unhandled := unhandled st |}.
Proof.
  intros Hrun Hnth. unfold step. rewrite Hrun, Hnth. cbn.
  destruct r as [[]|e]; reflexivity.
Qed.

(** The settlement of the stop request the exit listener waits for. *)
Lemma settle_listener env st n ec2 id r :
  status st = Running ->
  nth_error (tasks st) n = Some (Some (stop_in_listener ec2 id)) ->
  step env st (Settle n (CommandDone r)) =
  Some {| memory := memory st; tasks := clear n (tasks st);
          exitCode := exitCode st;
          output := output st ++
                    [match r with
                     | Resolved _ => Stdout BastionStopped
                     | Rejected e => Stderr (FailedToStopBastion e)
                     end];
          unhandled := unhandled st |}.
Proof.
  intros Hrun Hnth. unfold step. rewrite Hrun, Hnth. cbn.
  destruct r as [[]|e]; reflexivity.
Qed.

Lemma child_exit_runs_listener env st code c ec2 id :
  status st = Running ->
  child (memory st) = Some c -> exited c = false ->
  exitListener (memory st) = Some (ec2, id) ->
  step env st (ChildExited code) =
  Some {| memory := with_child (memory st)
                      (Some {| killed := killed c; exited := true |});
          tasks := tasks st ++ [Some (stop_in_listener ec2 id)];
          exitCode := exitCode st;
          output := output st ++
                    [Stdout (SsmSessionExited code);
                     Called (call_stopInstance id);
                     Stdout (StoppingBastion id);
                     Sent (Ec2Send ec2 (StopInstancesCommand id))];
          unhandled := unhandled st |}.
Proof.
  intros Hrun Hc Hx Hl. unfold step. rewrite Hrun, Hc, Hx, Hl. reflexivity.
Qed.

(** What one teardown adds to the counts read off the trace. *)
Lemma teardown_counts env m code ec2 id out :
  let es := Called (call_cleanupAndExit code)
            :: fst (teardown_kill env m)
            ++ [Stdout StoppingBastionBeforeExit;
                Called (call_stopInstance id);
                Stdout (StoppingBastion id);
                Sent (Ec2Send ec2 (StopInstancesCommand id))] in
  count is_teardown (out ++ es) = S (count is_teardown out)
  /\ count is_stop (out ++ es) = S (count is_stop out)
  /\ count is_kill (out ++ es)
     = (count is_kill out + count is_kill (fst (teardown_kill env m)))%nat.
Proof.
  destruct (teardown_kill_effects env m) as (Hks & Hkt & _).
  cbv zeta.
  change (Called (call_cleanupAndExit code) :: fst (teardown_kill env m) ++ ?l)
    with ([Called (call_cleanupAndExit code)]
          ++ fst (teardown_kill env m) ++ l).
  rewrite !count_app, Hks, Hkt. cbn. repeat split; lia.
Qed.

(** C1, as the code has it: there is no single-shot guard.  Every signal
    handled while the process is still running executes the teardown body
    again: a burst of N signals arriving before any stop request has
    completed enters [cleanupAndExit] N times and sends N stop requests.
    Only the [kill] of the child is guarded, by the child's own [killed]
    flag: once it is set, no further signal is sent to the child. *)
Theorem every_signal_runs_teardown (sigs : list (Env * Signal)) :
  forall st ec2 id,
    status st = Running ->
    ec2Global (memory st) = Some ec2 ->
    bastionIdGlobal (memory st) = Some id ->
    (id =? "")%string = false ->
    exists st',
      run st (signals sigs) = Some st'
      /\ count is_teardown (output st')
         = (count is_teardown (output st) + List.length sigs)%nat
      /\ count is_stop (output st')
         = (count is_stop (output st) + List.length sigs)%nat
      /\ (forall c, child (memory st) = Some c -> killed c = true ->
                    count is_kill (output st') = count is_kill (output st))
      /\ status st' = Running.
Proof.
  induction sigs as [|[env sig] sigs IH]; intros st ec2 id Hrun He Hb Hid.
  - exists st. cbn. repeat split; auto.
  - assert (Hexit := running_no_exit st Hrun).
    pose proof (signal_arms_teardown env st sig ec2 id Hrun He Hb Hid)
      as Hstep.
    rewrite Hexit in Hstep.
    destruct (teardown_kill_globals env (memory st)) as [He1 Hb1].
    destruct (teardown_counts env (memory st) (signal_code sig) ec2 id
                (output st)) as (Ht1 & Hs1 & Hk1).
    match type of Hstep with _ = Some ?x => set (st1 := x) in * end.
    destruct (IH st1 ec2 id) as (st' & Hrest & Ht & Hs & Hk & Hrun').
    + apply waiting_is_running.
    + cbn [st1 memory]. rewrite He1. exact He.
    + cbn [st1 memory]. rewrite Hb1. exact Hb.
    + exact Hid.
    + exists st'. cbn [signals map fst snd run].
      fold (signals sigs). rewrite Hstep.
      split; [exact Hrest|].
      cbn [st1 output] in Ht, Hs, Hk.
      rewrite Ht1 in Ht. rewrite Hs1 in Hs.
      cbn [List.length]. repeat split; try lia; try exact Hrun'.
      intros c Hc Hkilled.
      assert (Hnone := teardown_kill_once env (memory st) c Hc Hkilled).
      rewrite (Hk c).
      * rewrite Hk1, Hnone. cbn. lia.
      * unfold st1. cbn [memory]. rewrite Hnone. exact Hc.
      * exact Hkilled.
Qed.

(** C2, as the code has it: when the tunnel child exits, with whatever
    code, the exit listener calls [stopInstance] itself, once, and only
    reports how the request ended; it does not go through
    [cleanupAndExit] and does not call [process.exit].  The child's exit
    is delivered once. *)
Theorem exit_listener_stops_instance_itself env st code c ec2 id :
  status st = Running ->
  child (memory st) = Some c -> exited c = false ->
  exitListener (memory st) = Some (ec2, id) ->
  exists st1,
    step env st (ChildExited code) = Some st1
    /\ output st1 = output st ++
                    [Stdout (SsmSessionExited code);
                     Called (call_stopInstance id);
                     Stdout (StoppingBastion id);
                     Sent (Ec2Send ec2 (StopInstancesCommand id))]
    /\ count is_teardown (output st1) = count is_teardown (output st)
    /\ exitCode st1 = exitCode st
    /\ (forall env' code', step env' st1 (ChildExited code') = None)
    /\ (forall env' r,
           exists st2,
             step env' st1 (Settle (List.length (tasks st)) (CommandDone r))
             = Some st2
             /\ output st2 = output st1 ++
                             [match r with
                              | Resolved _ => Stdout BastionStopped
                              | Rejected e =>
                                  Stderr (FailedToStopBastion e)
                              end]
             /\ exitCode st2 = exitCode st).
Proof.
  intros Hrun Hc Hx Hl.
  rewrite (child_exit_runs_listener env st code c ec2 id Hrun Hc Hx Hl).
  eexists. split; [reflexivity|].
  assert (Hexit := running_no_exit st Hrun).
  assert (Hrun1 : forall m',
             status {| memory := m';
                       tasks := tasks st ++ [Some (stop_in_listener ec2 id)];
                       exitCode := exitCode st;
                       output := output st ++
                         [Stdout (SsmSessionExited code);
                          Called (call_stopInstance id);
                          Stdout (StoppingBastion id);
                          Sent (Ec2Send ec2 (StopInstancesCommand id))];
                       unhandled := unhandled st |} = Running).
  { intros m'. unfold status. cbn [exitCode tasks].
    rewrite Hexit, settled_all_pending. reflexivity. }
  cbn [output exitCode]. repeat split.
  - rewrite count_app. cbn. lia.
  - intros env' code'. unfold step. rewrite Hrun1.
    cbn [memory]. unfold with_child. cbn. reflexivity.
  - intros env' r.
    rewrite (settle_listener env' _ (List.length (tasks st)) ec2 id r
               (Hrun1 _) (nth_error_last _ _)).
    eexists. repeat split; reflexivity.
Qed.

End LoopFacts.

(** ** The lookups come first, whatever else happens *)

Section GatingFacts.
Context `{JsNumber}.

Lemma gated_nil A (t : Async A) : gated [] t.
Proof. destruct t; exact I. Qed.

Lemma perform_is_no_request op x m :
  count is_lifecycle (snd (perform op x m)) = 0%nat.
Proof.
  destruct op as [l|l| | |e| |i| |h|h|h sg|cmd a|h e i|f]; cbn;
    try reflexivity.
  destruct (child m) as [[k e]|]; cbn; [|reflexivity].
  destruct e; cbn; [reflexivity|]. destruct x; reflexivity.
Qed.

(** One turn of a program that is aside sends no lifecycle request and
    leaves a program that is aside. *)
Lemma turn_aside env (t : Async unit) :
  forall m, aside t ->
    count is_lifecycle (said (turn env t m)) = 0%nat
    /\ match pause (turn env t m) with
       | Waiting s => aside (pending_program s)
       | _ => True
       end.
Proof.
  induction t as [a|e|c|op k IH|rq k IH|]; intros m Ht; cbn;
    try (split; [reflexivity|exact I]).
  - pose proof (perform_is_no_request op (supply env op) m) as Hp.
    destruct (perform op (supply env op) m) as [[r m'] es].
    cbn [snd] in Hp. cbn [pause said mem].
    destruct (IH r m' (Ht r)) as [Hs Hw].
    rewrite count_app, Hp, Hs. split; [reflexivity|exact Hw].
  - destruct Ht as [Hrq Hk]. split.
    + destruct rq as [cf n|ec2 [i|i|i]|ms]; try discriminate Hrq;
        reflexivity.
    + split; assumption.
Qed.

(** One turn of a gated program sends none either and leaves a program
    gated in the same way. *)
Lemma turn_gated env key rest (t : Async unit) :
  forall m, gated (key :: rest) t ->
    count is_lifecycle (said (turn env t m)) = 0%nat
    /\ match pause (turn env t m) with
       | Waiting s => gated (key :: rest) (pending_program s)
       | _ => True
       end.
Proof.
  induction t as [a|e|c|op k IH|rq k IH|]; intros m Ht; cbn;
    try (split; [reflexivity|exact I]).
  - pose proof (perform_is_no_request op (supply env op) m) as Hp.
    destruct (perform op (supply env op) m) as [[r m'] es].
    cbn [snd] in Hp. cbn [pause said mem].
    destruct (IH r m' (Ht r)) as [Hs Hw].
    rewrite count_app, Hp, Hs. split; [reflexivity|exact Hw].
  - split.
    + destruct rq as [cf n|ec2 [i|i|i]|ms]; try (cbn in Ht; contradiction);
        reflexivity.
    + exact Ht.
Qed.

Lemma resolved_app keys : forall evs more,
    resolved keys evs -> resolved keys (evs ++ more).
Proof.
  induction keys as [|key rest IH]; intros evs more; cbn; [trivial|].
  intros (pre & e & n & s & post & -> & Hg & Hr).
  exists pre, e, n, s, (post ++ more). rewrite <- app_assoc. cbn.
  repeat split; auto.
Qed.

Lemma resolved_snoc done : forall evs key e n s,
    resolved done evs -> good s key = true ->
    resolved (done ++ [key]) (evs ++ [(e, Settle n (StacksDescribed s))]).
Proof.
  induction done as [|k0 done IH]; intros evs key e n s Hr Hg; cbn.
  - exists evs, e, n, s, []. repeat split; auto.
  - destruct Hr as (pre & e0 & n0 & s0 & post & -> & Hg0 & Hr0).
    exists pre, e0, n0, s0, (post ++ [(e, Settle n (StacksDescribed s))]).
    rewrite <- app_assoc. cbn. repeat split; auto.
Qed.

Lemma program_ok_later evs more t :
  program_ok evs t -> program_ok (evs ++ more) t.
Proof.
  intros [Ha|(done & todo & Hk & Hr & Hg)]; [left; exact Ha|right].
  exists done, todo. repeat split; auto using resolved_app.
Qed.

Lemma in_clear n : forall (ts : list (option Suspended)) t,
    In (Some t) (clear n ts) -> In (Some t) ts.
Proof.
  induction n as [|n IH]; intros [|x ts] t; cbn; auto.
  - intros [Habs|Hin]; [discriminate|right; exact Hin].
  - intros [Heq|Hin]; [left; exact Heq|right; apply IH; exact Hin].
Qed.

(** The listeners are aside: all they send is a stop request. *)
Lemma on_signal_aside sig : aside (on_signal sig).
Proof.
  rewrite on_signal_code. unfold cleanupAndExit.
  generalize (signal_code sig). intros code.
  assert (Hwait : forall s : Settled unit, aside (finish_cleanup code s)).
  { intros [[]|e]; cbn; intros; exact I. }
  cbn. intros _ [h|]; cbn.
  - intros [|]; cbn.
    + intros [ec2|]; cbn; [|intros; exact I].
      intros [id|]; cbn; [|exact I].
      destruct (id =? "")%string; cbn; [exact I|].
      intros _ _ _. split; [reflexivity|exact Hwait].
    + intros [| |e]; cbn.
      all: intros [ec2|]; cbn; [|intros; exact I].
      all: intros [id|]; cbn; [|exact I].
      all: destruct (id =? "")%string; cbn; [exact I|].
      all: intros _ _ _; split; [reflexivity|exact Hwait].
  - intros [ec2|]; cbn; [|intros; exact I].
    intros [id|]; cbn; [|exact I].
    destruct (id =? "")%string; cbn; [exact I|].
    intros _ _ _. split; [reflexivity|exact Hwait].
Qed.

Lemma on_child_exit_aside ec2 id code : aside (on_child_exit ec2 id code).
Proof.
  cbn. intros _ _ _. split; [reflexivity|].
  intros [[]|e]; cbn; intros; exact I.
Qed.

(** The script is gated by its two lookups. *)
Lemma script_gated fuel inv : gated lookup_keys (script fuel inv).
Proof.
  unfold script, main. destruct (parseArgs inv) as [e|args]; cbn.
  - intros _. exact I.
  - intros [r1|e1]; cbn; [|intros _; exact I].
    destruct (outputValue r1 _) as [[v1|]|]; cbn; try (intros _; exact I).
    destruct (v1 =? "")%string; cbn; [intros _; exact I|].
    intros _ _. intros [r2|e2]; cbn; [|intros _; exact I].
    destruct (outputValue r2 _) as [[v2|]|]; cbn; try (intros _; exact I).
    destruct (v2 =? "")%string; cbn; [intros _; exact I|].
    exact I.
Qed.

Lemma activate_keeps_lookups_first env t st st' evs :
  activate env t st = Some st' ->
  (count is_lifecycle (output st) = 0%nat \/ resolved lookup_keys evs) ->
  (forall t0, In (Some t0) (tasks st) -> task_ok evs t0) ->
  program_ok evs t ->
  lookups_first evs st'.
Proof.
  unfold activate. intros Hact Hout Htasks Hprog.
  assert (Hturn :
            (count is_lifecycle (said (turn env t (memory st))) = 0%nat
             \/ resolved lookup_keys evs)
            /\ match pause (turn env t (memory st)) with
               | Waiting s => task_ok evs s
               | _ => True
               end).
  { destruct Hprog as [Ha|(done & [|key rest] & Hk & Hr & Hg)].
    - destruct (turn_aside env t (memory st) Ha) as [Hs Hw].
      split; [left; exact Hs|].
      destruct (pause (turn env t (memory st))); auto. left. exact Hw.
    - rewrite app_nil_r in Hk. subst done.
      split; [right; exact Hr|].
      destruct (pause (turn env t (memory st))); auto.
      right. exists lookup_keys, []. rewrite app_nil_r.
      repeat split; auto using gated_nil.
    - destruct (turn_gated env key rest t (memory st) Hg) as [Hs Hw].
      split; [left; exact Hs|].
      destruct (pause (turn env t (memory st))); auto.
      right. exists done, (key :: rest). repeat split; auto. }
  destruct Hturn as [Hsaid Hwait].
  assert (Hcount :
            count is_lifecycle (output st ++ said (turn env t (memory st)))
            = 0%nat \/ resolved lookup_keys evs).
  { destruct Hout as [H0|Hr]; [|right; exact Hr].
    destruct Hsaid as [Hs|Hr]; [|right; exact Hr].
    left. rewrite count_app, H0, Hs. reflexivity. }
  destruct (pause (turn env t (memory st))) as [|e|c|s|];
    try discriminate Hact; injection Hact as <-; split; cbn; auto.
  intros t0 Hin. apply in_app_or in Hin. destruct Hin as [Hin|[Heq|[]]].
  - apply Htasks. exact Hin.
  - injection Heq as <-. exact Hwait.
Qed.

Lemma step_keeps_lookups_first env st ev st' evs :
  step env st ev = Some st' ->
  lookups_first evs st -> lookups_first (evs ++ [(env, ev)]) st'.
Proof.
  unfold step. destruct (status st); [|discriminate].
  intros Hstep [Hout Htasks].
  assert (Hout' : count is_lifecycle (output st) = 0%nat
                  \/ resolved lookup_keys (evs ++ [(env, ev)])).
  { destruct Hout; [left|right]; auto using resolved_app. }
  assert (Htasks' : forall t0, In (Some t0) (tasks st) ->
                               task_ok (evs ++ [(env, ev)]) t0).
  { intros t0 Hin. apply program_ok_later. apply Htasks. exact Hin. }
  destruct ev as [sig|code|n s].
  - apply (activate_keeps_lookups_first env (on_signal sig) st st' _
             Hstep Hout' Htasks').
    left. apply on_signal_aside.
  - destruct (child (memory st)) as [c|]; [|discriminate].
    destruct (exited c); [discriminate|].
    destruct (exitListener (memory st)) as [[ec2 id]|].
    + apply (activate_keeps_lookups_first env (on_child_exit ec2 id code)
               _ st' _ Hstep); auto.
      left. apply on_child_exit_aside.
    + injection Hstep as <-. split; auto.
  - destruct (nth_error (tasks st) n) as [[t|]|] eqn:Hnth;
      try discriminate.
    destruct (deliver (awaited t) s) as [reply|] eqn:Hdel;
      [|discriminate].
    apply (activate_keeps_lookups_first env (resume t reply) _ st' _ Hstep);
      cbn; auto.
    + intros t0 Hin. apply Htasks'. apply (in_clear n). exact Hin.
    + apply nth_error_In in Hnth.
      destruct (Htasks t Hnth) as [Ha|(done & [|key rest] & Hk & Hr & Hg)].
      * left. destruct Ha as [_ Ha]. apply Ha.
      * right. exists done, [].
        repeat split; auto using resolved_app, gated_nil.
      * destruct t as [rq k]. cbn in *.
        destruct rq as [cf name|ec2 cmd|ms]; try contradiction.
        destruct s as [r| | |]; try discriminate Hdel.
        injection Hdel as <-.
        specialize (Hg r). destruct (good r key) eqn:Hgood.
        -- right. exists (done ++ [key]), rest.
           rewrite <- app_assoc. repeat split; auto.
           apply resolved_snoc; assumption.
        -- left. exact Hg.
Qed.

Lemma run_keeps_lookups_first evs : forall st st' pre,
    run st evs = Some st' ->
    lookups_first pre st -> lookups_first (pre ++ evs) st'.
Proof.
  induction evs as [|[env ev] evs IH]; intros st st' pre; cbn.
  - intros [= <-]. rewrite app_nil_r. trivial.
  - destruct (step env st ev) as [st1|] eqn:Hstep; [|discriminate].
    intros Hrun Hinv.
    replace (pre ++ (env, ev) :: evs) with ((pre ++ [(env, ev)]) ++ evs)
      by (rewrite <- app_assoc; reflexivity).
    apply (IH st1 st' _ Hrun).
    apply (step_keeps_lookups_first env st ev st1 pre Hstep Hinv).
Qed.

(** In the event loop, whatever signals arrive and in whatever order the
    requests settle: as long as the two lookups have not both succeeded,
    the instance has been neither polled nor started. *)
Lemma lifecycle_needs_both_lookups env fuel inv evs st0 st :
  boot env fuel inv = Some st0 -> run st0 evs = Some st ->
  count is_lifecycle (output st) = 0%nat \/ resolved lookup_keys evs.
Proof.
  intros Hboot Hrun.
  assert (Hinit : lookups_first [] st0).
  { apply (activate_keeps_lookups_first env (script fuel inv) loaded st0 []
             Hboot).
    - left. reflexivity.
    - intros t0 [].
    - right. exists [], lookup_keys. repeat split. apply script_gated. }
  exact (proj1 (run_keeps_lookups_first evs st0 st [] Hrun Hinit)).
Qed.

(** C7: both lookups are made, and have succeeded, before anything is
    asked of the instance.
    - In the start-up sequence, when the first or the second lookup fails
      (rejected request, no stack, no such output or an empty value), the
      run ends with exit code 1 and its whole trace is the lookups and the
      error report: no EC2 request, hence no start request, is sent.
    - In the event loop, whatever signals arrive and however the requests
      settle, the instance is neither polled nor started unless both
      lookups have succeeded before. *)
Theorem lookups_precede_lifecycle
        fuel inv args s1 s2 ss obs cs ck ks m :
  parseArgs inv = inr args ->
  (let cf := {| cf_region := region args |} in
   let w := {| stacks := s1 :: s2 :: ss; observations := obs;
               commands := cs; clock := ck; kills := ks |} in
   let r := play (script fuel inv) w m in
   match lookup s1 (accessStack args) "VersoStatBastionInstanceId" with
   | inl e =>
       outcome r = ExitedWith 1
       /\ effects r = [Sent (CfSend cf (accessStack args));
                       Stderr (Uncaught e); Exited 1]
   | inr bastionId =>
       match lookup s2 (dbStack args) "VersoStatDbHost" with
       | inl e =>
           outcome r = ExitedWith 1
           /\ effects r = [Sent (CfSend cf (accessStack args));
                           Sent (CfSend cf (dbStack args));
                           Stderr (Uncaught e); Exited 1]
       | inr dbEndpoint =>
           exists rest,
             effects r = Sent (CfSend cf (accessStack args))
                         :: Sent (CfSend cf (dbStack args)) :: rest
       end
   end)
  /\ (forall env evs st0 st,
         boot env fuel inv = Some st0 -> run st0 evs = Some st ->
         count is_lifecycle (output st) = 0%nat
         \/ resolved lookup_keys evs).
Proof.
  intros Hargs. split.
  - unfold script, main. rewrite Hargs. cbn.
    unfold lookup.
    destruct s1 as [r1|e1]; cbn; [|split; reflexivity].
    destruct (outputValue r1 _) as [[v1|]|]; cbn; try (split; reflexivity).
    destruct (v1 =? "")%string; cbn; [split; reflexivity|].
    destruct s2 as [r2|e2]; cbn; [|split; reflexivity].
    destruct (outputValue r2 _) as [[v2|]|]; cbn; try (split; reflexivity).
    destruct (v2 =? "")%string; cbn; [split; reflexivity|].
    eexists. reflexivity.
  - intros env evs st0 st.
    apply (lifecycle_needs_both_lookups env fuel inv evs st0 st).
Qed.
End GatingFacts.

(** ** No error escapes *)

Section ContainmentFacts.
Context `{JsNumber}.

Lemma silent_bind A B (t : Async A) (f : A -> Async B) :
  silent t -> (forall a, silent (f a)) -> silent (bind t f).
Proof.
  induction t as [a|e|c|op k IH|rq k IH|]; cbn; intros Ht Hf; auto.
  - destruct Ht as [Hop Hk]. split; [exact Hop|]. intros r. apply IH; auto.
Qed.

Lemma contained_try_catch (t : Async unit) :
  silent t ->
  contained (try_catch t (fun e =>
               bind (console_error (Uncaught e)) (fun _ => ProcessExit 1))).
Proof.
  induction t as [a|e|c|op k IH|rq k IH|]; cbn; intros Ht; auto.
  destruct Ht as [Hop Hk]. rewrite Hop. intros r. apply IH. apply Hk.
Qed.

Lemma silent_getStackOutput cf name key : silent (getStackOutput cf name key).
Proof.
  cbn. intros [resp|e]; cbn; [|exact I].
  destruct (outputValue resp key) as [[v|]|]; cbn; try exact I.
  destruct (v =? "")%string; exact I.
Qed.

Lemma silent_poll fuel ec2 id timeoutMs start :
  silent (poll fuel ec2 id timeoutMs start).
Proof.
  induction fuel as [|fuel IH]; [exact I|].
  cbn. intros [resp|e]; cbn; [|exact I].
  split; [reflexivity|]. intros _.
  assert (Hwait : forall now : Z,
             silent (if now - start >? timeoutMs
                     then Throw (TimedOutRunning id)
                     else bind (sleep 5000)
                            (fun _ => poll fuel ec2 id timeoutMs start))).
  { intros now. destruct (now - start >? timeoutMs); cbn; [exact I|].
    intros _. apply IH. }
  assert (Hstopping : forall now : Z,
             silent (if now - start >? timeoutMs
                     then Throw (TimedOutStopping id)
                     else bind (sleep 5000)
                            (fun _ => poll fuel ec2 id timeoutMs start))).
  { intros now. destruct (now - start >? timeoutMs); cbn; [exact I|].
    intros _. apply IH. }
  destruct (stateOf resp) as [[]|]; cbn.
  all: try exact I.
  all: try (split; [reflexivity|]; first [exact Hwait|exact Hstopping]).
  all: try (split; [reflexivity|]; intros _; exact I).
  all: split; [reflexivity|]; intros _ [[]|e]; cbn; [|exact I];
    split; [reflexivity|exact Hwait].
Qed.

Lemma silent_ensureInstanceRunning fuel ec2 id timeoutMs :
  silent (ensureInstanceRunning fuel ec2 id timeoutMs).
Proof. cbn. split; [reflexivity|]. intros start. apply silent_poll. Qed.

Lemma silent_main fuel inv : silent (main fuel inv).
Proof.
  unfold main. apply silent_bind; [destruct (parseArgs inv); exact I|].
  intros args. apply silent_bind; [apply silent_getStackOutput|].
  intros bastionId. cbn -[getStackOutput ensureInstanceRunning].
  split; [reflexivity|]. intros _. split; [reflexivity|]. intros _.
  apply silent_bind; [apply silent_getStackOutput|].
  intros dbEndpoint.
  apply silent_bind; [apply silent_ensureInstanceRunning|].
  intros _. cbn. intros _. repeat (split; [reflexivity|]; intros _).
  exact I.
Qed.

Lemma script_contained fuel inv : contained (script fuel inv).
Proof. apply contained_try_catch. apply silent_main. Qed.


Lemma contained_on_signal sig : contained (on_signal sig).
Proof.
  rewrite on_signal_code. unfold cleanupAndExit.
  generalize (signal_code sig). intros code.
  assert (Hwait : forall s : Settled unit, contained (finish_cleanup code s)).
  { intros [[]|e]; cbn; intros; exact I. }
  cbn. intros _ [h|]; cbn.
  - intros [|]; cbn.
    + intros [ec2|]; cbn; [|intros; exact I].
      intros [id|]; cbn; [|exact I].
      destruct (id =? "")%string; cbn; [exact I|].
      intros _ _ _. exact Hwait.
    + intros [| |e]; cbn.
      all: intros [ec2|]; cbn; [|intros; exact I].
      all: intros [id|]; cbn; [|exact I].
      all: destruct (id =? "")%string; cbn; [exact I|].
      all: intros _ _ _; exact Hwait.
  - intros [ec2|]; cbn; [|intros; exact I].
    intros [id|]; cbn; [|exact I].
    destruct (id =? "")%string; cbn; [exact I|].
    intros _ _ _. exact Hwait.
Qed.

Lemma contained_on_child_exit ec2 id code :
  contained (on_child_exit ec2 id code).
Proof. cbn. intros _ _ _. intros [[]|e]; cbn; intros; exact I. Qed.

Lemma perform_reports op x m :
  reports op = false -> count is_report (snd (perform op x m)) = 0%nat.
Proof.
  destruct op as [l|l| | |e| |i| |h|h|h sg|cmd a|h e i|f]; cbn;
    try reflexivity.
  - destruct l; try reflexivity. discriminate.
  - intros _. destruct (child m) as [[k e]|]; cbn; [|reflexivity].
    destruct e; cbn; [reflexivity|]. destruct x; reflexivity.
Qed.

Lemma turn_contained env (t : Async unit) :
  forall m, contained t ->
    match pause (turn env t m) with
    | Failed _ => False
    | Waiting s => contained (pending_program s)
    | _ => True
    end
    /\ (count is_report (said (turn env t m)) = 0%nat
        \/ pause (turn env t m) = Quit 1).
Proof.
  induction t as [a|e|c|op k IH|rq k IH|]; intros m Ht; cbn;
    try (split; [exact I|left; reflexivity]).
  - contradiction.
  - cbn in Ht. destruct (reports op) eqn:Hop.
    + destruct (perform op (supply env op) m) as [[r m'] es].
      cbn [pause said mem]. rewrite (Ht r). cbn.
      split; [exact I|right; reflexivity].
    + pose proof (perform_reports op (supply env op) m Hop) as Hp.
      destruct (perform op (supply env op) m) as [[r m'] es].
      cbn [snd] in Hp. cbn [pause said mem].
      destruct (IH r m' (Ht r)) as [Hw Hs].
      split; [exact Hw|].
      destruct Hs as [Hs|Hq]; [left|right; exact Hq].
      rewrite count_app, Hp, Hs. reflexivity.
  - split; [exact Ht|left; reflexivity].
Qed.

Lemma activate_contains env t st st' :
  activate env t st = Some st' ->
  unhandled st = [] ->
  count is_report (output st) = 0%nat ->
  (forall t0, In (Some t0) (tasks st) -> contained (pending_program t0)) ->
  contained t ->
  errors_contained st'.
Proof.
  unfold activate. intros Hact Hun Hout Htasks Ht.
  destruct (turn_contained env t (memory st) Ht) as [Hw Hs].
  assert (Hcount :
            count is_report (output st ++ said (turn env t (memory st)))
            = 0%nat \/ pause (turn env t (memory st)) = Quit 1).
  { destruct Hs as [Hs|Hq]; [left|right; exact Hq].
    rewrite count_app, Hout, Hs. reflexivity. }
  destruct (pause (turn env t (memory st))) as [|e|c|s|];
    try discriminate Hact; try contradiction;
    injection Hact as <-; unfold errors_contained; cbn.
  - repeat split; auto. destruct Hcount as [Hc|Hq]; [left; exact Hc|].
    discriminate Hq.
  - repeat split; auto. destruct Hcount as [Hc|Hq]; [left; exact Hc|].
    right. injection Hq as ->. reflexivity.
  - repeat split; auto.
    + destruct Hcount as [Hc|Hq]; [left; exact Hc|discriminate Hq].
    + intros t0 Hin. apply in_app_or in Hin.
      destruct Hin as [Hin|[Heq|[]]]; [apply Htasks; exact Hin|].
      injection Heq as <-. exact Hw.
Qed.

Lemma step_contains env st ev st' :
  step env st ev = Some st' -> errors_contained st -> errors_contained st'.
Proof.
  intros Hstep (Hun & Hout & Htasks).
  assert (Hrun : status st = Running).
  { unfold step in Hstep. destruct (status st); [reflexivity|discriminate]. }
  assert (Hout0 : count is_report (output st) = 0%nat).
  { destruct Hout as [H0|H1]; [exact H0|].
    rewrite (running_no_exit st Hrun) in H1. discriminate. }
  unfold step in Hstep. rewrite Hrun in Hstep.
  destruct ev as [sig|code|n s].
  - apply (activate_contains env (on_signal sig) st st' Hstep); auto.
    apply contained_on_signal.
  - destruct (child (memory st)) as [c|]; [|discriminate].
    destruct (exited c); [discriminate|].
    destruct (exitListener (memory st)) as [[ec2 id]|].
    + apply (activate_contains env (on_child_exit ec2 id code) _ st' Hstep);
        auto. apply contained_on_child_exit.
    + injection Hstep as <-. unfold errors_contained. cbn. auto.
  - destruct (nth_error (tasks st) n) as [[t|]|] eqn:Hnth;
      try discriminate.
    destruct (deliver (awaited t) s) as [reply|] eqn:Hdel;
      [|discriminate].
    apply (activate_contains env (resume t reply) _ st' Hstep); cbn; auto.
    + intros t0 Hin. apply Htasks. apply (in_clear n). exact Hin.
    + apply nth_error_In in Hnth. apply (Htasks t Hnth).
Qed.

Lemma run_contains evs : forall st st',
    run st evs = Some st' -> errors_contained st -> errors_contained st'.
Proof.
  induction evs as [|[env ev] evs IH]; intros st st'; cbn.
  - intros [= <-]. trivial.
  - destruct (step env st ev) as [st1|] eqn:Hstep; [|discriminate].
    intros Hrun Hinv. apply (IH st1 st' Hrun).
    apply (step_contains env st ev st1 Hstep Hinv).
Qed.

(** In the event loop, whatever happens: no rejection is ever left
    unhandled, and once the error handler of [main] has printed its line
    the exit code is 1. *)
Lemma no_error_escapes env fuel inv evs st0 st :
  boot env fuel inv = Some st0 -> run st0 evs = Some st ->
  unhandled st = []
  /\ (count is_report (output st) = 0%nat \/ exitCode st = Some 1).
Proof.
  intros Hboot Hrun.
  assert (Hinit : errors_contained st0).
  { apply (activate_contains env (script fuel inv) loaded st0 Hboot);
      try reflexivity.
    - intros t0 [].
    - apply script_contained. }
  destruct (run_contains evs st0 st Hrun Hinit) as (Hun & Hout & _).
  split; assumption.
Qed.

(** C9: a stop request that fails during teardown is reported on stderr
    and nothing else happens to it.  Whenever the request that a teardown
    started by a signal is waiting for is rejected, the failure line is
    printed, no rejection is left unhandled, and the process exits with
    the code of that signal.  The same failure inside the exit listener is
    printed too and leaves the exit code alone.  In no run of the script
    is a rejection ever left unhandled. *)
Theorem failed_stop_keeps_exit_code env st sig ec2 id :
  status st = Running ->
  ec2Global (memory st) = Some ec2 ->
  bastionIdGlobal (memory st) = Some id ->
  (id =? "")%string = false ->
  (exists st1,
      step env st (SignalReceived sig) = Some st1
      /\ status st1 = Running
      /\ tasks st1 =
         tasks st ++ [Some (stop_in_cleanup ec2 id (signal_code sig))])
  /\ (forall env' st' n e,
         status st' = Running ->
         nth_error (tasks st') n
         = Some (Some (stop_in_cleanup ec2 id (signal_code sig))) ->
         exists st2,
           step env' st' (Settle n (CommandDone (Rejected e))) = Some st2
           /\ output st2 = output st' ++
                           [Stderr (FailedToStopBastion e);
                            Exited (signal_code sig)]
           /\ unhandled st2 = unhandled st'
           /\ status st2 = Terminated (signal_code sig))
  /\ (forall env' st' n e,
         status st' = Running ->
         nth_error (tasks st') n = Some (Some (stop_in_listener ec2 id)) ->
         exists st2,
           step env' st' (Settle n (CommandDone (Rejected e))) = Some st2
           /\ output st2 = output st' ++ [Stderr (FailedToStopBastion e)]
           /\ unhandled st2 = unhandled st'
           /\ exitCode st2 = exitCode st')
  /\ (forall env0 fuel inv evs st0 st',
         boot env0 fuel inv = Some st0 -> run st0 evs = Some st' ->
         unhandled st' = []).
Proof.
  intros Hrun He Hb Hid. split; [|split; [|split]].
  - rewrite (signal_arms_teardown env st sig ec2 id Hrun He Hb Hid).
    rewrite (running_no_exit st Hrun).
    eexists. split; [reflexivity|]. split; [|reflexivity].
    apply waiting_is_running.
  - intros env' st' n e Hrun' Hnth.
    rewrite (settle_cleanup env' st' n ec2 id (signal_code sig) (Rejected e)
               Hrun' Hnth).
    eexists. repeat split; reflexivity.
  - intros env' st' n e Hrun' Hnth.
    rewrite (settle_listener env' st' n ec2 id (Rejected e) Hrun' Hnth).
    eexists. repeat split; reflexivity.
  - intros env0 fuel inv evs st0 st' Hboot Hruns.
    exact (proj1 (no_error_escapes env0 fuel inv evs st0 st' Hboot Hruns)).
Qed.

(** C6: the exit code follows the cause of termination.
    - A signal: its listener runs [cleanupAndExit] with 130 (SIGINT),
      143 (SIGTERM) or 148 (SIGTSTP); the process ends with that code,
      at once when there is nothing to stop, otherwise when the stop
      request that teardown waits for settles, whichever way.
    - The child's exit with nothing else pending: once the listener's
      stop request has succeeded nothing keeps the loop alive and the
      process ends with code 0.
    - An error thrown by [main] (argument, lookup or polling error): the
      process ends with code 1; in the event loop, whatever else goes on,
      once the error handler of [main] has reported an error the process
      has ended with code 1. *)
Theorem exit_code_follows_cause :
  (signal_code SIGINT = 130 /\ signal_code SIGTERM = 143
   /\ signal_code SIGTSTP = 148)
  /\ (forall env st sig,
         status st = Running ->
         exists st1,
           step env st (SignalReceived sig) = Some st1
           /\ (status st1 = Terminated (signal_code sig)
               \/ exists ec2 id,
                   status st1 = Running
                   /\ tasks st1 =
                      tasks st
                      ++ [Some (stop_in_cleanup ec2 id (signal_code sig))]))
  /\ (forall env st n ec2 id code r,
         status st = Running ->
         nth_error (tasks st) n = Some (Some (stop_in_cleanup ec2 id code)) ->
         exists st2,
           step env st (Settle n (CommandDone r)) = Some st2
           /\ status st2 = Terminated code)
  /\ (forall env env' st code c ec2 id,
         status st = Running ->
         child (memory st) = Some c -> exited c = false ->
         exitListener (memory st) = Some (ec2, id) ->
         settled_all (tasks st) = true ->
         exists st1 st2,
           step env st (ChildExited code) = Some st1
           /\ status st1 = Running
           /\ step env' st1
                   (Settle (List.length (tasks st))
                           (CommandDone (Resolved tt))) = Some st2
           /\ status st2 = Terminated 0)
  /\ (forall fuel inv w m e,
         outcome (play (main fuel inv) w m) = Threw e ->
         outcome (play (script fuel inv) w m) = ExitedWith 1)
  /\ (forall env fuel inv evs st0 st,
         boot env fuel inv = Some st0 -> run st0 evs = Some st ->
         count is_report (output st) = 0%nat \/ status st = Terminated 1).
Proof.
  split; [repeat split; reflexivity|].
  split; [|split; [|split; [|split]]].
  - intros env st sig Hrun.
    destruct (ec2Global (memory st)) as [ec2|] eqn:He.
    + destruct (bastionIdGlobal (memory st)) as [id|] eqn:Hb.
      * destruct (id =? "")%string eqn:Hid.
        -- destruct (signal_unarmed env st sig Hrun) as (st1 & Hstep & Hend).
           { rewrite He, Hb. cbn. rewrite Hid. reflexivity. }
           exists st1. split; [exact Hstep|left; exact Hend].
        -- rewrite (signal_arms_teardown env st sig ec2 id Hrun He Hb Hid).
           rewrite (running_no_exit st Hrun).
           eexists. split; [reflexivity|right].
           exists ec2, id. split; [apply waiting_is_running|reflexivity].
      * destruct (signal_unarmed env st sig Hrun) as (st1 & Hstep & Hend).
        { rewrite He, Hb. reflexivity. }
        exists st1. split; [exact Hstep|left; exact Hend].
    + destruct (signal_unarmed env st sig Hrun) as (st1 & Hstep & Hend).
      { rewrite He. reflexivity. }
      exists st1. split; [exact Hstep|left; exact Hend].
  - intros env st n ec2 id code r Hrun Hnth.
    rewrite (settle_cleanup env st n ec2 id code r Hrun Hnth).
    eexists. split; reflexivity.
  - intros env env' st code c ec2 id Hrun Hc Hx Hl Hidle.
    rewrite (child_exit_runs_listener env st code c ec2 id Hrun Hc Hx Hl).
    assert (Hexit := running_no_exit st Hrun).
    assert (Hrun1 :
              status {| memory := with_child (memory st)
                          (Some {| killed := killed c; exited := true |});
                        tasks := tasks st
                                 ++ [Some (stop_in_listener ec2 id)];
                        exitCode := exitCode st;
                        output := output st ++
                          [Stdout (SsmSessionExited code);
                           Called (call_stopInstance id);
                           Stdout (StoppingBastion id);
                           Sent (Ec2Send ec2 (StopInstancesCommand id))];
                        unhandled := unhandled st |} = Running).
    { unfold status. cbn [exitCode tasks].
      rewrite Hexit, settled_all_pending. reflexivity. }
    eexists. eexists. split; [reflexivity|]. split; [exact Hrun1|].
    rewrite (settle_listener env' _ (List.length (tasks st)) ec2 id
               (Resolved tt) Hrun1 (nth_error_last _ _)).
    split; [reflexivity|].
    unfold status. cbn [exitCode tasks memory].
    rewrite Hexit, clear_last, (settled_all_done _ Hidle). reflexivity.
  - intros fuel inv w m e Hthrow.
    apply (script_exits_1_when_main_throws fuel inv w m e Hthrow).
  - intros env fuel inv evs st0 st Hboot Hruns.
    destruct (no_error_escapes env fuel inv evs st0 st Hboot Hruns)
      as [_ [Hnone|Hone]]; [left; exact Hnone|right].
    unfold status. rewrite Hone. reflexivity.
Qed.

End ContainmentFacts.

(** ** More on parseArgs *)

Section MoreParseArgsFacts.
Context `{JsNumber}.

Lemma indexOf_from_first pre x post : forall i,
    ~ In x pre ->
    indexOf_from (pre ++ x :: post) x i = i + Z.of_nat (List.length pre).
Proof.
  induction pre as [|y pre IH]; intros i Hnot; cbn [app indexOf_from].
  - rewrite String.eqb_refl. cbn. lia.
  - destruct (String.eqb_spec y x) as [->|Hne].
    + exfalso. apply Hnot. left. reflexivity.
    + rewrite IH; [|intros Hin; apply Hnot; right; exact Hin].
      cbn [List.length]. lia.
Qed.

Lemma indexOf_from_absent xs x : forall i,
    ~ In x xs -> indexOf_from xs x i = -1.
Proof.
  induction xs as [|y xs IH]; intros i Hnot; cbn [indexOf_from];
    [reflexivity|].
  destruct (String.eqb_spec y x) as [->|Hne].
  - exfalso. apply Hnot. left. reflexivity.
  - apply IH. intros Hin. apply Hnot. right. exact Hin.
Qed.

Lemma at_index_after pre (x : string) rest :
  at_index (pre ++ x :: rest) (0 + Z.of_nat (List.length pre) + 1)
  = hd_error rest.
Proof.
  unfold at_index.
  destruct (0 + Z.of_nat (List.length pre) + 1 <? 0) eqn:Hneg;
    [apply Z.ltb_lt in Hneg; lia|].
  replace (Z.to_nat (0 + Z.of_nat (List.length pre) + 1))
    with (List.length pre + 1)%nat by lia.
  rewrite nth_error_app2 by lia.
  replace (List.length pre + 1 - List.length pre)%nat with 1%nat by lia.
  destruct rest; reflexivity.
Qed.

(** [get] reads the word after the first occurrence of the flag. *)
Lemma get_first pre k rest def :
  ~ In ("--" ++ k)%string pre ->
  get (pre ++ ("--" ++ k)%string :: rest) k def = hd_error rest.
Proof.
  intros Hnot. unfold get, indexOf.
  rewrite (indexOf_from_first pre _ rest 0 Hnot).
  destruct (0 + Z.of_nat (List.length pre) >=? 0) eqn:Hge.
  - apply at_index_after.
  - rewrite Z.geb_leb in Hge. apply Z.leb_gt in Hge. lia.
Qed.

Lemma get_absent args k def :
  ~ In ("--" ++ k)%string args -> get args k def = def.
Proof.
  intros Hnot. unfold get, indexOf.
  rewrite (indexOf_from_absent args _ 0 Hnot). reflexivity.
Qed.

(** What [get(k) || ...] sees of an unusable flag. *)
Lemma get_unusable args k :
  unusable args ("--" ++ k)%string ->
  get args k None = None \/ get args k None = Some "".
Proof.
  intros [Habs|[(pre & -> & Hnot)|(pre & post & -> & Hnot)]].
  - left. apply get_absent. exact Habs.
  - left. apply (get_first pre k [] None Hnot).
  - right. apply (get_first pre k ("" :: post) None Hnot).
Qed.

Lemma eqb_false_of_neq (v : string) : v <> "" -> (v =? "")%string = false.
Proof. intros Hv. apply String.eqb_neq. exact Hv. Qed.

(** The fields of a successful [parseArgs]. *)
Lemma parseArgs_fields inv a :
  parseArgs inv = inr a ->
  region a = or_literal (or_else (get (skipn 2 (argv inv)) "region" None)
                                 (AWS_REGION inv)) "us-east-1"
  /\ accessStack a = or_literal (get (skipn 2 (argv inv)) "access-stack" None)
                                "VersoStat-AccessStack-prod"
  /\ dbStack a = or_literal (get (skipn 2 (argv inv)) "db-stack" None)
                            "VersoStat-DatabaseStack-prod"
  /\ localPort a = match get (skipn 2 (argv inv)) "local-port" None with
                   | Some s => if (s =? "")%string then number_5439
                               else Number_of_string s
                   | None => number_5439
                   end.
Proof.
  unfold parseArgs. cbv zeta. intros Hparse.
  destruct (_ =? "")%string; [discriminate Hparse|].
  destruct (_ =? "")%string; [discriminate Hparse|].
  destruct (_ =? "")%string; [discriminate Hparse|].
  destruct (_ || _); [discriminate Hparse|].
  injection Hparse as <-. cbn [region accessStack dbStack localPort].
  repeat split; reflexivity.
Qed.

(** X1: an option given on the command line is the word that follows the
    first occurrence of its flag among the arguments after the first two.
    When that word is not empty it is the value [parseArgs] returns,
    whatever the environment and the rest of the command line say:
    [--region] wins over [AWS_REGION], and the local port is [Number] of
    the word. *)
Theorem option_value_follows_first_flag inv a :
  parseArgs inv = inr a ->
  forall pre v post,
    v <> "" ->
    (skipn 2 (argv inv) = pre ++ "--region" :: v :: post ->
     ~ In "--region" pre -> region a = v)
    /\ (skipn 2 (argv inv) = pre ++ "--access-stack" :: v :: post ->
        ~ In "--access-stack" pre -> accessStack a = v)
    /\ (skipn 2 (argv inv) = pre ++ "--db-stack" :: v :: post ->
        ~ In "--db-stack" pre -> dbStack a = v)
    /\ (skipn 2 (argv inv) = pre ++ "--local-port" :: v :: post ->
        ~ In "--local-port" pre -> localPort a = Number_of_string v).
Proof.
  intros Hparse pre v post Hv.
  apply eqb_false_of_neq in Hv.
  destruct (parseArgs_fields inv a Hparse) as (-> & -> & -> & ->).
  repeat split; intros -> Hnot.
  - pose proof (get_first pre "region" (v :: post) None) as Hg.
    cbn [append] in Hg. rewrite (Hg Hnot). cbn.
    unfold or_else. cbn. rewrite Hv. cbn. rewrite Hv. reflexivity.
  - pose proof (get_first pre "access-stack" (v :: post) None) as Hg.
    cbn [append] in Hg. rewrite (Hg Hnot). cbn.
    rewrite Hv. reflexivity.
  - pose proof (get_first pre "db-stack" (v :: post) None) as Hg.
    cbn [append] in Hg. rewrite (Hg Hnot). cbn.
    rewrite Hv. reflexivity.
  - pose proof (get_first pre "local-port" (v :: post) None) as Hg.
    cbn [append] in Hg. rewrite (Hg Hnot). cbn.
    rewrite Hv. reflexivity.
Qed.

(** X2: a flag that is absent, that is the last word, or whose first
    occurrence is followed by an empty word gives its option the default:
    the region is [AWS_REGION] when that is set and not empty and
    "us-east-1" otherwise, the stack names are the two "-prod" names and
    the local port is 5439. *)
Theorem unusable_flag_falls_back_to_default inv a :
  parseArgs inv = inr a ->
  (unusable (skipn 2 (argv inv)) "--region" ->
   region a = match AWS_REGION inv with
              | Some r => if (r =? "")%string then "us-east-1" else r
              | None => "us-east-1"
              end)
  /\ (unusable (skipn 2 (argv inv)) "--access-stack" ->
      accessStack a = "VersoStat-AccessStack-prod")
  /\ (unusable (skipn 2 (argv inv)) "--db-stack" ->
      dbStack a = "VersoStat-DatabaseStack-prod")
  /\ (unusable (skipn 2 (argv inv)) "--local-port" ->
      localPort a = number_5439).
Proof.
  intros Hparse.
  destruct (parseArgs_fields inv a Hparse) as (-> & -> & -> & ->).
  repeat split; intros Hun.
  - destruct (get_unusable _ "region" Hun) as [-> | ->]; reflexivity.
  - destruct (get_unusable _ "access-stack" Hun) as [-> | ->]; reflexivity.
  - destruct (get_unusable _ "db-stack" Hun) as [-> | ->]; reflexivity.
  - destruct (get_unusable _ "local-port" Hun) as [-> | ->]; reflexivity.
Qed.

(** X3: the two revisions of [parseArgs] accept the same command lines
    and agree on the region and the local port; the stack names they
    return differ only where a default is used, which is
    "VersoStat-AccessStack" / "VersoStat-DatabaseStack" in the earlier
    revision and the same names with "-prod" in the later one. *)
Theorem revisions_differ_only_in_default_stacks inv :
  match parseArgs_v1 inv, parseArgs inv with
  | inl e1, inl e2 => e1 = e2
  | inr a1, inr a2 =>
      region a1 = region a2
      /\ localPort a1 = localPort a2
      /\ (accessStack a1 = accessStack a2
          \/ (accessStack a1 = "VersoStat-AccessStack"
              /\ accessStack a2 = "VersoStat-AccessStack-prod"))
      /\ (dbStack a1 = dbStack a2
          \/ (dbStack a1 = "VersoStat-DatabaseStack"
              /\ dbStack a2 = "VersoStat-DatabaseStack-prod"))
  | _, _ => False
  end.
Proof.
  unfold parseArgs, parseArgs_v1. cbv zeta.
  rewrite (or_literal_nonempty _ "us-east-1" eq_refl).
  rewrite (or_literal_nonempty _ "VersoStat-AccessStack-prod" eq_refl).
  rewrite (or_literal_nonempty _ "VersoStat-DatabaseStack-prod" eq_refl).
  rewrite (or_literal_nonempty _ "VersoStat-AccessStack" eq_refl).
  rewrite (or_literal_nonempty _ "VersoStat-DatabaseStack" eq_refl).
  destruct (not_number _ || isNaN _); [reflexivity|].
  cbn [region accessStack dbStack localPort].
  repeat split.
  - destruct (get _ "access-stack" None) as [s|]; cbn;
      [destruct (s =? "")%string|]; auto.
  - destruct (get _ "db-stack" None) as [s|]; cbn;
      [destruct (s =? "")%string|]; auto.
Qed.

End MoreParseArgsFacts.

(** ** getStackOutput *)

Section LookupFacts.
Context `{JsNumber}.

Lemma find_first A (f : A -> bool) pre x post :
  (forall p, In p pre -> f p = false) -> f x = true ->
  find f (pre ++ x :: post) = Some x.
Proof.
  intros Hpre Hx. induction pre as [|p pre IH]; cbn.
  - rewrite Hx. reflexivity.
  - rewrite (Hpre p (or_introl eq_refl)). apply IH.
    intros q Hq. apply Hpre. right. exact Hq.
Qed.

Lemma key_differs (o : Output) key :
  OutputKey o <> Some key ->
  match OutputKey o with
  | Some k => (k =? key)%string
  | None => false
  end = false.
Proof.
  destruct (OutputKey o) as [k|]; [|reflexivity].
  intros Hne. apply String.eqb_neq. intros ->. apply Hne. reflexivity.
Qed.

Lemma key_matches (o : Output) key :
  match OutputKey o with
  | Some k => (k =? key)%string
  | None => false
  end = true -> OutputKey o = Some key.
Proof.
  destruct (OutputKey o) as [k|]; [|discriminate].
  intros Heq. apply String.eqb_eq in Heq. rewrite Heq. reflexivity.
Qed.

(** X4: whenever [getStackOutput] returns, the value is not empty and is
    the value of an output with the requested key of the first stack of
    the reply to its DescribeStacks request. *)
Theorem getStackOutput_returns_published_value cf stackName key w m v :
  outcome (play (getStackOutput cf stackName key) w m) = Returned v ->
  v <> ""
  /\ exists resp rest stack others outputs o,
      stacks w = Resolved resp :: rest
      /\ Stacks resp = Some (stack :: others)
      /\ Outputs stack = Some outputs
      /\ In o outputs
      /\ OutputKey o = Some key
      /\ OutputValue o = Some v.
Proof.
  destruct w as [ss obs cs ck ks]. unfold getStackOutput. cbn.
  destruct ss as [|[resp|e] rest]; cbn; try discriminate.
  unfold outputValue.
  destruct (Stacks resp) as [[|stack others]|] eqn:Hstacks; cbn;
    try discriminate.
  destruct (Outputs stack) as [outputs|] eqn:Houtputs; cbn;
    try discriminate.
  destruct (find _ outputs) as [o|] eqn:Hfind; cbn; try discriminate.
  destruct (OutputValue o) as [val|] eqn:Hval; cbn; try discriminate.
  destruct (String.eqb_spec val "") as [->|Hne]; cbn; try discriminate.
  intros [= ->]. split; [exact Hne|].
  apply find_some in Hfind. destruct Hfind as [Hin Hkey].
  exists resp, rest, stack, others, outputs, o.
  repeat split; auto using key_matches.
Qed.

(** X5: only the first output with the requested key of the first stack
    counts.  Its value is returned when it is a non-empty string; when it
    has no value or an empty one the call fails with "Output ... not
    found", even if a later output with the same key, or another stack,
    has a value. *)
Theorem first_matching_output_decides
        cf stackName key resp rest stack others pre o post obs cs ck ks m :
  Stacks resp = Some (stack :: others) ->
  Outputs stack = Some (pre ++ o :: post) ->
  (forall p, In p pre -> OutputKey p <> Some key) ->
  OutputKey o = Some key ->
  outcome (play (getStackOutput cf stackName key)
                {| stacks := Resolved resp :: rest; observations := obs;
                   commands := cs; clock := ck; kills := ks |} m)
  = match OutputValue o with
    | Some v => if (v =? "")%string
                then Threw (OutputNotFound key stackName)
                else Returned v
    | None => Threw (OutputNotFound key stackName)
    end.
Proof.
  intros Hstacks Houtputs Hpre Ho. unfold getStackOutput. cbn.
  unfold outputValue. rewrite Hstacks. cbn. rewrite Houtputs. cbn.
  rewrite find_first.
  - cbn. destruct (OutputValue o) as [v|]; [|reflexivity].
    destruct (v =? "")%string; reflexivity.
  - intros p Hp. apply key_differs. apply Hpre. exact Hp.
  - rewrite Ho. apply String.eqb_refl.
Qed.

(** [getStackOutput] as a whole: one request, and what [lookup] makes of
    its settlement. *)
Lemma play_getStackOutput cf stackName key s rest obs cs ck ks m :
  play (getStackOutput cf stackName key)
       {| stacks := s :: rest; observations := obs; commands := cs;
          clock := ck; kills := ks |} m
  = {| outcome := match lookup s stackName key with
                  | inl e => Threw e
                  | inr v => Returned v
                  end;
       effects := [Sent (CfSend cf stackName)];
       final := m;
       remaining := {| stacks := rest; observations := obs;
                       commands := cs; clock := ck; kills := ks |} |}.
Proof.
  unfold getStackOutput, lookup. cbn.
  destruct s as [resp|e]; cbn; [|reflexivity].
  destruct (outputValue resp key) as [[v|]|]; cbn; try reflexivity.
  destruct (v =? "")%string; reflexivity.
Qed.

(** X6: [getStackOutput] sends exactly one request and leaves the memory
    of the script alone.  A rejected request is rethrown as it is; a reply
    without stacks (none, or an empty list) fails with "Stack not found";
    a first stack without outputs, or without an output with the
    requested key, fails with "Output ... not found". *)
Theorem missing_stack_or_output_is_reported
        cf stackName key s rest obs cs ck ks m :
  let r := play (getStackOutput cf stackName key)
                {| stacks := s :: rest; observations := obs;
                   commands := cs; clock := ck; kills := ks |} m in
  effects r = [Sent (CfSend cf stackName)]
  /\ final r = m
  /\ match s with
     | Rejected e => outcome r = Threw e
     | Resolved resp =>
         match Stacks resp with
         | None | Some [] => outcome r = Threw (StackNotFound stackName)
         | Some (stack :: _) =>
             (forall o, In o (match Outputs stack with
                              | Some outputs => outputs
                              | None => []
                              end) -> OutputKey o <> Some key) ->
             outcome r = Threw (OutputNotFound key stackName)
         end
     end.
Proof.
  cbv zeta. rewrite play_getStackOutput. cbn [effects final outcome].
  split; [reflexivity|]. split; [reflexivity|].
  destruct s as [resp|e]; cbn; [|reflexivity].
  unfold outputValue.
  destruct (Stacks resp) as [[|stack others]|]; cbn; try reflexivity.
  destruct (Outputs stack) as [outputs|]; cbn; [|reflexivity].
  intros Hnone.
  destruct (find _ outputs) as [o|] eqn:Hfind; cbn; [|reflexivity].
  apply find_some in Hfind. destruct Hfind as [Hin Hkey].
  exfalso. apply (Hnone o Hin). apply key_matches. exact Hkey.
Qed.

End LookupFacts.

(** ** More on the polling loop *)

Section MorePollFacts.
Context `{JsNumber}.

(** X7: when the reply to DescribeInstances describes no instance (no
    reservation, or a first reservation without instances) the state is
    undefined, and the loop treats it like [stopped]: it prints
    "undefined", announces the start and sends a start request for the
    instance; if that request is rejected the call fails with the
    rejection. *)
Theorem undescribed_instance_is_started
        fuel ec2 id timeoutMs resp ss obs c cs t0 ck ks m :
  shows_no_instance resp = true ->
  let w := {| stacks := ss; observations := Resolved resp :: obs;
              commands := c :: cs; clock := t0 :: ck; kills := ks |} in
  let r := play (ensureInstanceRunning (S fuel) ec2 id timeoutMs) w m in
  stateOf resp = None
  /\ firstn 4 (effects r)
     = [Sent (Ec2Send ec2 (DescribeInstancesCommand id));
        Stdout (CurrentBastionState None);
        Stdout (BastionStarting id None);
        Sent (Ec2Send ec2 (StartInstancesCommand id))]
  /\ match c with
     | Rejected e => outcome r = Threw e
     | Resolved _ => True
     end.
Proof.
  intros Hnone.
  assert (Hstate : stateOf resp = None).
  { unfold shows_no_instance in Hnone. unfold stateOf.
    destruct (Reservations resp) as [[|r rs]|]; cbn; try reflexivity.
    destruct (Instances r) as [[|i more]|]; cbn; try reflexivity.
    discriminate Hnone. }
  cbn. rewrite Hstate. cbn.
  split; [reflexivity|]. split; [reflexivity|].
  destruct c as [[]|e]; cbn; [exact I|reflexivity].
Qed.

(** X8: on an instance that is already running the call is a single
    DescribeInstances request and two lines of output: no start request,
    no pause, no second reading of the clock, the memory untouched. *)
Theorem running_instance_left_alone
        fuel ec2 id timeoutMs resp ss obs cs t0 ck ks m :
  stateOf resp = Some running ->
  let w := {| stacks := ss; observations := Resolved resp :: obs;
              commands := cs; clock := t0 :: ck; kills := ks |} in
  play (ensureInstanceRunning (S fuel) ec2 id timeoutMs) w m
  = {| outcome := Returned tt;
       effects := [Sent (Ec2Send ec2 (DescribeInstancesCommand id));
                   Stdout (CurrentBastionState (Some running));
                   Stdout (BastionIsRunning id)];
       final := m;
       remaining := {| stacks := ss; observations := obs; commands := cs;
                       clock := ck; kills := ks |} |}.
Proof.
  intros Hstate. cbn. rewrite Hstate. reflexivity.
Qed.

(** The loop never writes to the memory of the script. *)
Lemma poll_keeps_memory fuel ec2 id timeoutMs start :
  forall w m, final (play (poll fuel ec2 id timeoutMs start) w m) = m.
Proof.
  induction fuel as [|fuel IH]; intros w m; [reflexivity|].
  destruct w as [ss obs cs ck ks].
  destruct obs as [|[resp|e] obs]; cbn; try reflexivity.
  destruct (stateOf resp) as [[]|] eqn:Hst; cbn; try reflexivity.
  - destruct ck as [|t ck]; cbn; [reflexivity|].
    destruct (t - start >? timeoutMs); cbn; [reflexivity|apply IH].
  - destruct cs as [|[[]|e] cs]; cbn; try reflexivity.
    destruct ck as [|t ck]; cbn; [reflexivity|].
    destruct (t - start >? timeoutMs); cbn; [reflexivity|apply IH].
  - destruct ck as [|t ck]; cbn; [reflexivity|].
    destruct (t - start >? timeoutMs); cbn; [reflexivity|apply IH].
  - destruct cs as [|[[]|e] cs]; cbn; try reflexivity.
    destruct ck as [|t ck]; cbn; [reflexivity|].
    destruct (t - start >? timeoutMs); cbn; [reflexivity|apply IH].
Qed.

Lemma poll_errors fuel ec2 id timeoutMs start e :
  forall w m,
    outcome (play (poll fuel ec2 id timeoutMs start) w m) = Threw e ->
    e = TerminalState id (Some terminated)
    \/ e = TerminalState id (Some shutting_down)
    \/ e = TimedOutStopping id
    \/ e = TimedOutRunning id
    \/ In (Rejected e) (observations w)
    \/ In (Rejected e) (commands w).
Proof.
  induction fuel as [|fuel IH]; intros w m; [discriminate|].
  destruct w as [ss obs cs ck ks].
  destruct obs as [|[resp|e0] obs]; cbn; try discriminate.
  - destruct (stateOf resp) as [[]|] eqn:Hst; cbn; try discriminate.
    + destruct ck as [|t ck]; cbn; [discriminate|].
      destruct (t - start >? timeoutMs); cbn.
      * intros [= <-]. auto.
      * intros Hrest. apply IH in Hrest. cbn in Hrest. intuition.
    + intros [= <-]. auto.
    + destruct cs as [|[[]|e1] cs]; cbn; try discriminate.
      * destruct ck as [|t ck]; cbn; [discriminate|].
        destruct (t - start >? timeoutMs); cbn.
        -- intros [= <-]. auto.
        -- intros Hrest. apply IH in Hrest. cbn in Hrest. intuition.
      * intros [= <-]. auto 7.
    + destruct ck as [|t ck]; cbn; [discriminate|].
      destruct (t - start >? timeoutMs); cbn.
      * intros [= <-]. auto.
      * intros Hrest. apply IH in Hrest. cbn in Hrest. intuition.
    + intros [= <-]. auto.
    + destruct cs as [|[[]|e1] cs]; cbn; try discriminate.
      * destruct ck as [|t ck]; cbn; [discriminate|].
        destruct (t - start >? timeoutMs); cbn.
        -- intros [= <-]. auto.
        -- intros Hrest. apply IH in Hrest. cbn in Hrest. intuition.
      * intros [= <-]. auto 7.
  - intros [= <-]. auto 7.
Qed.

(** X9: the only errors [ensureInstanceRunning] throws are the
    terminal-state error (for [terminated] or [shutting-down]), its two
    timeout errors, and the rejection of one of its own requests, which
    it rethrows without retrying. *)
Theorem ensureInstanceRunning_errors fuel ec2 id timeoutMs w m e :
  outcome (play (ensureInstanceRunning fuel ec2 id timeoutMs) w m)
  = Threw e ->
  e = TerminalState id (Some terminated)
  \/ e = TerminalState id (Some shutting_down)
  \/ e = TimedOutStopping id
  \/ e = TimedOutRunning id
  \/ In (Rejected e) (observations w)
  \/ In (Rejected e) (commands w).
Proof.
  destruct w as [ss obs cs ck ks].
  destruct ck as [|t ck]; cbn; [discriminate|].
  intros Hthrow. apply poll_errors in Hthrow. exact Hthrow.
Qed.

(** The call is the loop entered with the first reading of the clock. *)
Lemma play_ensureInstanceRunning fuel ec2 id timeoutMs ss obs cs t ck ks m :
  play (ensureInstanceRunning fuel ec2 id timeoutMs)
       {| stacks := ss; observations := obs; commands := cs;
          clock := t :: ck; kills := ks |} m
  = play (poll fuel ec2 id timeoutMs t)
         {| stacks := ss; observations := obs; commands := cs;
            clock := ck; kills := ks |} m.
Proof. unfold ensureInstanceRunning. cbn. apply emit_nil. Qed.

Lemma poll_start_per_stopped_poll fuel ec2 id timeoutMs start :
  forall w m,
    let es := effects (play (poll fuel ec2 id timeoutMs start) w m) in
    count is_start es
    = List.length (filter (fun s => may_start (Some s)) (printed_states es)).
Proof.
  induction fuel as [|fuel IH]; intros w m; [reflexivity|].
  destruct w as [ss obs cs ck ks].
  destruct obs as [|[resp|e] obs]; cbn; try reflexivity.
  destruct (stateOf resp) as [[]|] eqn:Hst; cbn; try reflexivity.
  - destruct ck as [|t ck]; cbn; [reflexivity|].
    destruct (t - start >? timeoutMs); cbn; [reflexivity|apply IH].
  - destruct cs as [|[[]|e] cs]; cbn; try reflexivity.
    destruct ck as [|t ck]; cbn; [reflexivity|].
    destruct (t - start >? timeoutMs); cbn; [reflexivity|].
    f_equal. apply IH.
  - destruct ck as [|t ck]; cbn; [reflexivity|].
    destruct (t - start >? timeoutMs); cbn; [reflexivity|apply IH].
  - destruct cs as [|[[]|e] cs]; cbn; try reflexivity.
    destruct ck as [|t ck]; cbn; [reflexivity|].
    destruct (t - start >? timeoutMs); cbn; [reflexivity|].
    f_equal. apply IH.
Qed.

(** X10: a start request is sent by every iteration that prints
    [stopped] or undefined, and by no other: the number of start requests
    of a call is the number of such states it has printed.  An instance
    that stays [stopped] is asked to start again on every poll. *)
Theorem start_sent_on_every_stopped_poll fuel ec2 id timeoutMs w m :
  let es :=
    effects (play (ensureInstanceRunning fuel ec2 id timeoutMs) w m) in
  count is_start es
  = List.length (filter (fun s => is_state s stopped || is_undefined s)
                        (printed_states es)).
Proof.
  destruct w as [ss obs cs ck ks].
  destruct ck as [|t ck]; [reflexivity|].
  rewrite play_ensureInstanceRunning. cbv zeta.
  rewrite (poll_start_per_stopped_poll fuel ec2 id timeoutMs t).
  f_equal. apply filter_ext. intros [[]|]; reflexivity.
Qed.

Lemma poll_success fuel ec2 id timeoutMs start :
  forall w m,
    let r := play (poll fuel ec2 id timeoutMs start) w m in
    outcome r = Returned tt ->
    exists waited,
      printed_states (effects r) = waited ++ [Some running]
      /\ forallb waits_on waited = true
      /\ filter is_sleep (effects r)
         = repeat (Sent (SetTimeout 5000)) (List.length waited)
      /\ count is_describe (effects r) = S (List.length waited)
      /\ map observed (firstn (S (List.length waited)) (observations w))
         = map Some (waited ++ [Some running]).
Proof.
  induction fuel as [|fuel IH]; intros w m; [discriminate|].
  destruct w as [ss obs cs ck ks].
  destruct obs as [|[resp|e] obs]; cbn; try discriminate.
  destruct (stateOf resp) as [[]|] eqn:Hst; cbn; try discriminate.
  - destruct ck as [|t ck]; cbn; [discriminate|].
    destruct (t - start >? timeoutMs); cbn; [discriminate|].
    intros Hret. apply IH in Hret.
    destruct Hret as (waited & Hp & Hw & Hs & Hd & Ho).
    exists (Some pending :: waited). poll_success_step Hp Hw Hs Hd Ho Hst.
  - intros _. exists []. cbn. rewrite ?Hst. repeat split; reflexivity.
  - destruct cs as [|[[]|e] cs]; cbn; try discriminate.
    destruct ck as [|t ck]; cbn; [discriminate|].
    destruct (t - start >? timeoutMs); cbn; [discriminate|].
    intros Hret. apply IH in Hret.
    destruct Hret as (waited & Hp & Hw & Hs & Hd & Ho).
    exists (Some stopped :: waited). poll_success_step Hp Hw Hs Hd Ho Hst.
  - destruct ck as [|t ck]; cbn; [discriminate|].
    destruct (t - start >? timeoutMs); cbn; [discriminate|].
    intros Hret. apply IH in Hret.
    destruct Hret as (waited & Hp & Hw & Hs & Hd & Ho).
    exists (Some stopping :: waited). poll_success_step Hp Hw Hs Hd Ho Hst.
  - destruct cs as [|[[]|e] cs]; cbn; try discriminate.
    destruct ck as [|t ck]; cbn; [discriminate|].
    destruct (t - start >? timeoutMs); cbn; [discriminate|].
    intros Hret. apply IH in Hret.
    destruct Hret as (waited & Hp & Hw & Hs & Hd & Ho).
    exists (None :: waited). poll_success_step Hp Hw Hs Hd Ho Hst.
Qed.

(** X11: when the call returns, the last state it has printed is
    [running], every state before it is one the loop waits on, and each of
    those iterations was followed by one pause of 5000 ms: the requests
    are one DescribeInstances per printed state, the printed states are
    the injected observations in order, and the memory is as before. *)
Theorem success_means_running_was_observed fuel ec2 id timeoutMs w m :
  let r := play (ensureInstanceRunning fuel ec2 id timeoutMs) w m in
  outcome r = Returned tt ->
  exists waited,
    printed_states (effects r) = waited ++ [Some running]
    /\ forallb waits_on waited = true
    /\ filter is_sleep (effects r)
       = repeat (Sent (SetTimeout 5000)) (List.length waited)
    /\ count is_describe (effects r) = S (List.length waited)
    /\ map observed (firstn (S (List.length waited)) (observations w))
       = map Some (waited ++ [Some running])
    /\ final r = m.
Proof.
  destruct w as [ss obs cs ck ks].
  destruct ck as [|t ck]; [discriminate|].
  rewrite play_ensureInstanceRunning. cbv zeta. intros Hret.
  destruct (poll_success fuel ec2 id timeoutMs t _ _ Hret)
    as (waited & Hp & Hw & Hs & Hd & Ho).
  exists waited. repeat split; auto.
  apply poll_keeps_memory.
Qed.

(** More fuel changes nothing once the loop has ended. *)
Lemma poll_more_fuel fuel ec2 id timeoutMs start :
  forall w m,
    outcome (play (poll fuel ec2 id timeoutMs start) w m) <> Unfinished ->
    play (poll (S fuel) ec2 id timeoutMs start) w m
    = play (poll fuel ec2 id timeoutMs start) w m.
Proof.
  induction fuel as [|fuel IH]; intros w m Hdone;
    [exfalso; apply Hdone; reflexivity|].
  revert Hdone.
  destruct w as [ss obs cs ck ks].
  destruct obs as [|[resp|e] obs]; cbn; try reflexivity.
  destruct (stateOf resp) as [[]|] eqn:Hst; cbn; try reflexivity.
  - destruct ck as [|t ck]; cbn; [reflexivity|].
    destruct (t - start >? timeoutMs); cbn; [reflexivity|].
    intros Hdone. rewrite <- (IH _ _ Hdone). reflexivity.
  - destruct cs as [|[[]|e] cs]; cbn; try reflexivity.
    destruct ck as [|t ck]; cbn; [reflexivity|].
    destruct (t - start >? timeoutMs); cbn; [reflexivity|].
    intros Hdone. rewrite <- (IH _ _ Hdone). reflexivity.
  - destruct ck as [|t ck]; cbn; [reflexivity|].
    destruct (t - start >? timeoutMs); cbn; [reflexivity|].
    intros Hdone. rewrite <- (IH _ _ Hdone). reflexivity.
  - destruct cs as [|[[]|e] cs]; cbn; try reflexivity.
    destruct ck as [|t ck]; cbn; [reflexivity|].
    destruct (t - start >? timeoutMs); cbn; [reflexivity|].
    intros Hdone. rewrite <- (IH _ _ Hdone). reflexivity.
Qed.

Lemma poll_fuel_enough extra fuel ec2 id timeoutMs start w m :
  outcome (play (poll fuel ec2 id timeoutMs start) w m) <> Unfinished ->
  play (poll (extra + fuel) ec2 id timeoutMs start) w m
  = play (poll fuel ec2 id timeoutMs start) w m.
Proof.
  intros Hdone. induction extra as [|extra IH]; [reflexivity|].
  cbn [Nat.add]. rewrite poll_more_fuel; [exact IH|].
  rewrite IH. exact Hdone.
Qed.

(** Each iteration makes one DescribeInstances request. *)
Lemma poll_describes_bound fuel ec2 id timeoutMs start :
  forall w m,
    (count is_describe (effects (play (poll fuel ec2 id timeoutMs start) w m))
     <= fuel)%nat.
Proof.
  unfold count.
  induction fuel as [|fuel IH]; intros w m; [cbn; lia|].
  destruct w as [ss obs cs ck ks].
  destruct obs as [|[resp|e] obs]; cbn; try lia.
  destruct (stateOf resp) as [[]|] eqn:Hst; cbn; try lia.
  - destruct ck as [|t ck]; cbn; [lia|].
    destruct (t - start >? timeoutMs); cbn; [lia|].
    apply le_n_S. apply IH.
  - destruct cs as [|[[]|e] cs]; cbn; try lia.
    destruct ck as [|t ck]; cbn; [lia|].
    destruct (t - start >? timeoutMs); cbn; [lia|].
    apply le_n_S. apply IH.
  - destruct ck as [|t ck]; cbn; [lia|].
    destruct (t - start >? timeoutMs); cbn; [lia|].
    apply le_n_S. apply IH.
  - destruct cs as [|[[]|e] cs]; cbn; try lia.
    destruct ck as [|t ck]; cbn; [lia|].
    destruct (t - start >? timeoutMs); cbn; [lia|].
    apply le_n_S. apply IH.
Qed.

(** Under a clock that advances with the pauses, the loop has ended by
    the time the pauses add up to more than the deadline. *)
Lemma poll_ends fuel ec2 id timeoutMs start :
  forall elapsed w m,
    advancing start elapsed (clock w) = true ->
    (1 <= fuel)%nat ->
    timeoutMs < elapsed + 5000 * (Z.of_nat fuel - 1) ->
    outcome (play (poll fuel ec2 id timeoutMs start) w m) <> Unfinished.
Proof.
  induction fuel as [|fuel IH]; intros elapsed w m Hclock Hfuel Hlate;
    [lia|].
  destruct w as [ss obs cs ck ks]. cbn [clock] in Hclock.
  assert (Hwait : forall t ck',
             ck = t :: ck' -> (t - start >? timeoutMs) = false ->
             advancing start (elapsed + 5000) ck' = true
             /\ (1 <= fuel)%nat
             /\ timeoutMs < elapsed + 5000 + 5000 * (Z.of_nat fuel - 1)).
  { intros t ck' -> Hin. cbn in Hclock.
    apply andb_prop in Hclock. destruct Hclock as [Hle Hrest].
    apply Z.leb_le in Hle.
    rewrite Z.gtb_ltb in Hin. apply Z.ltb_ge in Hin.
    split; [exact Hrest|]. lia. }
  destruct obs as [|[resp|e] obs]; cbn; try discriminate.
  destruct (stateOf resp) as [[]|] eqn:Hst; cbn; try discriminate.
  - destruct ck as [|t ck]; cbn; [discriminate|].
    destruct (t - start >? timeoutMs) eqn:Hin; cbn; [discriminate|].
    destruct (Hwait t ck eq_refl Hin) as (Hc & Hf & Hl).
    apply (IH (elapsed + 5000)
             {| stacks := ss; observations := obs; commands := cs;
                clock := ck; kills := ks |} m Hc Hf Hl).
  - destruct cs as [|[[]|e] cs]; cbn; try discriminate.
    destruct ck as [|t ck]; cbn; [discriminate|].
    destruct (t - start >? timeoutMs) eqn:Hin; cbn; [discriminate|].
    destruct (Hwait t ck eq_refl Hin) as (Hc & Hf & Hl).
    apply (IH (elapsed + 5000)
             {| stacks := ss; observations := obs; commands := cs;
                clock := ck; kills := ks |} m Hc Hf Hl).
  - destruct ck as [|t ck]; cbn; [discriminate|].
    destruct (t - start >? timeoutMs) eqn:Hin; cbn; [discriminate|].
    destruct (Hwait t ck eq_refl Hin) as (Hc & Hf & Hl).
    apply (IH (elapsed + 5000)
             {| stacks := ss; observations := obs; commands := cs;
                clock := ck; kills := ks |} m Hc Hf Hl).
  - destruct cs as [|[[]|e] cs]; cbn; try discriminate.
    destruct ck as [|t ck]; cbn; [discriminate|].
    destruct (t - start >? timeoutMs) eqn:Hin; cbn; [discriminate|].
    destruct (Hwait t ck eq_refl Hin) as (Hc & Hf & Hl).
    apply (IH (elapsed + 5000)
             {| stacks := ss; observations := obs; commands := cs;
                clock := ck; kills := ks |} m Hc Hf Hl).
Qed.

Lemma enough_polls_late timeoutMs :
  timeoutMs < 0 + 5000 * (Z.of_nat (enough_polls timeoutMs) - 1).
Proof.
  unfold enough_polls.
  pose proof (Z.mul_succ_div_gt timeoutMs 5000 ltac:(lia)) as Hdiv.
  lia.
Qed.

(** X12: under a clock on which each pause of the loop lasts at least
    its five seconds, the loop ends (returns, throws or runs out of
    injected answers) within [timeoutMs / 5000 + 2] iterations: from that
    bound on the unrolling of the loop no longer matters, and no more
    DescribeInstances requests than that are sent.  With the default
    deadline of five minutes this is 62 requests. *)
Theorem polling_ends_within_deadline
        fuel ec2 id timeoutMs ss obs cs t0 ck ks m :
  advancing t0 0 ck = true ->
  (enough_polls timeoutMs <= fuel)%nat ->
  let w := {| stacks := ss; observations := obs; commands := cs;
              clock := t0 :: ck; kills := ks |} in
  let r := play (ensureInstanceRunning fuel ec2 id timeoutMs) w m in
  outcome r <> Unfinished
  /\ r = play (ensureInstanceRunning (enough_polls timeoutMs) ec2 id
                                     timeoutMs) w m
  /\ (count is_describe (effects r) <= enough_polls timeoutMs)%nat.
Proof.
  intros Hclock Hfuel. cbv zeta. rewrite !play_ensureInstanceRunning.
  set (w := {| stacks := ss; observations := obs; commands := cs;
               clock := ck; kills := ks |}).
  assert (Hdone : outcome (play (poll (enough_polls timeoutMs) ec2 id
                                      timeoutMs t0) w m) <> Unfinished).
  { apply (poll_ends _ ec2 id timeoutMs t0 0 w m Hclock).
    - unfold enough_polls. lia.
    - apply enough_polls_late. }
  replace fuel with ((fuel - enough_polls timeoutMs)
                     + enough_polls timeoutMs)%nat by lia.
  rewrite (poll_fuel_enough _ _ ec2 id timeoutMs t0 w m Hdone).
  split; [exact Hdone|]. split; [reflexivity|].
  apply poll_describes_bound.
Qed.

Lemma poll_timeout_late fuel ec2 id timeoutMs start e :
  forall w m,
    outcome (play (poll fuel ec2 id timeoutMs start) w m) = Threw e ->
    is_timeout e = true ->
    (exists t, In t (clock w) /\ t - start > timeoutMs)
    \/ In (Rejected e) (observations w)
    \/ In (Rejected e) (commands w).
Proof.
  induction fuel as [|fuel IH]; intros w m; [discriminate|].
  destruct w as [ss obs cs ck ks].
  destruct obs as [|[resp|e0] obs]; cbn; try discriminate.
  - destruct (stateOf resp) as [[]|] eqn:Hst; cbn; try discriminate.
    + destruct ck as [|t ck]; cbn; [discriminate|].
      destruct (t - start >? timeoutMs) eqn:Hlate; cbn.
      * intros _ _. left. exists t. split; [left; reflexivity|].
        apply Z.gtb_gt. exact Hlate.
      * intros Hrest Ht. destruct (IH _ _ Hrest Ht) as [Hc|[Ho|Hc]];
          cbn in *; [|auto|auto].
        destruct Hc as (t' & Hin & Ht'). left. exists t'. auto.
    + intros [= <-]. discriminate.
    + destruct cs as [|[[]|e1] cs]; cbn; try discriminate.
      * destruct ck as [|t ck]; cbn; [discriminate|].
        destruct (t - start >? timeoutMs) eqn:Hlate; cbn.
        -- intros _ _. left. exists t. split; [left; reflexivity|].
           apply Z.gtb_gt. exact Hlate.
        -- intros Hrest Ht. destruct (IH _ _ Hrest Ht) as [Hc|[Ho|Hc]];
             cbn in *; [|auto|auto].
           destruct Hc as (t' & Hin & Ht'). left. exists t'. auto.
      * intros [= <-] _. auto.
    + destruct ck as [|t ck]; cbn; [discriminate|].
      destruct (t - start >? timeoutMs) eqn:Hlate; cbn.
      * intros _ _. left. exists t. split; [left; reflexivity|].
        apply Z.gtb_gt. exact Hlate.
      * intros Hrest Ht. destruct (IH _ _ Hrest Ht) as [Hc|[Ho|Hc]];
          cbn in *; [|auto|auto].
        destruct Hc as (t' & Hin & Ht'). left. exists t'. auto.
    + intros [= <-]. discriminate.
    + destruct cs as [|[[]|e1] cs]; cbn; try discriminate.
      * destruct ck as [|t ck]; cbn; [discriminate|].
        destruct (t - start >? timeoutMs) eqn:Hlate; cbn.
        -- intros _ _. left. exists t. split; [left; reflexivity|].
           apply Z.gtb_gt. exact Hlate.
        -- intros Hrest Ht. destruct (IH _ _ Hrest Ht) as [Hc|[Ho|Hc]];
             cbn in *; [|auto|auto].
           destruct Hc as (t' & Hin & Ht'). left. exists t'. auto.
      * intros [= <-] _. auto.
  - intros [= <-] _. auto.
Qed.

(** X13: the call never times out early.  When it fails with one of its
    two timeout errors, a reading of the clock taken inside the loop was
    more than [timeoutMs] after the reading taken before it (unless the
    very same error was the rejection of one of its requests). *)
Theorem timeout_only_after_deadline
        fuel ec2 id timeoutMs ss obs cs t0 ck ks m e :
  outcome (play (ensureInstanceRunning fuel ec2 id timeoutMs)
                {| stacks := ss; observations := obs; commands := cs;
                   clock := t0 :: ck; kills := ks |} m) = Threw e ->
  is_timeout e = true ->
  (exists t, In t ck /\ t - t0 > timeoutMs)
  \/ In (Rejected e) obs
  \/ In (Rejected e) cs.
Proof.
  rewrite play_ensureInstanceRunning. intros Hthrow Hkind.
  apply (poll_timeout_late fuel ec2 id timeoutMs t0 e _ m Hthrow Hkind).
Qed.

End MorePollFacts.

(** ** The successful start-up *)

Section MorePlayFacts.
Context `{JsNumber}.

(** Sequencing: when what precedes returns, what follows runs in the world
    and memory it leaves. *)
Lemma play_bind_returned A B (t : Async A) (f : A -> Async B) a :
  forall w m,
    outcome (play t w m) = Returned a ->
    play (bind t f) w m
    = emit (effects (play t w m))
           (play (f a) (remaining (play t w m)) (final (play t w m))).
Proof.
  induction t as [a0|e0|c|op k IH|rq k IH|]; intros w m; cbn;
    try discriminate.
  - intros [= ->]. symmetry. apply emit_nil.
  - destruct (draw op w) as [[x w']|]; [|discriminate].
    destruct (perform op x m) as [[r m'] es]. cbn. intros Hret.
    rewrite (IH r w' m' Hret). rewrite emit_emit. reflexivity.
  - destruct (answer rq w) as [[s w']|]; [|discriminate].
    cbn. intros Hret. rewrite (IH s w' m Hret). rewrite emit_emit.
    reflexivity.
Qed.

Lemma ensureInstanceRunning_keeps_memory fuel ec2 id timeoutMs w m :
  final (play (ensureInstanceRunning fuel ec2 id timeoutMs) w m) = m.
Proof.
  destruct w as [ss obs cs ck ks]. destruct ck as [|t ck]; [reflexivity|].
  rewrite play_ensureInstanceRunning. apply poll_keeps_memory.
Qed.

(** X14: the successful start-up.  When the arguments are accepted, both
    lookups succeed and [ensureInstanceRunning] returns, [main] waits
    10000 ms, prints the parameters, spawns [aws ssm start-session] with
    the region, the bastion id as target, the port-forwarding document and
    the JSON parameters (host: the database endpoint, port 5432, the local
    port), keeps the child in [childGlobal], registers the exit listener
    for the same client and instance as the two globals, and returns. *)
Theorem main_establishes_session
        fuel inv args r1 r2 bastionId dbEndpoint ss obs cs ck ks m :
  parseArgs inv = inr args ->
  lookup (Resolved r1) (accessStack args) "VersoStatBastionInstanceId"
  = inr bastionId ->
  lookup (Resolved r2) (dbStack args) "VersoStatDbHost" = inr dbEndpoint ->
  let cf := {| cf_region := region args |} in
  let ec2 := {| ec2_region := region args |} in
  let polling :=
    play (ensureInstanceRunning fuel ec2 bastionId default_timeoutMs)
         {| stacks := ss; observations := obs; commands := cs;
            clock := ck; kills := ks |}
         {| ec2Global := Some ec2; bastionIdGlobal := Some bastionId;
            childGlobal := childGlobal m; child := child m;
            exitListener := exitListener m |} in
  outcome polling = Returned tt ->
  let r := play (script fuel inv)
                {| stacks := Resolved r1 :: Resolved r2 :: ss;
                   observations := obs; commands := cs; clock := ck;
                   kills := ks |} m in
  outcome r = Returned tt
  /\ effects r
     = Sent (CfSend cf (accessStack args))
       :: Sent (CfSend cf (dbStack args))
       :: effects polling
       ++ [Sent (SetTimeout 10000);
           Stdout (PortForwardParameters (region args) bastionId dbEndpoint
                                         (localPort args));
           Spawned "aws"
             [Word "ssm"; Word "start-session";
              Word "--region"; Word (region args);
              Word "--target"; Word bastionId;
              Word "--document-name";
              Word "AWS-StartPortForwardingSessionToRemoteHost";
              Word "--parameters";
              Json {| host := [dbEndpoint]; portNumber := ["5432"];
                      localPortNumber := [localPort args] |}];
           Stdout (WhenConnected (localPort args))]
  /\ final r
     = {| ec2Global := Some ec2; bastionIdGlobal := Some bastionId;
          childGlobal := Some TunnelChild;
          child := Some {| killed := false; exited := false |};
          exitListener := Some (ec2, bastionId) |}
  /\ remaining r = remaining polling.
Proof.
  intros Hargs H1 H2 cf ec2 polling Hret.
  assert (Hmain :
    play (main fuel inv)
         {| stacks := Resolved r1 :: Resolved r2 :: ss;
            observations := obs; commands := cs; clock := ck;
            kills := ks |} m
    = {| outcome := Returned tt;
         effects :=
           Sent (CfSend cf (accessStack args))
           :: Sent (CfSend cf (dbStack args))
           :: effects polling
           ++ [Sent (SetTimeout 10000);
               Stdout (PortForwardParameters (region args) bastionId
                                             dbEndpoint (localPort args));
               Spawned "aws"
                 [Word "ssm"; Word "start-session";
                  Word "--region"; Word (region args);
                  Word "--target"; Word bastionId;
                  Word "--document-name";
                  Word "AWS-StartPortForwardingSessionToRemoteHost";
                  Word "--parameters";
                  Json {| host := [dbEndpoint]; portNumber := ["5432"];
                          localPortNumber := [localPort args] |}];
               Stdout (WhenConnected (localPort args))];
         final :=
           {| ec2Global := Some ec2; bastionIdGlobal := Some bastionId;
              childGlobal := Some TunnelChild;
              child := Some {| killed := false; exited := false |};
              exitListener := Some (ec2, bastionId) |};
         remaining := remaining polling |}).
  { unfold main. rewrite Hargs. cbn -[ensureInstanceRunning].
    unfold lookup in H1, H2.
    destruct (outputValue r1 _) as [[v1|]|]; try discriminate H1.
    destruct (v1 =? "")%string; [discriminate H1|].
    injection H1 as ->. cbn -[ensureInstanceRunning].
    destruct (outputValue r2 _) as [[v2|]|]; try discriminate H2.
    destruct (v2 =? "")%string; [discriminate H2|].
    injection H2 as ->. cbn -[ensureInstanceRunning].
    rewrite (play_bind_returned _ _ _ _ tt _ _ Hret).
    fold ec2 polling.
    pose proof (ensureInstanceRunning_keeps_memory fuel ec2 bastionId
                  default_timeoutMs
                  {| stacks := ss; observations := obs; commands := cs;
                     clock := ck; kills := ks |}
                  {| ec2Global := Some ec2;
                     bastionIdGlobal := Some bastionId;
                     childGlobal := childGlobal m; child := child m;
                     exitListener := exitListener m |}) as Hmem.
    fold polling in Hmem. rewrite Hmem. clearbody polling.
    cbn. rewrite !emit_emit. unfold emit, finish.
    cbn [outcome effects final remaining]. f_equal.
    rewrite <- !app_assoc. cbn [app]. reflexivity. }
  cbv zeta. unfold script. rewrite play_try_catch, Hmain. cbn.
  repeat split; reflexivity.
Qed.

End MorePlayFacts.

(** ** More on signals and the exit of the child *)

Section MoreLoopFacts.
Context `{JsNumber}.

Lemma forced_some o : happens o = true -> o = Some (forced o).
Proof. destruct o; [reflexivity|discriminate]. Qed.

(** Loading the script with acceptable arguments: [main] runs up to its
    first lookup. *)
Lemma boot_accepted env fuel inv a :
  parseArgs inv = inr a ->
  exists k,
    boot env fuel inv
    = Some {| memory := fresh;
              tasks := [Some {| awaited :=
                                  CfSend {| cf_region := region a |}
                                         (accessStack a);
                                resume := k |}];
              exitCode := None;
              output := [Sent (CfSend {| cf_region := region a |}
                                      (accessStack a))];
              unhandled := [] |}
    /\ forall env' s id,
        lookup s (accessStack a) "VersoStatBastionInstanceId" = inr id ->
        exists k',
          turn env' (k s) fresh
          = {| pause := Waiting {| awaited :=
                                     CfSend {| cf_region := region a |}
                                            (dbStack a);
                                   resume := k' |};
               said := [Sent (CfSend {| cf_region := region a |}
                                     (dbStack a))];
               mem := {| ec2Global := Some {| ec2_region := region a |};
                         bastionIdGlobal := Some id;
                         childGlobal := None; child := None;
                         exitListener := None |} |}.
Proof.
  intros Hargs. unfold boot, activate, script, main. rewrite Hargs. cbn.
  eexists. split; [reflexivity|].
  intros env' s id Hlookup. unfold lookup in Hlookup.
  destruct s as [resp|e]; [|discriminate Hlookup]. cbn.
  destruct (outputValue resp _) as [[v|]|]; try discriminate Hlookup.
  destruct (v =? "")%string; [discriminate Hlookup|].
  injection Hlookup as ->. cbn. eexists. reflexivity.
Qed.

(** [cleanupAndExit] on a memory in which nothing has been set yet. *)
Lemma turn_cleanup_fresh env code :
  turn env (cleanupAndExit code) fresh
  = {| pause := Quit code;
       said := [Called (call_cleanupAndExit code); Exited code];
       mem := fresh |}.
Proof. reflexivity. Qed.

(** X15: a signal that arrives while the first lookup is still pending
    finds nothing to stop: the process exits at once with the code of the
    signal, having sent nothing but the lookup request, and no later event
    is handled. *)
Theorem signal_during_first_lookup_exits_at_once env fuel inv a env' sig :
  parseArgs inv = inr a ->
  exists st st1,
    boot env fuel inv = Some st
    /\ output st = [Sent (CfSend {| cf_region := region a |}
                                 (accessStack a))]
    /\ step env' st (SignalReceived sig) = Some st1
    /\ output st1 = output st
                    ++ [Called (call_cleanupAndExit (signal_code sig));
                        Exited (signal_code sig)]
    /\ status st1 = Terminated (signal_code sig)
    /\ memory st1 = fresh
    /\ forall env'' ev, step env'' st1 ev = None.
Proof.
  intros Hargs.
  destruct (boot_accepted env fuel inv a Hargs) as (k & Hboot & _).
  rewrite Hboot. eexists. eexists. split; [reflexivity|].
  split; [reflexivity|].
  unfold step. cbn [status exitCode tasks memory settled_all forallb andb].
  rewrite on_signal_code. unfold activate. cbn [memory].
  rewrite turn_cleanup_fresh. cbn.
  repeat split; reflexivity.
Qed.

(** X16: as soon as the first lookup has succeeded the teardown is
    armed.  A signal that arrives then, while the second lookup is still
    pending, sends a stop request for the bastion although the script has
    neither polled nor started it. *)
Theorem signal_after_first_lookup_stops_bastion
        env fuel inv a env1 s id env2 sig :
  parseArgs inv = inr a ->
  lookup s (accessStack a) "VersoStatBastionInstanceId" = inr id ->
  let cf := {| cf_region := region a |} in
  let ec2 := {| ec2_region := region a |} in
  exists st0 st1 st2,
    boot env fuel inv = Some st0
    /\ step env1 st0 (Settle 0 (StacksDescribed s)) = Some st1
    /\ step env2 st1 (SignalReceived sig) = Some st2
    /\ output st2
       = [Sent (CfSend cf (accessStack a));
          Sent (CfSend cf (dbStack a));
          Called (call_cleanupAndExit (signal_code sig));
          Stdout StoppingBastionBeforeExit;
          Called (call_stopInstance id);
          Stdout (StoppingBastion id);
          Sent (Ec2Send ec2 (StopInstancesCommand id))]
    /\ count is_lifecycle (output st2) = 0%nat
    /\ status st2 = Running.
Proof.
  intros Hargs Hlookup cf ec2.
  destruct (boot_accepted env fuel inv a Hargs) as (k & Hboot & Hnext).
  destruct (Hnext env1 s id Hlookup) as (k' & Hturn).
  assert (Hid : (id =? "")%string = false).
  { unfold lookup in Hlookup. destruct s as [resp|e]; [|discriminate].
    destruct (outputValue resp _) as [[v|]|]; try discriminate.
    destruct (v =? "")%string eqn:Hv; [discriminate|].
    injection Hlookup as <-. exact Hv. }
  rewrite Hboot. eexists. eexists. eexists. split; [reflexivity|].
  split.
  { unfold step. cbn [status exitCode tasks memory settled_all forallb
                      andb nth_error awaited deliver resume].
    unfold activate. cbn [memory]. rewrite Hturn. cbn. reflexivity. }
  split.
  { rewrite (signal_arms_teardown env2 _ sig ec2 id); try reflexivity;
      exact Hid. }
  cbn. repeat split; reflexivity.
Qed.

(** What the guarded [kill] does to a child that is alive and has not been
    signalled yet. *)
Lemma teardown_kill_alive env m h c :
  childGlobal m = Some h -> child m = Some c ->
  killed c = false -> exited c = false ->
  teardown_kill env m
  = ([Kill SIGINT (env_kill env)],
     match env_kill env with
     | KillSent => with_child m (Some {| killed := true; exited := false |})
     | _ => m
     end).
Proof.
  intros Hh Hc Hk Hx. unfold teardown_kill. rewrite Hh, Hc, Hk. cbn.
  rewrite Hc, Hx. destruct (env_kill env); reflexivity.
Qed.

(** X17: whatever [kill] does (delivers the signal, returns false or
    throws), a teardown on a live child sends SIGINT to it first and the
    stop request after; an exception of [kill] is swallowed and leaves no
    unhandled rejection.  The child counts as killed only when the signal
    was delivered. *)
Theorem failing_kill_does_not_block_stop env st sig ec2 id h c :
  status st = Running ->
  ec2Global (memory st) = Some ec2 ->
  bastionIdGlobal (memory st) = Some id ->
  (id =? "")%string = false ->
  childGlobal (memory st) = Some h ->
  child (memory st) = Some c -> killed c = false -> exited c = false ->
  exists st1,
    step env st (SignalReceived sig) = Some st1
    /\ output st1
       = output st
         ++ [Called (call_cleanupAndExit (signal_code sig));
             Kill SIGINT (env_kill env);
             Stdout StoppingBastionBeforeExit;
             Called (call_stopInstance id);
             Stdout (StoppingBastion id);
             Sent (Ec2Send ec2 (StopInstancesCommand id))]
    /\ unhandled st1 = unhandled st
    /\ child (memory st1)
       = Some {| killed := match env_kill env with
                           | KillSent => true
                           | _ => false
                           end;
                 exited := false |}
    /\ tasks st1
       = tasks st ++ [Some (stop_in_cleanup ec2 id (signal_code sig))]
    /\ status st1 = Running.
Proof.
  intros Hrun He Hb Hid Hh Hc Hk Hx.
  rewrite (signal_arms_teardown env st sig ec2 id Hrun He Hb Hid).
  rewrite (teardown_kill_alive env (memory st) h c Hh Hc Hk Hx).
  eexists. split; [reflexivity|]. cbn [output unhandled memory tasks fst snd].
  repeat split.
  - destruct c as [k x]. cbn in Hk, Hx. subst k x.
    destruct (env_kill env); cbn; try reflexivity; exact Hc.
  - rewrite (running_no_exit st Hrun). apply waiting_is_running.
Qed.

(** X18: one signal on an established session, followed by the exit of
    the child, leads to two stop requests: one sent by [cleanupAndExit]
    and one by the exit listener, both pending at the same time. *)
Theorem interrupt_then_child_exit_stops_twice
        env env' st sig code h c ec2 id ec2' id' :
  status st = Running ->
  ec2Global (memory st) = Some ec2 ->
  bastionIdGlobal (memory st) = Some id ->
  (id =? "")%string = false ->
  childGlobal (memory st) = Some h ->
  child (memory st) = Some c -> killed c = false -> exited c = false ->
  exitListener (memory st) = Some (ec2', id') ->
  exists st1 st2,
    step env st (SignalReceived sig) = Some st1
    /\ step env' st1 (ChildExited code) = Some st2
    /\ filter is_stop (output st2)
       = filter is_stop (output st)
         ++ [Sent (Ec2Send ec2 (StopInstancesCommand id));
             Sent (Ec2Send ec2' (StopInstancesCommand id'))]
    /\ count is_teardown (output st2) = S (count is_teardown (output st))
    /\ tasks st2
       = tasks st ++ [Some (stop_in_cleanup ec2 id (signal_code sig));
                      Some (stop_in_listener ec2' id')]
    /\ status st2 = Running.
Proof.
  intros Hrun He Hb Hid Hh Hc Hk Hx Hl.
  rewrite (signal_arms_teardown env st sig ec2 id Hrun He Hb Hid).
  rewrite (teardown_kill_alive env (memory st) h c Hh Hc Hk Hx).
  cbn [fst snd].
  set (m1 := match env_kill env with
             | KillSent =>
                 with_child (memory st)
                            (Some {| killed := true; exited := false |})
             | _ => memory st
             end).
  assert (Hm1 : exists c1, child m1 = Some c1 /\ exited c1 = false
                           /\ exitListener m1 = Some (ec2', id')).
  { unfold m1. destruct (env_kill env); cbn; eauto. }
  destruct Hm1 as (c1 & Hc1 & Hx1 & Hl1).
  eexists. eexists. split; [reflexivity|].
  rewrite (running_no_exit st Hrun).
  rewrite (child_exit_runs_listener env' _ code c1 ec2' id');
    [|apply waiting_is_running|exact Hc1|exact Hx1|exact Hl1].
  split; [reflexivity|]. cbn [output tasks exitCode].
  repeat split.
  - rewrite <- !app_assoc. rewrite !filter_app. cbn. reflexivity.
  - rewrite !count_app. cbn. lia.
  - rewrite <- app_assoc. reflexivity.
  - rewrite <- app_assoc. cbn [app].
    change (tasks st ++ [?a; ?b]) with (tasks st ++ [a] ++ [b]).
    rewrite app_assoc. apply waiting_is_running.
Qed.

End MoreLoopFacts.

(** ** One instance, whatever happens *)

Section TargetingFacts.
Context `{JsNumber}.

Lemma inert_aims A (t : Async A) : forall p, inert t -> aims t p.
Proof.
  induction t as [a|e|c|op k IH|rq k IH|]; intros p; cbn; auto.
  - intros [Hop Hk].
    destruct op as [l|l| | |e| |i| |h|h|h sg|cmd a|h e i|f];
      try discriminate Hop; intros r; apply IH; apply Hk.
  - intros [Hrq Hk]. split; [|intros s; apply IH; apply Hk].
    destruct rq as [cf n|ec2 cmd|ms]; [exact I|contradiction|exact I].
Qed.

(** What an operation that does not touch the globals leaves alone. *)
Lemma perform_untouched op x m :
  touches op = false ->
  let '(_, m', es) := perform op x m in
  ec2Global m' = ec2Global m
  /\ bastionIdGlobal m' = bastionIdGlobal m
  /\ exitListener m' = exitListener m
  /\ forall p, Forall (on_target p) es.
Proof.
  destruct op as [l|l| | |e| |i| |h|h|h sg|cmd a|h e i|f]; cbn;
    try discriminate; intros _.
  all: try (repeat split; auto; intros p; repeat constructor).
  destruct (child m) as [[k e]|]; cbn.
  - destruct e; cbn; [repeat split; auto; intros p; repeat constructor|].
    destruct x; cbn; repeat split; auto; intros p; repeat constructor.
  - repeat split; auto; intros p; repeat constructor.
Qed.

Lemma agrees_same p m m' :
  ec2Global m' = ec2Global m ->
  bastionIdGlobal m' = bastionIdGlobal m ->
  exitListener m' = exitListener m ->
  agrees p m -> agrees p m'.
Proof.
  intros He Hb Hl. destruct p as [|ec2|ec2 id]; cbn;
    rewrite He, Hb, Hl; trivial.
Qed.

(** One turn of an inert program. *)
Lemma turn_inert env (t : Async unit) :
  forall m, inert t ->
    ec2Global (mem (turn env t m)) = ec2Global m
    /\ bastionIdGlobal (mem (turn env t m)) = bastionIdGlobal m
    /\ exitListener (mem (turn env t m)) = exitListener m
    /\ (forall p, Forall (on_target p) (said (turn env t m)))
    /\ match pause (turn env t m) with
       | Waiting s => forall r, inert (resume s r)
       | _ => True
       end.
Proof.
  induction t as [a|e|c|op k IH|rq k IH|]; intros m Ht; cbn.
  1-3, 6: repeat split; auto; intros p; repeat constructor.
  - destruct Ht as [Hop Hk].
    pose proof (perform_untouched op (supply env op) m Hop) as Hp.
    destruct (perform op (supply env op) m) as [[r m'] es].
    destruct Hp as (He & Hb & Hl & Hes). cbn [pause said mem].
    destruct (IH r m' (Hk r)) as (He' & Hb' & Hl' & Hs & Hw).
    rewrite He', Hb', Hl'. repeat split; auto.
    intros p. apply Forall_app. split; auto.
  - destruct Ht as [Hrq Hk]. repeat split; auto.
    intros p. constructor; [|constructor].
    destruct rq as [cf n|ec2 cmd|ms]; [exact I|contradiction|exact I].
Qed.

Lemma moves_trans p p' p'' : moves p p' -> moves p' p'' -> moves p p''.
Proof.
  intros [->|Hp] [->|Hp']; unfold moves; auto.
Qed.

Lemma on_target_moves p p' es :
  moves p p' -> Forall (on_target p) es -> Forall (on_target p') es.
Proof.
  intros [->|Hp] Hes; [exact Hes|].
  induction Hes as [|e es He Hes IH]; constructor; auto.
  destruct e as [l|l|[cf n|ec2 cmd|ms]|sg r|c a|c|f]; cbn in *; auto.
  exfalso. apply (Hp ec2 (instanceOf cmd)). exact He.
Qed.

(** One turn of a program that aims at the phase of the memory. *)
Lemma turn_aims env (t : Async unit) :
  forall p m, aims t p -> agrees p m ->
    exists p',
      moves p p'
      /\ agrees p' (mem (turn env t m))
      /\ Forall (on_target p') (said (turn env t m))
      /\ match pause (turn env t m) with
         | Waiting s => forall r, aims (resume s r) p'
         | _ => True
         end.
Proof.
  induction t as [a|e|c|op k IH|rq k IH|]; intros p m Ht Hm.
  1-3, 6: exists p; cbn; repeat split; auto; try (left; reflexivity);
    repeat constructor.
  - assert (Hplain :
      touches op = false -> (forall r, aims (k r) p) ->
      exists p',
        moves p p'
        /\ agrees p' (mem (turn env (Sync op k) m))
        /\ Forall (on_target p') (said (turn env (Sync op k) m))
        /\ match pause (turn env (Sync op k) m) with
           | Waiting s => forall r, aims (resume s r) p'
           | _ => True
           end).
    { intros Hop Hk. cbn.
      pose proof (perform_untouched op (supply env op) m Hop) as Hp.
      destruct (perform op (supply env op) m) as [[r m'] es].
      destruct Hp as (He & Hb & Hl & Hes). cbn [pause said mem].
      destruct (IH r p m' (Hk r) (agrees_same p m m' He Hb Hl Hm))
        as (p' & Hmv & Hm' & Hs & Hw).
      exists p'. repeat split; auto. apply Forall_app. split; auto. }
    destruct op as [l|l| | |e| |i| |h|h|h sg|cmd a|h e i|f];
      try (apply Hplain; [reflexivity|exact Ht]).
    + (* ec2Global = ec2 *)
      cbn in Ht. destruct Ht as [-> Hk]. cbn in Hm.
      destruct Hm as (He & Hb & Hl). cbn.
      destruct (IH tt (ClientSet e)
                  {| ec2Global := Some e;
                     bastionIdGlobal := bastionIdGlobal m;
                     childGlobal := childGlobal m; child := child m;
                     exitListener := exitListener m |} Hk)
        as (p' & Hmv & Hm' & Hs & Hw).
      { cbn. repeat split; assumption. }
      exists p'. repeat split; auto.
      right. intros ec2 id. discriminate.
    + (* bastionIdGlobal = bastionId *)
      cbn in Ht. destruct Ht as (ec2 & -> & Hid & Hk). cbn in Hm.
      destruct Hm as (He & Hb & Hl). cbn.
      destruct (IH tt (Armed ec2 i)
                  {| ec2Global := ec2Global m;
                     bastionIdGlobal := Some i;
                     childGlobal := childGlobal m; child := child m;
                     exitListener := exitListener m |} Hk)
        as (p' & Hmv & Hm' & Hs & Hw).
      { cbn. repeat split; auto. }
      exists p'. repeat split; auto.
      right. intros ec2' id'. discriminate.
    + (* child.on("exit", ...) *)
      cbn in Ht. destruct Ht as [-> Hk]. cbn in Hm.
      destruct Hm as (He & Hb & Hid & Hl). cbn.
      destruct (IH tt (Armed e i)
                  {| ec2Global := ec2Global m;
                     bastionIdGlobal := bastionIdGlobal m;
                     childGlobal := childGlobal m; child := child m;
                     exitListener := Some (e, i) |} Hk)
        as (p' & Hmv & Hm' & Hs & Hw).
      { cbn. repeat split; auto. }
      exists p'. repeat split; auto.
  - destruct Ht as [Hrq Hk]. exists p. cbn. repeat split; auto.
    left. reflexivity.
Qed.

Lemma one_main_inert p ts : Forall slot_inert ts -> one_main p ts.
Proof.
  induction 1 as [|t ts Ht Hts IH]; cbn; auto.
Qed.

Lemma one_main_snoc_inert p ts x :
  one_main p ts -> slot_inert x -> one_main p (ts ++ [x]).
Proof.
  intros Hts Hx. induction ts as [|t ts IH]; cbn in *.
  - left. auto.
  - destruct Hts as [[Ht Hts]|[Ht Hts]]; [left; auto|right].
    split; [exact Ht|]. apply Forall_app. split; auto.
Qed.

Lemma one_main_snoc_main p ts x :
  Forall slot_inert ts -> slot_aims p x -> one_main p (ts ++ [x]).
Proof.
  intros Hts Hx. induction Hts as [|t ts Ht Hts IH]; cbn.
  - right. split; [exact Hx|constructor].
  - left. auto.
Qed.

Lemma clear_inert n : forall ts,
    Forall slot_inert ts -> Forall slot_inert (clear n ts).
Proof.
  induction n as [|n IH]; intros ts Hts; destruct Hts as [|t ts Ht Hts];
    cbn; constructor; auto. exact I.
Qed.

Lemma one_main_clear p n : forall ts s,
    one_main p ts -> nth_error ts n = Some (Some s) ->
    (slot_inert (Some s) /\ one_main p (clear n ts))
    \/ (slot_aims p (Some s) /\ Forall slot_inert (clear n ts)).
Proof.
  induction n as [|n IH]; intros [|t ts] s Hts Hnth; try discriminate.
  - cbn in Hnth. injection Hnth as ->. cbn in Hts. cbn [clear].
    destruct Hts as [[Ht Hts]|[Ht Hts]].
    + left. split; [exact Ht|]. cbn. left. split; [exact I|exact Hts].
    + right. split; [exact Ht|]. constructor; [exact I|exact Hts].
  - cbn in Hnth. cbn [clear]. cbn in Hts.
    destruct Hts as [[Ht Hts]|[Ht Hts]].
    + destruct (IH ts s Hts Hnth) as [[Hs Hc]|[Hs Hc]].
      * left. split; [exact Hs|]. cbn. left. auto.
      * right. split; [exact Hs|]. constructor; auto.
    + left. split.
      * apply nth_error_In in Hnth.
        rewrite Forall_forall in Hts. apply (Hts _ Hnth).
      * cbn. right. split; [exact Ht|]. apply clear_inert. exact Hts.
Qed.

(** Programs that aim. *)
Lemma inert_bind_aims A B (t : Async A) (f : A -> Async B) p :
  inert t -> (forall a, aims (f a) p) -> aims (bind t f) p.
Proof.
  induction t as [a|e|c|op k IH|rq k IH|]; cbn; intros Ht Hf; auto.
  - destruct Ht as [Hop Hk].
    destruct op as [l|l| | |e| |i| |h|h|h sg|cmd a|h e i|f0];
      try discriminate Hop; intros r; apply IH; auto.
  - destruct Ht as [Hrq Hk]. split; [|intros s; apply IH; auto].
    destruct rq as [cf n|ec2 cmd|ms]; [exact I|contradiction|exact I].
Qed.

Lemma aims_bind_armed A B (t : Async A) (f : A -> Async B) ec2 id :
  aims t (Armed ec2 id) -> (forall a, aims (f a) (Armed ec2 id)) ->
  aims (bind t f) (Armed ec2 id).
Proof.
  induction t as [a|e|c|op k IH|rq k IH|]; cbn; intros Ht Hf; auto.
  - destruct op as [l|l| | |e| |i| |h|h|h sg|cmd a|h e i|f0];
      try (intros r; apply IH; auto).
    + destruct Ht as [Habs _]. discriminate Habs.
    + destruct Ht as (e0 & Habs & _). discriminate Habs.
    + destruct Ht as [Heq Hk]. split; [exact Heq|]. apply IH; auto.
  - destruct Ht as [Hrq Hk]. split; [exact Hrq|]. intros s. apply IH; auto.
Qed.

Lemma aims_try_catch A (t : Async A) (h : Error -> Async A) :
  forall p, aims t p -> (forall e, inert (h e)) -> aims (try_catch t h) p.
Proof.
  induction t as [a|e|c|op k IH|rq k IH|]; cbn; intros p Ht Hh; auto.
  - apply inert_aims. apply Hh.
  - destruct op as [l|l| | |e| |i| |h0|h0|h0 sg|cmd a|h0 e i|f0];
      try (intros r; apply IH; auto).
    + destruct Ht as [Heq Hk]. split; [exact Heq|]. apply IH; auto.
    + destruct Ht as (e0 & Heq & Hid & Hk). exists e0.
      repeat split; auto.
    + destruct Ht as [Heq Hk]. split; [exact Heq|]. apply IH; auto.
  - destruct Ht as [Hrq Hk]. split; [exact Hrq|]. intros s. apply IH; auto.
Qed.

Lemma inert_getStackOutput cf name key : inert (getStackOutput cf name key).
Proof.
  cbn. split; [exact I|]. intros [resp|e]; cbn; [|exact I].
  destruct (outputValue resp key) as [[v|]|]; cbn; try exact I.
  destruct (v =? "")%string; exact I.
Qed.

Lemma aims_poll fuel ec2 id timeoutMs start :
  aims (poll fuel ec2 id timeoutMs start) (Armed ec2 id).
Proof.
  induction fuel as [|fuel IH]; [exact I|].
  cbn. split; [reflexivity|]. intros [resp|e]; cbn; [|exact I].
  intros _.
  assert (Hwait : forall now : Z,
             aims (if now - start >? timeoutMs
                   then Throw (TimedOutRunning id)
                   else bind (sleep 5000)
                          (fun _ => poll fuel ec2 id timeoutMs start))
                  (Armed ec2 id)).
  { intros now. destruct (now - start >? timeoutMs); cbn; [exact I|].
    split; [exact I|]. intros _. apply IH. }
  assert (Hstopping : forall now : Z,
             aims (if now - start >? timeoutMs
                   then Throw (TimedOutStopping id)
                   else bind (sleep 5000)
                          (fun _ => poll fuel ec2 id timeoutMs start))
                  (Armed ec2 id)).
  { intros now. destruct (now - start >? timeoutMs); cbn; [exact I|].
    split; [exact I|]. intros _. apply IH. }
  destruct (stateOf resp) as [[]|]; cbn.
  all: try exact I.
  all: try first [exact Hwait|exact Hstopping].
  all: try (intros _; exact I).
  all: intros _; split; [reflexivity|]; intros [[]|e]; cbn; [|exact I];
    exact Hwait.
Qed.

Lemma aims_ensureInstanceRunning fuel ec2 id timeoutMs :
  aims (ensureInstanceRunning fuel ec2 id timeoutMs) (Armed ec2 id).
Proof. cbn. intros start. apply aims_poll. Qed.

Lemma aims_script fuel inv : aims (script fuel inv) Unresolved.
Proof.
  assert (Hcatch : forall e,
             inert (bind (console_error (Uncaught e))
                         (fun _ => ProcessExit 1) : Async unit)).
  { intros e. cbn. split; [reflexivity|]. intros _. exact I. }
  unfold script, main. destruct (parseArgs inv) as [e|args].
  - apply inert_aims. apply Hcatch.
  - cbn -[ensureInstanceRunning].
    split; [exact I|]. intros [r1|e1]; cbn -[ensureInstanceRunning];
      [|intros _; exact I].
    destruct (outputValue r1 _) as [[v1|]|]; cbn -[ensureInstanceRunning];
      try (intros _; exact I).
    destruct (v1 =? "")%string eqn:Hv1; cbn -[ensureInstanceRunning];
      [intros _; exact I|].
    split; [reflexivity|]. exists {| ec2_region := region args |}.
    split; [reflexivity|]. split; [exact Hv1|].
    split; [exact I|]. intros [r2|e2]; cbn -[ensureInstanceRunning];
      [|intros _; exact I].
    destruct (outputValue r2 _) as [[v2|]|]; cbn -[ensureInstanceRunning];
      try (intros _; exact I).
    destruct (v2 =? "")%string; cbn -[ensureInstanceRunning];
      [intros _; exact I|].
    apply aims_try_catch; [|exact Hcatch].
    apply aims_bind_armed; [apply aims_ensureInstanceRunning|].
    intros _. cbn. split; [exact I|]. intros _ _ _ _.
    split; [reflexivity|]. intros _. exact I.
Qed.

(** The listeners. *)
Lemma turn_cleanup_unarmed_said env code m :
  match ec2Global m with
  | Some _ => truthy (bastionIdGlobal m)
  | None => false
  end = false ->
  turn env (cleanupAndExit code) m
  = {| pause := Quit code;
       said := Called (call_cleanupAndExit code)
               :: fst (teardown_kill env m) ++ [Exited code];
       mem := snd (teardown_kill env m) |}.
Proof.
  destruct m as [[ec2|] [id|] cg ch l]; cbn; intros Hoff;
    unfold teardown_kill; cbn;
    destruct cg as [c|]; cbn;
    try destruct ch as [[[] []]|]; cbn;
    try destruct (env_kill env); cbn;
    rewrite ?Hoff; try discriminate Hoff; reflexivity.
Qed.

Lemma teardown_kill_listener env m :
  exitListener (snd (teardown_kill env m)) = exitListener m.
Proof.
  destruct m as [e b cg ch l]. unfold teardown_kill. cbn.
  destruct cg as [c|]; cbn; [|reflexivity].
  destruct ch as [[[] []]|]; cbn; try destruct (env_kill env); reflexivity.
Qed.

Lemma teardown_kill_on_target env m p :
  Forall (on_target p) (fst (teardown_kill env m)).
Proof.
  destruct m as [e b cg ch l]. unfold teardown_kill. cbn.
  destruct cg as [c|]; cbn; [|constructor].
  destruct ch as [[[] []]|]; cbn; try destruct (env_kill env); cbn;
    repeat constructor.
Qed.

Lemma agrees_teardown_kill env p m :
  agrees p m -> agrees p (snd (teardown_kill env m)).
Proof.
  destruct (teardown_kill_globals env m) as [He Hb].
  apply agrees_same; auto using teardown_kill_listener.
Qed.

Lemma inert_finish_cleanup code r : inert (finish_cleanup code r).
Proof. destruct r as [[]|e]; cbn; repeat split; intros; exact I. Qed.

Lemma inert_finish_listener r : inert (finish_listener r).
Proof. destruct r as [[]|e]; cbn; repeat split; intros; exact I. Qed.

Lemma turn_on_child_exit env ec2 id code m :
  turn env (on_child_exit ec2 id code) m
  = {| pause := Waiting (stop_in_listener ec2 id);
       said := [Stdout (SsmSessionExited code);
                Called (call_stopInstance id);
                Stdout (StoppingBastion id);
                Sent (Ec2Send ec2 (StopInstancesCommand id))];
       mem := m |}.
Proof. reflexivity. Qed.

(** Activating an inert program, or the one program that aims. *)
Lemma activate_inert env t st st' p :
  activate env t st = Some st' -> inert t ->
  agrees p (memory st) -> Forall (on_target p) (output st) ->
  one_main p (tasks st) ->
  targeted st'.
Proof.
  unfold activate. intros Hact Ht Hm Hout Hts.
  destruct (turn_inert env t (memory st) Ht) as (He & Hb & Hl & Hs & Hw).
  assert (Hm' : agrees p (mem (turn env t (memory st))))
    by (apply (agrees_same p (memory st)); auto).
  assert (Hout' : Forall (on_target p)
                         (output st ++ said (turn env t (memory st))))
    by (apply Forall_app; split; auto).
  destruct (pause (turn env t (memory st))) as [|e|c|s|];
    try discriminate Hact; injection Hact as <-; exists p; cbn;
    repeat split; auto.
  apply one_main_snoc_inert; auto.
Qed.

Lemma activate_main env t st st' p :
  activate env t st = Some st' -> aims t p ->
  agrees p (memory st) -> Forall (on_target p) (output st) ->
  Forall slot_inert (tasks st) ->
  targeted st'.
Proof.
  unfold activate. intros Hact Ht Hm Hout Hts.
  destruct (turn_aims env t p (memory st) Ht Hm)
    as (p' & Hmv & Hm' & Hs & Hw).
  assert (Hout' : Forall (on_target p')
                         (output st ++ said (turn env t (memory st)))).
  { apply Forall_app. split; [|exact Hs].
    apply (on_target_moves p p'); assumption. }
  destruct (pause (turn env t (memory st))) as [|e|c|s|];
    try discriminate Hact; injection Hact as <-; exists p'; cbn;
    repeat split; auto using one_main_inert.
  apply one_main_snoc_main; auto.
Qed.

Lemma agrees_with_child p m c : agrees p m -> agrees p (with_child m c).
Proof. apply agrees_same; reflexivity. Qed.

Lemma step_targeted env st ev st' :
  step env st ev = Some st' -> targeted st -> targeted st'.
Proof.
  unfold step. destruct (status st); [|discriminate].
  intros Hstep (p & Hm & Hout & Hts).
  destruct ev as [sig|code|n s].
  - rewrite on_signal_code in Hstep. unfold activate in Hstep.
    assert (Hkill := agrees_teardown_kill env p (memory st) Hm).
    assert (Hkout : forall rest,
               Forall (on_target p) rest ->
               Forall (on_target p)
                 (output st
                  ++ Called (call_cleanupAndExit (signal_code sig))
                     :: fst (teardown_kill env (memory st)) ++ rest)).
    { intros rest Hrest. apply Forall_app. split; [exact Hout|].
      constructor; [exact I|]. apply Forall_app. split; [|exact Hrest].
      apply teardown_kill_on_target. }
    destruct p as [|ec2|ec2 id]; cbn in Hm.
    + destruct Hm as (He & Hb & Hl).
      rewrite turn_cleanup_unarmed_said in Hstep
        by (rewrite He; reflexivity).
      injection Hstep as <-. exists Unresolved. cbn [memory output tasks].
      split; [exact Hkill|]. split; [|exact Hts].
      apply Hkout. repeat constructor.
    + destruct Hm as (He & Hb & Hl).
      rewrite turn_cleanup_unarmed_said in Hstep
        by (rewrite He, Hb; reflexivity).
      injection Hstep as <-. exists (ClientSet ec2).
      cbn [memory output tasks].
      split; [exact Hkill|]. split; [|exact Hts].
      apply Hkout. repeat constructor.
    + destruct Hm as (He & Hb & Hid & Hl).
      rewrite (turn_cleanup_armed env _ _ ec2 id He Hb Hid) in Hstep.
      injection Hstep as <-. exists (Armed ec2 id).
      cbn [memory output tasks].
      split; [exact Hkill|]. split.
      * apply Hkout. repeat constructor.
      * apply one_main_snoc_inert; [exact Hts|].
        intros r. apply inert_finish_cleanup.
  - destruct (child (memory st)) as [c|]; [|discriminate].
    destruct (exited c); [discriminate|].
    destruct (exitListener (memory st)) as [[ec2 id]|] eqn:Hl.
    + unfold activate in Hstep. rewrite turn_on_child_exit in Hstep.
      injection Hstep as <-. exists p. cbn [memory output tasks].
      split; [apply agrees_with_child; exact Hm|]. split.
      * apply Forall_app. split; [exact Hout|]. repeat constructor.
        destruct p as [|e|e i]; cbn in Hm.
        -- destruct Hm as (_ & _ & Hl'). rewrite Hl in Hl'. discriminate.
        -- destruct Hm as (_ & _ & Hl'). rewrite Hl in Hl'. discriminate.
        -- destruct Hm as (_ & _ & _ & [Hl'|Hl']); rewrite Hl in Hl';
             [discriminate|]. injection Hl' as -> ->. reflexivity.
      * apply one_main_snoc_inert; [exact Hts|].
        intros r. apply inert_finish_listener.
    + injection Hstep as <-. exists p. cbn [memory output tasks].
      split; [apply agrees_with_child; exact Hm|]. split; assumption.
  - destruct (nth_error (tasks st) n) as [[t|]|] eqn:Hnth;
      try discriminate.
    destruct (deliver (awaited t) s) as [reply|]; [|discriminate].
    destruct (one_main_clear p n (tasks st) t Hts Hnth) as [[Ht Hc]|[Ht Hc]].
    + apply (activate_inert env (resume t reply) _ st' p Hstep); auto;
        apply Ht.
    + apply (activate_main env (resume t reply) _ st' p Hstep); auto;
        apply Ht.
Qed.

Lemma run_targeted evs : forall st st',
    run st evs = Some st' -> targeted st -> targeted st'.
Proof.
  induction evs as [|[env ev] evs IH]; intros st st'; cbn.
  - intros [= <-]. trivial.
  - destruct (step env st ev) as [st1|] eqn:Hstep; [|discriminate].
    intros Hrun Hinv. apply (IH st1 st' Hrun).
    apply (step_targeted env st ev st1 Hstep Hinv).
Qed.

(** Whatever happens, the requests to EC2 are about what the globals
    hold. *)
Lemma reachable_targeted env fuel inv evs st0 st :
  boot env fuel inv = Some st0 -> run st0 evs = Some st -> targeted st.
Proof.
  intros Hboot Hrun. apply (run_targeted evs st0 st Hrun).
  apply (activate_main env (script fuel inv) loaded st0 Unresolved Hboot).
  - apply aims_script.
  - cbn. auto.
  - constructor.
  - constructor.
Qed.

Lemma targeted_request st ec2 cmd :
  targeted st -> In (Sent (Ec2Send ec2 cmd)) (output st) ->
  ec2Global (memory st) = Some ec2
  /\ bastionIdGlobal (memory st) = Some (instanceOf cmd)
  /\ (instanceOf cmd =? "")%string = false.
Proof.
  intros (p & Hm & Hout & _) Hin.
  rewrite Forall_forall in Hout. specialize (Hout _ Hin). cbn in Hout.
  subst p. cbn in Hm. destruct Hm as (He & Hb & Hid & _). auto.
Qed.

(** X19: in every run of the script, whatever events arrive and in
    whatever order, every request sent to EC2 goes through the client kept
    in [ec2Global] and is about the instance kept in [bastionIdGlobal],
    which is not empty: all the Describe, Start and Stop requests of a run
    are about one and the same instance. *)
Theorem requests_target_one_instance env fuel inv evs st0 st :
  boot env fuel inv = Some st0 -> run st0 evs = Some st ->
  (forall ec2 cmd,
      In (Sent (Ec2Send ec2 cmd)) (output st) ->
      ec2Global (memory st) = Some ec2
      /\ bastionIdGlobal (memory st) = Some (instanceOf cmd)
      /\ instanceOf cmd <> "")
  /\ (forall ec2 cmd ec2' cmd',
         In (Sent (Ec2Send ec2 cmd)) (output st) ->
         In (Sent (Ec2Send ec2' cmd')) (output st) ->
         ec2 = ec2' /\ instanceOf cmd = instanceOf cmd').
Proof.
  intros Hboot Hrun.
  pose proof (reachable_targeted env fuel inv evs st0 st Hboot Hrun) as Hinv.
  split.
  - intros ec2 cmd Hin.
    destruct (targeted_request st ec2 cmd Hinv Hin) as (He & Hb & Hid).
    repeat split; auto. apply String.eqb_neq. exact Hid.
  - intros ec2 cmd ec2' cmd' Hin Hin'.
    destruct (targeted_request st ec2 cmd Hinv Hin) as (He & Hb & _).
    destruct (targeted_request st ec2' cmd' Hinv Hin') as (He' & Hb' & _).
    rewrite He in He'. rewrite Hb in Hb'.
    injection He' as ->. injection Hb' as ->. split; reflexivity.
Qed.

Lemma count_positive p (es : list Effect) :
  count p es <> 0%nat -> exists e, In e es /\ p e = true.
Proof.
  unfold count. intros Hcount.
  destruct (filter p es) as [|e rest] eqn:Hf; [contradiction|].
  exists e. apply (filter_In p). rewrite Hf. left. reflexivity.
Qed.

(** X20: in every run of the script, once any request has been sent to
    EC2 a signal handled while the process is running sends a stop
    request, and that request is about the very instance all the earlier
    requests were about. *)
Theorem signal_stops_what_was_touched
        env fuel inv evs st0 st env' sig :
  boot env fuel inv = Some st0 -> run st0 evs = Some st ->
  status st = Running ->
  count is_ec2 (output st) <> 0%nat ->
  exists ec2 id st1,
    (forall ec2' cmd,
        In (Sent (Ec2Send ec2' cmd)) (output st) ->
        ec2' = ec2 /\ instanceOf cmd = id)
    /\ step env' st (SignalReceived sig) = Some st1
    /\ output st1
       = output st
         ++ Called (call_cleanupAndExit (signal_code sig))
            :: fst (teardown_kill env' (memory st))
            ++ [Stdout StoppingBastionBeforeExit;
                Called (call_stopInstance id);
                Stdout (StoppingBastion id);
                Sent (Ec2Send ec2 (StopInstancesCommand id))]
    /\ status st1 = Running.
Proof.
  intros Hboot Hrun Hstatus Hsome.
  pose proof (reachable_targeted env fuel inv evs st0 st Hboot Hrun) as Hinv.
  destruct (count_positive is_ec2 (output st) Hsome) as (e & Hin & He).
  destruct e as [l|l|[cf n|ec2 cmd|ms]|sg r|c a|c|f]; try discriminate He.
  destruct (targeted_request st ec2 cmd Hinv Hin) as (Hec2 & Hid & Hne).
  exists ec2, (instanceOf cmd).
  rewrite (signal_arms_teardown env' st sig ec2 _ Hstatus Hec2 Hid Hne).
  eexists. split; [|split; [reflexivity|split; [reflexivity|]]].
  - intros ec2' cmd' Hin'.
    destruct (targeted_request st ec2' cmd' Hinv Hin') as (Hec2' & Hid' & _).
    rewrite Hec2 in Hec2'. rewrite Hid in Hid'.
    injection Hec2' as ->. injection Hid' as ->. split; reflexivity.
  - rewrite (running_no_exit st Hstatus). apply waiting_is_running.
Qed.

End TargetingFacts.

(** ** The script keeps to its constants *)

Section ConductFacts.
Context `{JsNumber}.

Lemma perform_expected op x m :
  match op with
  | ChildKill _ sig => expected (Kill sig KillSent) = true
  | Spawn command args => expected (Spawned command args) = true
  | _ => True
  end ->
  forallb expected (snd (perform op x m)) = true.
Proof.
  destruct op as [l|l| | |e| |i| |h|h|h sg|cmd a|h e i|f]; cbn;
    try reflexivity.
  - intros Hsig. destruct sg; try discriminate Hsig.
    destruct (child m) as [[k e]|]; cbn; [|reflexivity].
    destruct e; cbn; [reflexivity|]. destruct x; reflexivity.
  - intros ->. reflexivity.
Qed.

Lemma turn_tame env (t : Async unit) :
  forall m, tame t ->
    forallb expected (said (turn env t m)) = true
    /\ (forall c, pause (turn env t m) = Quit c ->
                  In (Exited c) (said (turn env t m)))
    /\ match pause (turn env t m) with
       | Waiting s => forall r, tame (resume s r)
       | _ => True
       end.
Proof.
  induction t as [a|e|c|op k IH|rq k IH|]; intros m Ht; cbn.
  1-2, 6: repeat split; auto; discriminate.
  - cbn in Ht. rewrite Ht. repeat split; auto.
    intros c0 [= ->]. left. reflexivity.
  - destruct Ht as [Hop Hk].
    pose proof (perform_expected op (supply env op) m Hop) as Hp.
    destruct (perform op (supply env op) m) as [[r m'] es].
    cbn [snd] in Hp. cbn [pause said mem].
    destruct (IH r m' (Hk r)) as (Hs & Hq & Hw).
    rewrite forallb_app, Hp, Hs. repeat split; auto.
    intros c Hc. apply in_or_app. right. apply Hq. exact Hc.
  - destruct Ht as [Hrq Hk]. cbn in Hrq. rewrite Hrq.
    repeat split; auto. discriminate.
Qed.

Lemma tame_bind A B (t : Async A) (f : A -> Async B) :
  tame t -> (forall a, tame (f a)) -> tame (bind t f).
Proof.
  induction t as [a|e|c|op k IH|rq k IH|]; cbn; intros Ht Hf; auto.
  - destruct Ht as [Hop Hk]. split; [exact Hop|]. intros r. apply IH; auto.
  - destruct Ht as [Hrq Hk]. split; [exact Hrq|]. intros s. apply IH; auto.
Qed.

Lemma tame_try_catch A (t : Async A) (h : Error -> Async A) :
  tame t -> (forall e, tame (h e)) -> tame (try_catch t h).
Proof.
  induction t as [a|e|c|op k IH|rq k IH|]; cbn; intros Ht Hh; auto.
  - destruct Ht as [Hop Hk]. split; [exact Hop|]. intros r. apply IH; auto.
  - destruct Ht as [Hrq Hk]. split; [exact Hrq|]. intros s. apply IH; auto.
Qed.

Lemma tame_getStackOutput cf name key : tame (getStackOutput cf name key).
Proof.
  cbn. split; [reflexivity|]. intros [resp|e]; cbn; [|exact I].
  destruct (outputValue resp key) as [[v|]|]; cbn; try exact I.
  destruct (v =? "")%string; exact I.
Qed.

Lemma tame_poll fuel ec2 id timeoutMs start :
  tame (poll fuel ec2 id timeoutMs start).
Proof.
  induction fuel as [|fuel IH]; [exact I|].
  cbn. split; [reflexivity|]. intros [resp|e]; cbn; [|exact I].
  split; [exact I|]. intros _.
  assert (Hwait : forall now : Z,
             tame (if now - start >? timeoutMs
                   then Throw (TimedOutRunning id)
                   else bind (sleep 5000)
                          (fun _ => poll fuel ec2 id timeoutMs start))).
  { intros now. destruct (now - start >? timeoutMs); cbn; [exact I|].
    split; [reflexivity|]. intros _. apply IH. }
  assert (Hstopping : forall now : Z,
             tame (if now - start >? timeoutMs
                   then Throw (TimedOutStopping id)
                   else bind (sleep 5000)
                          (fun _ => poll fuel ec2 id timeoutMs start))).
  { intros now. destruct (now - start >? timeoutMs); cbn; [exact I|].
    split; [reflexivity|]. intros _. apply IH. }
  destruct (stateOf resp) as [[]|]; cbn.
  all: try exact I.
  all: try (split; [exact I|]; first [exact Hwait|exact Hstopping]).
  all: try (split; [exact I|]; intros _; exact I).
  all: split; [exact I|]; intros _; split; [reflexivity|];
    intros [[]|e]; cbn; [|exact I]; split; [exact I|exact Hwait].
Qed.

Lemma tame_ensureInstanceRunning fuel ec2 id timeoutMs :
  tame (ensureInstanceRunning fuel ec2 id timeoutMs).
Proof. cbn. split; [exact I|]. intros start. apply tame_poll. Qed.

Lemma tame_script fuel inv : tame (script fuel inv).
Proof.
  unfold script. apply tame_try_catch.
  - unfold main. apply tame_bind; [destruct (parseArgs inv); exact I|].
    intros args. apply tame_bind; [apply tame_getStackOutput|].
    intros bastionId. cbn -[getStackOutput ensureInstanceRunning].
    split; [exact I|]. intros _. split; [exact I|]. intros _.
    apply tame_bind; [apply tame_getStackOutput|].
    intros dbEndpoint.
    apply tame_bind; [apply tame_ensureInstanceRunning|].
    intros _. cbn. split; [reflexivity|]. intros _.
    repeat (split; [try exact I; reflexivity|]; intros _).
    exact I.
  - intros e. cbn. split; [exact I|]. intros _. reflexivity.
Qed.

Lemma tame_finish_cleanup code r :
  expected (Exited code) = true -> tame (finish_cleanup code r).
Proof.
  intros Hcode. destruct r as [[]|e]; cbn; repeat split; auto.
Qed.

Lemma tame_on_signal sig : tame (on_signal sig).
Proof.
  assert (Hcode : expected (Exited (signal_code sig)) = true)
    by (destruct sig; reflexivity).
  rewrite on_signal_code. unfold cleanupAndExit.
  revert Hcode. generalize (signal_code sig). intros code Hcode.
  assert (Hwait : forall s : Settled unit, tame (finish_cleanup code s))
    by (intros s; apply tame_finish_cleanup; exact Hcode).
  cbn. split; [exact I|]. intros _. split; [exact I|]. intros [h|]; cbn.
  - split; [exact I|]. intros [|]; cbn.
    + split; [exact I|]. intros [ec2|]; cbn;
        [|split; [exact I|]; intros; exact Hcode].
      split; [exact I|]. intros [id|]; cbn; [|exact Hcode].
      destruct (id =? "")%string; cbn; [exact Hcode|].
      repeat (split; [try exact I; try reflexivity|]; intros _).
      split; [reflexivity|exact Hwait].
    + split; [reflexivity|]. intros [| |e]; cbn.
      all: split; [exact I|]; intros [ec2|]; cbn;
        [|split; [exact I|]; intros; exact Hcode].
      all: split; [exact I|]; intros [id|]; cbn; [|exact Hcode].
      all: destruct (id =? "")%string; cbn; [exact Hcode|].
      all: repeat (split; [try exact I; try reflexivity|]; intros _).
      all: split; [reflexivity|exact Hwait].
  - split; [exact I|]. intros [ec2|]; cbn;
      [|split; [exact I|]; intros; exact Hcode].
    split; [exact I|]. intros [id|]; cbn; [|exact Hcode].
    destruct (id =? "")%string; cbn; [exact Hcode|].
    repeat (split; [try exact I; try reflexivity|]; intros _).
    split; [reflexivity|exact Hwait].
Qed.

Lemma tame_on_child_exit ec2 id code : tame (on_child_exit ec2 id code).
Proof.
  cbn. repeat (split; [try exact I; try reflexivity|]; intros _).
  split; [reflexivity|]. intros [[]|e]; cbn; repeat split; auto.
Qed.

Lemma activate_behaves env t st st' :
  activate env t st = Some st' -> exitCode st = None ->
  forallb expected (output st) = true ->
  (forall t0, In (Some t0) (tasks st) -> forall r, tame (resume t0 r)) ->
  tame t ->
  well_behaved st'.
Proof.
  unfold activate. intros Hact Hcode Hout Htasks Ht.
  destruct (turn_tame env t (memory st) Ht) as (Hs & Hq & Hw).
  assert (Hout' : forallb expected
                    (output st ++ said (turn env t (memory st))) = true)
    by (rewrite forallb_app, Hout, Hs; reflexivity).
  destruct (pause (turn env t (memory st))) as [|e|c|s|];
    try discriminate Hact; injection Hact as <-; unfold well_behaved; cbn;
    repeat split; auto.
  - rewrite Hcode. discriminate.
  - rewrite Hcode. discriminate.
  - intros c0 [= <-]. apply in_or_app. right. apply Hq. reflexivity.
  - rewrite Hcode. discriminate.
  - intros t0 Hin. apply in_app_or in Hin.
    destruct Hin as [Hin|[Heq|[]]]; [apply Htasks; exact Hin|].
    injection Heq as <-. exact Hw.
Qed.

Lemma step_behaves env st ev st' :
  step env st ev = Some st' -> well_behaved st -> well_behaved st'.
Proof.
  intros Hstep (Hout & Hcode & Htasks).
  assert (Hrun : status st = Running).
  { unfold step in Hstep. destruct (status st); [reflexivity|discriminate]. }
  assert (Hnone := running_no_exit st Hrun).
  unfold step in Hstep. rewrite Hrun in Hstep.
  destruct ev as [sig|code|n s].
  - apply (activate_behaves env (on_signal sig) st st' Hstep); auto.
    apply tame_on_signal.
  - destruct (child (memory st)) as [c|]; [|discriminate].
    destruct (exited c); [discriminate|].
    destruct (exitListener (memory st)) as [[ec2 id]|].
    + apply (activate_behaves env (on_child_exit ec2 id code) _ st' Hstep);
        auto. apply tame_on_child_exit.
    + injection Hstep as <-. unfold well_behaved. cbn. auto.
  - destruct (nth_error (tasks st) n) as [[t|]|] eqn:Hnth;
      try discriminate.
    destruct (deliver (awaited t) s) as [reply|] eqn:Hdel;
      [|discriminate].
    apply (activate_behaves env (resume t reply) _ st' Hstep); cbn; auto.
    + intros t0 Hin. apply Htasks. apply (in_clear n). exact Hin.
    + apply nth_error_In in Hnth. apply (Htasks t Hnth).
Qed.

Lemma run_behaves evs : forall st st',
    run st evs = Some st' -> well_behaved st -> well_behaved st'.
Proof.
  induction evs as [|[env ev] evs IH]; intros st st'; cbn.
  - intros [= <-]. trivial.
  - destruct (step env st ev) as [st1|] eqn:Hstep; [|discriminate].
    intros Hrun Hinv. apply (IH st1 st' Hrun).
    apply (step_behaves env st ev st1 Hstep Hinv).
Qed.

Lemma reachable_behaves env fuel inv evs st0 st :
  boot env fuel inv = Some st0 -> run st0 evs = Some st -> well_behaved st.
Proof.
  intros Hboot Hrun. apply (run_behaves evs st0 st Hrun).
  apply (activate_behaves env (script fuel inv) loaded st0 Hboot);
    try reflexivity.
  - intros t0 [].
  - apply tame_script.
Qed.

(** X21: in every run of the script, [process.exit] is only called with
    1, 130, 143 or 148, the child is only ever sent SIGINT, the only
    timers are of 5000 and 10000 ms, and the only command spawned is
    [aws]; a process that has ended has ended with one of these four codes
    or, when nothing was left pending, with 0. *)
Theorem script_keeps_to_its_constants env fuel inv evs st0 st :
  boot env fuel inv = Some st0 -> run st0 evs = Some st ->
  (forall c, In (Exited c) (output st) ->
             c = 1 \/ c = 130 \/ c = 143 \/ c = 148)
  /\ (forall sig r, In (Kill sig r) (output st) -> sig = SIGINT)
  /\ (forall ms, In (Sent (SetTimeout ms)) (output st) ->
                 ms = 5000 \/ ms = 10000)
  /\ (forall command args, In (Spawned command args) (output st) ->
                           command = "aws")
  /\ (forall c, status st = Terminated c ->
                c = 0 \/ c = 1 \/ c = 130 \/ c = 143 \/ c = 148).
Proof.
  intros Hboot Hrun.
  destruct (reachable_behaves env fuel inv evs st0 st Hboot Hrun)
    as (Hout & Hcode & _).
  rewrite forallb_forall in Hout.
  assert (Hexit : forall c, In (Exited c) (output st) ->
                            c = 1 \/ c = 130 \/ c = 143 \/ c = 148).
  { intros c Hin. specialize (Hout _ Hin). cbn in Hout.
    repeat (apply orb_prop in Hout; destruct Hout as [Hout|Hout]);
      apply Z.eqb_eq in Hout; auto. }
  split; [exact Hexit|]. repeat split.
  - intros sig r Hin. specialize (Hout _ Hin). cbn in Hout.
    destruct sig; [discriminate|reflexivity|discriminate].
  - intros ms Hin. specialize (Hout _ Hin). cbn in Hout.
    apply orb_prop in Hout. destruct Hout as [Hout|Hout];
      apply Z.eqb_eq in Hout; auto.
  - intros command args Hin. specialize (Hout _ Hin). cbn in Hout.
    apply String.eqb_eq in Hout. exact Hout.
  - intros c. unfold status.
    destruct (exitCode st) as [c0|] eqn:Hc0.
    + intros [= <-]. right. apply Hexit. apply Hcode. reflexivity.
    + destruct (_ && _); [|discriminate]. intros [= <-]. left. reflexivity.
Qed.

End ConductFacts.

(** ** The tunnel opens after the instance runs *)

Section OpeningFacts.
Context `{JsNumber}.

Lemma spawnless_held A (t : Async A) : spawnless t -> held t.
Proof.
  induction t as [a|e|c|op k IH|rq k IH|]; cbn; auto.
  - intros [Hop Hk]. split; [exact Hop|]. intros r. apply IH. apply Hk.
  - intros Hk. destruct rq as [cf n|ec2 [i|i|i]|ms]; intros s;
      try right; apply IH; apply Hk.
Qed.

Lemma leads_bind A B (t : Async A) (f : A -> Async B) :
  leads t -> held (bind t f).
Proof.
  induction t as [a|e|c|op k IH|rq k IH|]; cbn; auto.
  - contradiction.
  - intros [Hop Hk]. split; [exact Hop|]. intros r. apply IH. apply Hk.
  - destruct rq as [cf n|ec2 [i|i|i]|ms]; intros Hk s;
      try (apply IH; apply Hk).
    destruct (Hk s) as [Hs|Hs]; [left; exact Hs|right; apply IH; exact Hs].
Qed.

Lemma held_try_catch A (t : Async A) (h : Error -> Async A) :
  held t -> (forall e, spawnless (h e)) -> held (try_catch t h).
Proof.
  induction t as [a|e|c|op k IH|rq k IH|]; cbn; intros Ht Hh; auto.
  - apply spawnless_held. apply Hh.
  - destruct Ht as [Hop Hk]. split; [exact Hop|]. intros r. apply IH; auto.
  - destruct rq as [cf n|ec2 [i|i|i]|ms]; intros s;
      try (apply IH; auto).
    destruct (Ht s) as [Hs|Hs]; [left; exact Hs|right; apply IH; auto].
Qed.

Lemma leads_poll fuel ec2 id timeoutMs start :
  leads (poll fuel ec2 id timeoutMs start).
Proof.
  induction fuel as [|fuel IH]; [exact I|].
  cbn. intros [resp|e]; cbn; [|right; exact I].
  assert (Hwait : forall now : Z,
             leads (if now - start >? timeoutMs
                    then Throw (TimedOutRunning id)
                    else bind (sleep 5000)
                           (fun _ => poll fuel ec2 id timeoutMs start))).
  { intros now. destruct (now - start >? timeoutMs); cbn; [exact I|].
    intros _. apply IH. }
  assert (Hstopping : forall now : Z,
             leads (if now - start >? timeoutMs
                    then Throw (TimedOutStopping id)
                    else bind (sleep 5000)
                           (fun _ => poll fuel ec2 id timeoutMs start))).
  { intros now. destruct (now - start >? timeoutMs); cbn; [exact I|].
    intros _. apply IH. }
  destruct (stateOf resp) as [[]|]; cbn.
  2: left; reflexivity.
  all: right; split; [reflexivity|]; intros _.
  all: try exact I.
  all: try (split; [reflexivity|]; first [exact Hwait|exact Hstopping]).
  all: split; [reflexivity|]; intros _ [[]|e]; cbn; [|exact I];
    split; [reflexivity|exact Hwait].
Qed.

Lemma leads_ensureInstanceRunning fuel ec2 id timeoutMs :
  leads (ensureInstanceRunning fuel ec2 id timeoutMs).
Proof. cbn. split; [reflexivity|]. intros start. apply leads_poll. Qed.

Lemma held_script fuel inv : held (script fuel inv).
Proof.
  assert (Hcatch : forall e,
             spawnless (bind (console_error (Uncaught e))
                             (fun _ => ProcessExit 1) : Async unit)).
  { intros e. cbn. split; [reflexivity|]. intros _. exact I. }
  unfold script, main. destruct (parseArgs inv) as [e|args].
  - apply spawnless_held. apply Hcatch.
  - cbn -[ensureInstanceRunning].
    intros [r1|e1]; cbn -[ensureInstanceRunning];
      [|split; [reflexivity|]; intros _; exact I].
    destruct (outputValue r1 _) as [[v1|]|]; cbn -[ensureInstanceRunning];
      try (split; [reflexivity|]; intros _; exact I).
    destruct (v1 =? "")%string; cbn -[ensureInstanceRunning];
      [split; [reflexivity|]; intros _; exact I|].
    split; [reflexivity|]. intros _. split; [reflexivity|]. intros _.
    intros [r2|e2]; cbn -[ensureInstanceRunning];
      [|split; [reflexivity|]; intros _; exact I].
    destruct (outputValue r2 _) as [[v2|]|]; cbn -[ensureInstanceRunning];
      try (split; [reflexivity|]; intros _; exact I).
    destruct (v2 =? "")%string; cbn -[ensureInstanceRunning];
      [split; [reflexivity|]; intros _; exact I|].
    apply held_try_catch; [|exact Hcatch].
    apply leads_bind. apply leads_ensureInstanceRunning.
Qed.

Lemma spawnless_on_signal sig : spawnless (on_signal sig).
Proof.
  rewrite on_signal_code. unfold cleanupAndExit.
  generalize (signal_code sig). intros code.
  assert (Hwait : forall s : Settled unit, spawnless (finish_cleanup code s)).
  { intros [[]|e]; cbn; repeat split; intros; exact I. }
  cbn. split; [reflexivity|]. intros _. split; [reflexivity|].
  intros [h|]; cbn.
  - split; [reflexivity|]. intros [|]; cbn.
    + split; [reflexivity|]. intros [ec2|]; cbn;
        [|split; [reflexivity|]; intros; exact I].
      split; [reflexivity|]. intros [id|]; cbn; [|exact I].
      destruct (id =? "")%string; cbn; [exact I|].
      repeat (split; [reflexivity|]; intros _). exact Hwait.
    + split; [reflexivity|]. intros [| |e]; cbn.
      all: split; [reflexivity|]; intros [ec2|]; cbn;
        [|split; [reflexivity|]; intros; exact I].
      all: split; [reflexivity|]; intros [id|]; cbn; [|exact I].
      all: destruct (id =? "")%string; cbn; [exact I|].
      all: repeat (split; [reflexivity|]; intros _); exact Hwait.
  - split; [reflexivity|]. intros [ec2|]; cbn;
      [|split; [reflexivity|]; intros; exact I].
    split; [reflexivity|]. intros [id|]; cbn; [|exact I].
    destruct (id =? "")%string; cbn; [exact I|].
    repeat (split; [reflexivity|]; intros _). exact Hwait.
Qed.

Lemma spawnless_on_child_exit ec2 id code :
  spawnless (on_child_exit ec2 id code).
Proof.
  cbn. repeat (split; [reflexivity|]; intros _).
  intros [[]|e]; cbn; repeat split; intros; exact I.
Qed.

Lemma perform_spawns_nothing op x m :
  spawns op = false -> count is_spawn (snd (perform op x m)) = 0%nat.
Proof.
  destruct op as [l|l| | |e| |i| |h|h|h sg|cmd a|h e i|f]; cbn;
    try reflexivity; try discriminate.
  intros _. destruct (child m) as [[k e]|]; cbn; [|reflexivity].
  destruct e; cbn; [reflexivity|]. destruct x; reflexivity.
Qed.

Lemma turn_held env (t : Async unit) :
  forall m, held t ->
    count is_spawn (said (turn env t m)) = 0%nat
    /\ match pause (turn env t m) with
       | Waiting s => held (pending_program s)
       | _ => True
       end.
Proof.
  induction t as [a|e|c|op k IH|rq k IH|]; intros m Ht; cbn;
    try (split; [reflexivity|exact I]).
  - destruct Ht as [Hop Hk].
    pose proof (perform_spawns_nothing op (supply env op) m Hop) as Hp.
    destruct (perform op (supply env op) m) as [[r m'] es].
    cbn [snd] in Hp. cbn [pause said mem].
    destruct (IH r m' (Hk r)) as [Hs Hw].
    rewrite count_app, Hp, Hs. split; [reflexivity|exact Hw].
  - split; [reflexivity|exact Ht].
Qed.

Lemma seen_running_later evs more :
  seen_running evs -> seen_running (evs ++ more).
Proof.
  intros (e & n & s & Hin & Hs). exists e, n, s.
  split; [apply in_or_app; left; exact Hin|exact Hs].
Qed.

Lemma activate_keeps_spawn_held env t st st' evs :
  activate env t st = Some st' ->
  (count is_spawn (output st) = 0%nat \/ seen_running evs) ->
  (forall t0, In (Some t0) (tasks st) ->
              held (pending_program t0) \/ seen_running evs) ->
  held t \/ seen_running evs ->
  spawn_held evs st'.
Proof.
  unfold activate. intros Hact Hout Htasks Hprog.
  assert (Hturn :
            (count is_spawn (said (turn env t (memory st))) = 0%nat
             \/ seen_running evs)
            /\ match pause (turn env t (memory st)) with
               | Waiting s => held (pending_program s) \/ seen_running evs
               | _ => True
               end).
  { destruct Hprog as [Ht|Hseen].
    - destruct (turn_held env t (memory st) Ht) as [Hs Hw].
      split; [left; exact Hs|].
      destruct (pause (turn env t (memory st))); auto.
    - split; [right; exact Hseen|].
      destruct (pause (turn env t (memory st))); auto. }
  destruct Hturn as [Hsaid Hwait].
  assert (Hcount :
            count is_spawn (output st ++ said (turn env t (memory st)))
            = 0%nat \/ seen_running evs).
  { destruct Hout as [H0|Hr]; [|right; exact Hr].
    destruct Hsaid as [Hs|Hr]; [|right; exact Hr].
    left. rewrite count_app, H0, Hs. reflexivity. }
  destruct (pause (turn env t (memory st))) as [|e|c|s|];
    try discriminate Hact; injection Hact as <-; split; cbn; auto.
  intros t0 Hin. apply in_app_or in Hin. destruct Hin as [Hin|[Heq|[]]].
  - apply Htasks. exact Hin.
  - injection Heq as <-. exact Hwait.
Qed.

Lemma step_keeps_spawn_held env st ev st' evs :
  step env st ev = Some st' ->
  spawn_held evs st -> spawn_held (evs ++ [(env, ev)]) st'.
Proof.
  unfold step. destruct (status st); [|discriminate].
  intros Hstep [Hout Htasks].
  assert (Hout' : count is_spawn (output st) = 0%nat
                  \/ seen_running (evs ++ [(env, ev)])).
  { destruct Hout; [left|right]; auto using seen_running_later. }
  assert (Htasks' : forall t0, In (Some t0) (tasks st) ->
                               held (pending_program t0)
                               \/ seen_running (evs ++ [(env, ev)])).
  { intros t0 Hin. destruct (Htasks t0 Hin); [left|right];
      auto using seen_running_later. }
  destruct ev as [sig|code|n s].
  - apply (activate_keeps_spawn_held env (on_signal sig) st st' _
             Hstep Hout' Htasks').
    left. apply spawnless_held. apply spawnless_on_signal.
  - destruct (child (memory st)) as [c|]; [|discriminate].
    destruct (exited c); [discriminate|].
    destruct (exitListener (memory st)) as [[ec2 id]|].
    + apply (activate_keeps_spawn_held env (on_child_exit ec2 id code)
               _ st' _ Hstep); auto.
      left. apply spawnless_held. apply spawnless_on_child_exit.
    + injection Hstep as <-. split; auto.
  - destruct (nth_error (tasks st) n) as [[t|]|] eqn:Hnth;
      try discriminate.
    destruct (deliver (awaited t) s) as [reply|] eqn:Hdel;
      [|discriminate].
    apply (activate_keeps_spawn_held env (resume t reply) _ st' _ Hstep);
      cbn; auto.
    + intros t0 Hin. apply Htasks'. apply (in_clear n). exact Hin.
    + apply nth_error_In in Hnth.
      destruct (Htasks t Hnth) as [Hheld|Hseen];
        [|right; apply seen_running_later; exact Hseen].
      destruct t as [rq k]. cbn in *.
      destruct rq as [cf name|ec2 [i|i|i]|ms]; try (left; apply Hheld).
      destruct s as [r|r|r|]; try discriminate Hdel.
      injection Hdel as <-.
      destruct (Hheld r) as [Hrunning|Hk]; [right|left; exact Hk].
      exists env, n, r. split; [|exact Hrunning].
      apply in_or_app. right. left. reflexivity.
Qed.

Lemma run_keeps_spawn_held evs : forall st st' pre,
    run st evs = Some st' ->
    spawn_held pre st -> spawn_held (pre ++ evs) st'.
Proof.
  induction evs as [|[env ev] evs IH]; intros st st' pre; cbn.
  - intros [= <-]. rewrite app_nil_r. trivial.
  - destruct (step env st ev) as [st1|] eqn:Hstep; [|discriminate].
    intros Hrun Hinv.
    replace (pre ++ (env, ev) :: evs) with ((pre ++ [(env, ev)]) ++ evs)
      by (rewrite <- app_assoc; reflexivity).
    apply (IH st1 st' _ Hrun).
    apply (step_keeps_spawn_held env st ev st1 pre Hstep Hinv).
Qed.

(** X22: in every run of the script, the tunnel child is spawned only
    after a DescribeInstances request has been answered with an instance
    in state [running]. *)
Theorem tunnel_opens_only_after_running env fuel inv evs st0 st :
  boot env fuel inv = Some st0 -> run st0 evs = Some st ->
  count is_spawn (output st) <> 0%nat ->
  exists e n resp,
    In (e, Settle n (InstancesDescribed (Resolved resp))) evs
    /\ stateOf resp = Some running.
Proof.
  intros Hboot Hrun Hspawned.
  assert (Hinit : spawn_held [] st0).
  { apply (activate_keeps_spawn_held env (script fuel inv) loaded st0 []
             Hboot).
    - left. reflexivity.
    - intros t0 [].
    - left. apply held_script. }
  destruct (run_keeps_spawn_held evs st0 st [] Hrun Hinit) as [Hout _].
  cbn in Hout. destruct Hout as [Hnone|(e & n & s & Hev & Hs)];
    [contradiction|].
  destruct s as [resp|err]; [|discriminate Hs].
  exists e, n, resp. split; [exact Hev|].
  cbn in Hs. destruct (stateOf resp) as [[]|]; try discriminate Hs.
  reflexivity.
Qed.

End OpeningFacts.

(** ** Once the tunnel is open the script only winds down *)

Section AfterwardsFacts.
Context `{JsNumber}.

Lemma winding_opens A (t : Async A) : winding t -> opens t.
Proof.
  induction t as [a|e|c|op k IH|rq k IH|]; cbn; auto.
  - intros [Hop Hk] r. rewrite Hop. apply IH. apply Hk.
  - intros [_ Hk] s. apply IH. apply Hk.
Qed.

Lemma winding_try_catch A (t : Async A) (h : Error -> Async A) :
  winding t -> (forall e, winding (h e)) -> winding (try_catch t h).
Proof.
  induction t as [a|e|c|op k IH|rq k IH|]; cbn; intros Ht Hh; auto.
  - destruct Ht as [Hop Hk]. split; [exact Hop|]. intros r. apply IH; auto.
  - destruct Ht as [Hrq Hk]. split; [exact Hrq|]. intros s. apply IH; auto.
Qed.

Lemma opens_try_catch A (t : Async A) (h : Error -> Async A) :
  opens t -> (forall e, winding (h e)) -> opens (try_catch t h).
Proof.
  induction t as [a|e|c|op k IH|rq k IH|]; cbn; intros Ht Hh; auto.
  - apply winding_opens. apply Hh.
  - intros r. specialize (Ht r). destruct (spawns op).
    + apply winding_try_catch; auto.
    + apply IH; auto.
Qed.

Lemma spawnless_bind_opens A B (t : Async A) (f : A -> Async B) :
  spawnless t -> (forall a, opens (f a)) -> opens (bind t f).
Proof.
  induction t as [a|e|c|op k IH|rq k IH|]; cbn; intros Ht Hf; auto.
  destruct Ht as [Hop Hk]. intros r. rewrite Hop. apply IH; auto.
Qed.

Lemma spawnless_poll fuel ec2 id timeoutMs start :
  spawnless (poll fuel ec2 id timeoutMs start).
Proof.
  induction fuel as [|fuel IH]; [exact I|].
  cbn. intros [resp|e]; cbn; [|exact I].
  assert (Hwait : forall now : Z,
             spawnless (if now - start >? timeoutMs
                        then Throw (TimedOutRunning id)
                        else bind (sleep 5000)
                               (fun _ => poll fuel ec2 id timeoutMs start))).
  { intros now. destruct (now - start >? timeoutMs); cbn; [exact I|].
    intros _. apply IH. }
  assert (Hstopping : forall now : Z,
             spawnless (if now - start >? timeoutMs
                        then Throw (TimedOutStopping id)
                        else bind (sleep 5000)
                               (fun _ => poll fuel ec2 id timeoutMs start))).
  { intros now. destruct (now - start >? timeoutMs); cbn; [exact I|].
    intros _. apply IH. }
  destruct (stateOf resp) as [[]|]; cbn.
  all: split; [reflexivity|]; intros _.
  all: try exact I.
  all: try (split; [reflexivity|]; first [exact Hwait|exact Hstopping]).
  all: try (split; [reflexivity|]; intros _; exact I).
  all: split; [reflexivity|]; intros _ [[]|e]; cbn; [|exact I];
    split; [reflexivity|exact Hwait].
Qed.

Lemma spawnless_ensureInstanceRunning fuel ec2 id timeoutMs :
  spawnless (ensureInstanceRunning fuel ec2 id timeoutMs).
Proof. cbn. split; [reflexivity|]. intros start. apply spawnless_poll. Qed.

Lemma opens_script fuel inv : opens (script fuel inv).
Proof.
  assert (Hcatch : forall e,
             winding (bind (console_error (Uncaught e))
                           (fun _ => ProcessExit 1) : Async unit)).
  { intros e. cbn. split; [reflexivity|]. intros _. exact I. }
  unfold script, main. destruct (parseArgs inv) as [e|args].
  - apply winding_opens. apply Hcatch.
  - cbn -[ensureInstanceRunning].
    intros [r1|e1]; cbn -[ensureInstanceRunning];
      [|intros _; exact I].
    destruct (outputValue r1 _) as [[v1|]|]; cbn -[ensureInstanceRunning];
      try (intros _; exact I).
    destruct (v1 =? "")%string; cbn -[ensureInstanceRunning];
      [intros _; exact I|].
    intros _ _.
    intros [r2|e2]; cbn -[ensureInstanceRunning];
      [|intros _; exact I].
    destruct (outputValue r2 _) as [[v2|]|]; cbn -[ensureInstanceRunning];
      try (intros _; exact I).
    destruct (v2 =? "")%string; cbn -[ensureInstanceRunning];
      [intros _; exact I|].
    apply opens_try_catch; [|exact Hcatch].
    apply spawnless_bind_opens; [apply spawnless_ensureInstanceRunning|].
    intros _. cbn. intros _ _ h.
    repeat (split; [reflexivity|]; intros _). exact I.
Qed.

Lemma winding_on_signal sig : winding (on_signal sig).
Proof.
  rewrite on_signal_code. unfold cleanupAndExit.
  generalize (signal_code sig). intros code.
  assert (Hwait : forall s : Settled unit, winding (finish_cleanup code s)).
  { intros [[]|e]; cbn; repeat split; intros; exact I. }
  cbn. split; [reflexivity|]. intros _. split; [reflexivity|].
  intros [h|]; cbn.
  - split; [reflexivity|]. intros [|]; cbn.
    + split; [reflexivity|]. intros [ec2|]; cbn;
        [|split; [reflexivity|]; intros; exact I].
      split; [reflexivity|]. intros [id|]; cbn; [|exact I].
      destruct (id =? "")%string; cbn; [exact I|].
      repeat (split; [reflexivity|]; intros _).
      split; [reflexivity|]. exact Hwait.
    + split; [reflexivity|]. intros [| |e]; cbn.
      all: split; [reflexivity|]; intros [ec2|]; cbn;
        [|split; [reflexivity|]; intros; exact I].
      all: split; [reflexivity|]; intros [id|]; cbn; [|exact I].
      all: destruct (id =? "")%string; cbn; [exact I|].
      all: repeat (split; [reflexivity|]; intros _).
      all: split; [reflexivity|]; exact Hwait.
  - split; [reflexivity|]. intros [ec2|]; cbn;
      [|split; [reflexivity|]; intros; exact I].
    split; [reflexivity|]. intros [id|]; cbn; [|exact I].
    destruct (id =? "")%string; cbn; [exact I|].
    repeat (split; [reflexivity|]; intros _).
    split; [reflexivity|]. exact Hwait.
Qed.

Lemma winding_on_child_exit ec2 id code :
  winding (on_child_exit ec2 id code).
Proof.
  cbn. repeat (split; [reflexivity|]; intros _).
  split; [reflexivity|].
  intros [[]|e]; cbn; repeat split; intros; exact I.
Qed.

Lemma perform_starts_nothing op x m :
  spawns op = false -> count is_startup (snd (perform op x m)) = 0%nat.
Proof.
  destruct op as [l|l| | |e| |i| |h|h|h sg|cmd a|h e i|f]; cbn;
    try reflexivity; try discriminate.
  intros _. destruct (child m) as [[k e]|]; cbn; [|reflexivity].
  destruct e; cbn; [reflexivity|]. destruct x; reflexivity.
Qed.

Lemma startup_spawn es :
  count is_startup es = 0%nat -> count is_spawn es = 0%nat.
Proof.
  unfold count. induction es as [|e es IH]; cbn; [reflexivity|].
  destruct e; cbn; try exact IH; try discriminate.
  destruct (negb (is_stop_request rq)); cbn; [discriminate|exact IH].
Qed.

Lemma turn_winding env (t : Async unit) :
  forall m, winding t ->
    count is_startup (said (turn env t m)) = 0%nat
    /\ match pause (turn env t m) with
       | Waiting s => forall r, winding (resume s r)
       | _ => True
       end.
Proof.
  induction t as [a|e|c|op k IH|rq k IH|]; intros m Ht; cbn;
    try (split; [reflexivity|exact I]).
  - destruct Ht as [Hop Hk].
    pose proof (perform_starts_nothing op (supply env op) m Hop) as Hp.
    destruct (perform op (supply env op) m) as [[r m'] es].
    cbn [snd] in Hp. cbn [pause said mem].
    destruct (IH r m' (Hk r)) as [Hs Hw].
    rewrite count_app, Hp, Hs. split; [reflexivity|exact Hw].
  - destruct Ht as [Hrq Hk]. split; [|exact Hk].
    unfold count. cbn. rewrite Hrq. reflexivity.
Qed.

Lemma turn_opens env (t : Async unit) :
  forall m, opens t ->
    (count is_spawn (said (turn env t m)) = 0%nat
     /\ match pause (turn env t m) with
        | Waiting s => forall r, opens (resume s r)
        | _ => True
        end)
    \/ (exists a command args b,
           said (turn env t m) = a ++ Spawned command args :: b
           /\ count is_spawn a = 0%nat
           /\ count is_startup b = 0%nat
           /\ match pause (turn env t m) with
              | Waiting s => forall r, winding (resume s r)
              | _ => True
              end).
Proof.
  induction t as [a|e|c|op k IH|rq k IH|]; intros m Ht; cbn;
    try (left; split; [reflexivity|exact I]).
  - destruct (spawns op) eqn:Hop.
    + destruct op as [l|l| | |e| |i| |h|h|h sg|cmd a|h e i|f];
        try discriminate Hop.
      cbn in Ht. cbn [perform supply].
      right. cbn.
      match goal with
      | |- context [turn env (k ?r) ?m'] =>
          destruct (turn_winding env (k r) m' (Ht r)) as [Hs Hw]
      end.
      exists [], cmd, a. eexists. split; [reflexivity|].
      split; [reflexivity|]. split; [exact Hs|exact Hw].
    + pose proof (perform_spawns_nothing op (supply env op) m Hop) as Hp.
      assert (Hk : forall r, opens (k r)).
      { intros r. specialize (Ht r). rewrite Hop in Ht. exact Ht. }
      destruct (perform op (supply env op) m) as [[r m'] es].
      cbn [snd] in Hp. cbn [pause said mem].
      destruct (IH r m' (Hk r)) as [[Hs Hw]|(a & c & args & b & Hsaid & Ha
                                              & Hb & Hw)].
      * left. rewrite count_app, Hp, Hs. split; [reflexivity|exact Hw].
      * right. exists (es ++ a), c, args, b. rewrite Hsaid.
        split; [rewrite <- app_assoc; reflexivity|].
        split; [rewrite count_app, Hp, Ha; reflexivity|].
        split; [exact Hb|exact Hw].
  - left. split; [reflexivity|exact Ht].
Qed.

Lemma one_opener_winding ts : Forall slot_winding ts -> one_opener ts.
Proof.
  induction 1 as [|t ts Ht Hts IH]; cbn; auto.
Qed.

Lemma one_opener_snoc_winding ts x :
  one_opener ts -> slot_winding x -> one_opener (ts ++ [x]).
Proof.
  intros Hts Hx. induction ts as [|t ts IH]; cbn in *.
  - left. auto.
  - destruct Hts as [[Ht Hts]|[Ht Hts]]; [left; auto|right].
    split; [exact Ht|]. apply Forall_app. split; auto.
Qed.

Lemma one_opener_snoc_opener ts x :
  Forall slot_winding ts -> slot_opens x -> one_opener (ts ++ [x]).
Proof.
  intros Hts Hx. induction Hts as [|t ts Ht Hts IH]; cbn.
  - right. split; [exact Hx|constructor].
  - left. auto.
Qed.

Lemma clear_winding n : forall ts,
    Forall slot_winding ts -> Forall slot_winding (clear n ts).
Proof.
  induction n as [|n IH]; intros ts Hts; destruct Hts as [|t ts Ht Hts];
    cbn; constructor; auto. exact I.
Qed.

Lemma one_opener_clear n : forall ts s,
    one_opener ts -> nth_error ts n = Some (Some s) ->
    (slot_winding (Some s) /\ one_opener (clear n ts))
    \/ (slot_opens (Some s) /\ Forall slot_winding (clear n ts)).
Proof.
  induction n as [|n IH]; intros [|t ts] s Hts Hnth; try discriminate.
  - cbn in Hnth. injection Hnth as ->. cbn in Hts. cbn [clear].
    destruct Hts as [[Ht Hts]|[Ht Hts]].
    + left. split; [exact Ht|]. cbn. left. split; [exact I|exact Hts].
    + right. split; [exact Ht|]. constructor; [exact I|exact Hts].
  - cbn in Hnth. cbn [clear]. cbn in Hts.
    destruct Hts as [[Ht Hts]|[Ht Hts]].
    + destruct (IH ts s Hts Hnth) as [[Hs Hc]|[Hs Hc]].
      * left. split; [exact Hs|]. cbn. left. auto.
      * right. split; [exact Hs|]. constructor; auto.
    + left. split.
      * apply nth_error_In in Hnth.
        rewrite Forall_forall in Hts. apply (Hts _ Hnth).
      * cbn. right. split; [exact Ht|]. apply clear_winding. exact Hts.
Qed.

(** An activation that only winds down keeps the invariant. *)
Lemma activate_winding env t st st' :
  activate env t st = Some st' ->
  winding t -> opened_once st -> opened_once st'.
Proof.
  unfold activate. intros Hact Ht Hinv.
  destruct (turn_winding env t (memory st) Ht) as [Hs Hw].
  pose proof (startup_spawn _ Hs) as Hs'.
  assert (Hout : forall ts,
             (one_opener (tasks st) -> one_opener ts) ->
             (Forall slot_winding (tasks st) -> Forall slot_winding ts) ->
             (count is_spawn (output st ++ said (turn env t (memory st)))
              = 0%nat /\ one_opener ts)
             \/ (exists pre command args post,
                    output st ++ said (turn env t (memory st))
                    = pre ++ Spawned command args :: post
                    /\ count is_spawn pre = 0%nat
                    /\ count is_startup post = 0%nat
                    /\ Forall slot_winding ts)).
  { intros ts Hone Hall.
    destruct Hinv as [[H0 Hts]|(pre & c & a & post & Ho & Hpre & Hpost
                                & Hts)].
    - left. rewrite count_app, H0, Hs'. auto.
    - right. exists pre, c, a, (post ++ said (turn env t (memory st))).
      rewrite Ho, <- app_assoc. split; [reflexivity|].
      split; [exact Hpre|]. rewrite count_app, Hpost, Hs. auto. }
  destruct (pause (turn env t (memory st))) as [|e|c|s|];
    try discriminate Hact; injection Hact as <-; unfold opened_once;
    cbn [output tasks]; try (apply Hout; auto).
  - intros Hone. apply one_opener_snoc_winding; auto.
  - intros Hall. apply Forall_app. split; [exact Hall|].
    constructor; [exact Hw|constructor].
Qed.

(** The activation that may still spawn keeps it too, when all the
    others only wind down. *)
Lemma activate_opener env t st st' :
  activate env t st = Some st' ->
  opens t -> count is_spawn (output st) = 0%nat ->
  Forall slot_winding (tasks st) -> opened_once st'.
Proof.
  unfold activate. intros Hact Ht H0 Hts.
  destruct (turn_opens env t (memory st) Ht)
    as [[Hs Hw]|(a & c & args & b & Hsaid & Ha & Hb & Hw)].
  - destruct (pause (turn env t (memory st))) as [|e|code|s|];
      try discriminate Hact; injection Hact as <-; left;
      cbn [output tasks]; rewrite count_app, H0, Hs; split;
      try reflexivity;
      try (apply one_opener_winding; exact Hts).
    apply one_opener_snoc_opener; [exact Hts|exact Hw].
  - assert (Hout : output st ++ said (turn env t (memory st))
                   = (output st ++ a) ++ Spawned c args :: b).
    { rewrite Hsaid, <- app_assoc. reflexivity. }
    assert (Hpre : count is_spawn (output st ++ a) = 0%nat).
    { rewrite count_app, H0, Ha. reflexivity. }
    destruct (pause (turn env t (memory st))) as [|e|code|s|];
      try discriminate Hact; injection Hact as <-; right;
      cbn [output tasks]; exists (output st ++ a), c, args, b;
      split; try exact Hout; split; try exact Hpre;
      split; try exact Hb; try exact Hts.
    apply Forall_app. split; [exact Hts|].
    constructor; [exact Hw|constructor].
Qed.

Lemma step_opened_once env st ev st' :
  step env st ev = Some st' -> opened_once st -> opened_once st'.
Proof.
  unfold step. destruct (status st); [|discriminate].
  intros Hstep Hinv.
  destruct ev as [sig|code|n s].
  - apply (activate_winding env (on_signal sig) st st' Hstep);
      [apply winding_on_signal|exact Hinv].
  - destruct (child (memory st)) as [c|]; [|discriminate].
    destruct (exited c); [discriminate|].
    destruct (exitListener (memory st)) as [[ec2 id]|].
    + apply (activate_winding env (on_child_exit ec2 id code) _ st' Hstep);
        [apply winding_on_child_exit|exact Hinv].
    + injection Hstep as <-. exact Hinv.
  - destruct (nth_error (tasks st) n) as [[t|]|] eqn:Hnth;
      try discriminate.
    destruct (deliver (awaited t) s) as [reply|]; [|discriminate].
    destruct Hinv as [[H0 Hts]|(pre & c & a & post & Ho & Hpre & Hpost
                                & Hts)].
    + destruct (one_opener_clear n (tasks st) t Hts Hnth)
        as [[Ht Hc]|[Ht Hc]].
      * apply (activate_winding env (resume t reply) _ st' Hstep);
          [apply Ht|]. left. cbn. auto.
      * apply (activate_opener env (resume t reply) _ st' Hstep);
          [apply Ht|exact H0|exact Hc].
    + apply (activate_winding env (resume t reply) _ st' Hstep).
      * apply nth_error_In in Hnth. rewrite Forall_forall in Hts.
        apply (Hts _ Hnth).
      * right. exists pre, c, a, post. cbn.
        split; [exact Ho|]. split; [exact Hpre|]. split; [exact Hpost|].
        apply clear_winding. exact Hts.
Qed.

Lemma run_opened_once evs : forall st st',
    run st evs = Some st' -> opened_once st -> opened_once st'.
Proof.
  induction evs as [|[env ev] evs IH]; intros st st'; cbn.
  - intros [= <-]. trivial.
  - destruct (step env st ev) as [st1|] eqn:Hstep; [|discriminate].
    intros Hrun Hinv. apply (IH st1 st' Hrun).
    apply (step_opened_once env st ev st1 Hstep Hinv).
Qed.

(** A list with one spawn splits around it in one way. *)
Lemma spawn_split pre : forall c a post pre' c' a' post',
    pre ++ Spawned c a :: post = pre' ++ Spawned c' a' :: post' ->
    count is_spawn pre = 0%nat -> count is_spawn post = 0%nat ->
    post' = post.
Proof.
  unfold count.
  induction pre as [|e pre IH]; intros c a post pre' c' a' post' Heq Hpre
                                       Hpost.
  - destruct pre' as [|e' pre']; cbn in Heq.
    + injection Heq as _ _ <-. reflexivity.
    + injection Heq as _ ->. rewrite filter_app in Hpost. cbn in Hpost.
      rewrite length_app in Hpost. cbn in Hpost. lia.
  - destruct pre' as [|e' pre']; cbn in Heq.
    + injection Heq as -> _. cbn in Hpre. discriminate.
    + injection Heq as -> Heq. apply (IH c a post pre' c' a' post' Heq).
      * cbn in Hpre. destruct (is_spawn e'); [discriminate|exact Hpre].
      * exact Hpost.
Qed.

(** X23: in every run of the script the tunnel child is spawned at most
    once, and once it has been spawned the script starts nothing any
    more: it spawns nothing and every request it sends from then on is a
    request to stop the instance. *)
Theorem nothing_but_stops_after_tunnel env fuel inv evs st0 st :
  boot env fuel inv = Some st0 -> run st0 evs = Some st ->
  (count is_spawn (output st) <= 1)%nat
  /\ forall pre command args post,
      output st = pre ++ Spawned command args :: post ->
      count is_startup post = 0%nat.
Proof.
  intros Hboot Hrun.
  assert (Hinit : opened_once st0).
  { apply (activate_opener env (script fuel inv) loaded st0 Hboot).
    - apply opens_script.
    - reflexivity.
    - constructor. }
  destruct (run_opened_once evs st0 st Hrun Hinit)
    as [[H0 _]|(pre0 & c0 & a0 & post0 & Ho & Hpre & Hpost & _)].
  - split; [lia|]. intros pre c a post Ho. rewrite Ho, count_app in H0.
    unfold count in H0. cbn in H0. lia.
  - pose proof (startup_spawn _ Hpost) as Hpost'. split.
    + rewrite Ho, count_app, Hpre. unfold count in *. cbn.
      rewrite Hpost'. lia.
    + intros pre c a post Ho'. rewrite Ho in Ho'.
      rewrite (spawn_split pre0 c0 a0 post0 pre c a post Ho' Hpre Hpost').
      exact Hpost.
Qed.

End AfterwardsFacts.

(** ** The child is signalled once, and not before it exists *)

Section SignallingFacts.
Context `{JsNumber}.

Lemma killfree_try_catch A (t : Async A) (h : Error -> Async A) :
  killfree t -> (forall e, killfree (h e)) -> killfree (try_catch t h).
Proof.
  induction t as [a|e|c|op k IH|rq k IH|]; cbn; intros Ht Hh; auto.
  destruct Ht as [Hop Hk]. split; [exact Hop|]. intros r. apply IH; auto.
Qed.

Lemma killfree_bind A B (t : Async A) (f : A -> Async B) :
  killfree t -> (forall a, killfree (f a)) -> killfree (bind t f).
Proof.
  induction t as [a|e|c|op k IH|rq k IH|]; cbn; intros Ht Hf; auto.
  destruct Ht as [Hop Hk]. split; [exact Hop|]. intros r. apply IH; auto.
Qed.

Lemma killfree_poll fuel ec2 id timeoutMs start :
  killfree (poll fuel ec2 id timeoutMs start).
Proof.
  induction fuel as [|fuel IH]; [exact I|].
  cbn. intros [resp|e]; cbn; [|exact I].
  assert (Hwait : forall now : Z,
             killfree (if now - start >? timeoutMs
                       then Throw (TimedOutRunning id)
                       else bind (sleep 5000)
                              (fun _ => poll fuel ec2 id timeoutMs start))).
  { intros now. destruct (now - start >? timeoutMs); cbn; [exact I|].
    intros _. apply IH. }
  assert (Hstopping : forall now : Z,
             killfree (if now - start >? timeoutMs
                       then Throw (TimedOutStopping id)
                       else bind (sleep 5000)
                              (fun _ => poll fuel ec2 id timeoutMs start))).
  { intros now. destruct (now - start >? timeoutMs); cbn; [exact I|].
    intros _. apply IH. }
  destruct (stateOf resp) as [[]|]; cbn.
  all: split; [reflexivity|]; intros _.
  all: try exact I.
  all: try (split; [reflexivity|]; first [exact Hwait|exact Hstopping]).
  all: try (split; [reflexivity|]; intros _; exact I).
  all: split; [reflexivity|]; intros _ [[]|e]; cbn; [|exact I];
    split; [reflexivity|exact Hwait].
Qed.

Lemma killfree_script fuel inv : killfree (script fuel inv).
Proof.
  assert (Hcatch : forall e,
             killfree (bind (console_error (Uncaught e))
                            (fun _ => ProcessExit 1) : Async unit)).
  { intros e. cbn. split; [reflexivity|]. intros _. exact I. }
  unfold script, main. destruct (parseArgs inv) as [e|args].
  - apply Hcatch.
  - cbn -[ensureInstanceRunning].
    intros [r1|e1]; cbn -[ensureInstanceRunning];
      [|split; [reflexivity|]; intros _; exact I].
    destruct (outputValue r1 _) as [[v1|]|]; cbn -[ensureInstanceRunning];
      try (split; [reflexivity|]; intros _; exact I).
    destruct (v1 =? "")%string; cbn -[ensureInstanceRunning];
      [split; [reflexivity|]; intros _; exact I|].
    split; [reflexivity|]. intros _. split; [reflexivity|]. intros _.
    intros [r2|e2]; cbn -[ensureInstanceRunning];
      [|split; [reflexivity|]; intros _; exact I].
    destruct (outputValue r2 _) as [[v2|]|]; cbn -[ensureInstanceRunning];
      try (split; [reflexivity|]; intros _; exact I).
    destruct (v2 =? "")%string; cbn -[ensureInstanceRunning];
      [split; [reflexivity|]; intros _; exact I|].
    apply killfree_try_catch; [|exact Hcatch].
    apply killfree_bind.
    + cbn. split; [reflexivity|]. intros start. apply killfree_poll.
    + intros _. cbn. intros _.
      repeat (split; [reflexivity|]; intros _). exact I.
Qed.

Lemma cautious_try_catch A (t : Async A) (h : Error -> Async A) :
  cautious t -> (forall e, cautious (h e)) -> cautious (try_catch t h).
Proof.
  induction t as [a|e|c|op k IH|rq k IH|]; cbn; intros Ht Hh; auto.
  destruct op; auto.
Qed.

Lemma cautious_bind A B (t : Async A) (f : A -> Async B) :
  cautious t -> (forall a, cautious (f a)) -> cautious (bind t f).
Proof.
  induction t as [a|e|c|op k IH|rq k IH|]; cbn; intros Ht Hf; auto.
  destruct op; auto.
Qed.

Lemma cautious_poll fuel ec2 id timeoutMs start :
  cautious (poll fuel ec2 id timeoutMs start).
Proof.
  induction fuel as [|fuel IH]; [exact I|].
  cbn. intros [resp|e]; cbn; [|exact I].
  assert (Hwait : forall now : Z,
             cautious (if now - start >? timeoutMs
                       then Throw (TimedOutRunning id)
                       else bind (sleep 5000)
                              (fun _ => poll fuel ec2 id timeoutMs start))).
  { intros now. destruct (now - start >? timeoutMs); cbn; [exact I|].
    intros _. apply IH. }
  assert (Hstopping : forall now : Z,
             cautious (if now - start >? timeoutMs
                       then Throw (TimedOutStopping id)
                       else bind (sleep 5000)
                              (fun _ => poll fuel ec2 id timeoutMs start))).
  { intros now. destruct (now - start >? timeoutMs); cbn; [exact I|].
    intros _. apply IH. }
  destruct (stateOf resp) as [[]|]; cbn.
  all: intros _.
  all: try exact I.
  all: try first [exact Hwait|exact Hstopping].
  all: try (intros _; exact I).
  all: intros _ [[]|e]; cbn; [|exact I]; exact Hwait.
Qed.

Lemma cautious_script fuel inv : cautious (script fuel inv).
Proof.
  assert (Hcatch : forall e,
             cautious (bind (console_error (Uncaught e))
                            (fun _ => ProcessExit 1) : Async unit)).
  { intros e. cbn. intros _. exact I. }
  unfold script, main. destruct (parseArgs inv) as [e|args].
  - apply Hcatch.
  - cbn -[ensureInstanceRunning].
    intros [r1|e1]; cbn -[ensureInstanceRunning];
      [|intros _; exact I].
    destruct (outputValue r1 _) as [[v1|]|]; cbn -[ensureInstanceRunning];
      try (intros _; exact I).
    destruct (v1 =? "")%string; cbn -[ensureInstanceRunning];
      [intros _; exact I|].
    intros _ _.
    intros [r2|e2]; cbn -[ensureInstanceRunning];
      [|intros _; exact I].
    destruct (outputValue r2 _) as [[v2|]|]; cbn -[ensureInstanceRunning];
      try (intros _; exact I).
    destruct (v2 =? "")%string; cbn -[ensureInstanceRunning];
      [intros _; exact I|].
    apply cautious_try_catch; [|exact Hcatch].
    apply cautious_bind.
    + cbn. intros start. apply cautious_poll.
    + intros _. cbn. intros _ _. exact I.
Qed.

Lemma killfree_finish_cleanup code r : killfree (finish_cleanup code r).
Proof. destruct r as [[]|e]; cbn; repeat split; intros; exact I. Qed.

Lemma cautious_finish_cleanup code r : cautious (finish_cleanup code r).
Proof. destruct r as [[]|e]; cbn; intros; exact I. Qed.

Lemma killfree_on_child_exit ec2 id code :
  killfree (on_child_exit ec2 id code).
Proof.
  cbn. repeat (split; [reflexivity|]; intros _).
  intros [[]|e]; cbn; repeat split; intros; exact I.
Qed.

Lemma cautious_on_child_exit ec2 id code :
  cautious (on_child_exit ec2 id code).
Proof. cbn. intros _ _ _ [[]|e]; cbn; intros; exact I. Qed.

(** What an operation other than [kill] leaves alone. *)
Lemma perform_kills_nothing op x m :
  sends_signal op = false ->
  count is_kill (snd (perform op x m)) = 0%nat
  /\ (count is_spawn (snd (perform op x m)) = 0%nat ->
      child (snd (fst (perform op x m))) = child m).
Proof.
  destruct op as [l|l| | |e| |i| |h|h|h sg|cmd a|h e i|f]; cbn;
    try discriminate; intros _; split; try reflexivity.
  unfold count. cbn. discriminate.
Qed.

Lemma perform_keeps_childGlobal op x m :
  match op with
  | SetChildGlobal _ => False
  | _ => True
  end ->
  childGlobal (snd (fst (perform op x m))) = childGlobal m.
Proof.
  destruct op as [l|l| | |e| |i| |h|h|h sg|cmd a|h e i|f]; cbn;
    try contradiction; intros _; try reflexivity.
  destruct (child m) as [[k e]|]; cbn; [|reflexivity].
  destruct e; cbn; [reflexivity|]. destruct x; reflexivity.
Qed.

Lemma turn_killfree env (t : Async unit) :
  forall m, killfree t ->
    count is_kill (said (turn env t m)) = 0%nat
    /\ (count is_spawn (said (turn env t m)) = 0%nat ->
        child (mem (turn env t m)) = child m)
    /\ match pause (turn env t m) with
       | Waiting s => forall r, killfree (resume s r)
       | _ => True
       end.
Proof.
  induction t as [a|e|c|op k IH|rq k IH|]; intros m Ht; cbn;
    try (repeat split; reflexivity).
  - destruct Ht as [Hop Hk].
    destruct (perform_kills_nothing op (supply env op) m Hop) as [Hp Hc].
    destruct (perform op (supply env op) m) as [[r m'] es].
    cbn [fst snd] in Hp, Hc. cbn [pause said mem].
    destruct (IH r m' (Hk r)) as (Hs & Hch & Hw).
    rewrite !count_app, Hp, Hs. split; [reflexivity|].
    split; [|exact Hw].
    intros Hnone. rewrite Hch by lia. apply Hc. lia.
  - repeat split; try reflexivity. exact Ht.
Qed.

Lemma turn_cautious env (t : Async unit) :
  forall m, cautious t ->
    count is_spawn (said (turn env t m)) = 0%nat ->
    childGlobal (mem (turn env t m)) = childGlobal m
    /\ match pause (turn env t m) with
       | Waiting s => forall r, cautious (resume s r)
       | _ => True
       end.
Proof.
  induction t as [a|e|c|op k IH|rq k IH|]; intros m Ht; cbn;
    try (intros _; split; [reflexivity|exact I]).
  - assert (Hop : match op with
                  | SetChildGlobal _ => False
                  | _ => True
                  end) by (destruct op; auto).
    pose proof (perform_keeps_childGlobal op (supply env op) m Hop) as Hg.
    assert (Hk : spawns op = false -> forall r, cautious (k r)).
    { destruct op; try discriminate; try contradiction; auto. }
    assert (Hsp : spawns op = true ->
                  count is_spawn (snd (perform op (supply env op) m))
                  <> 0%nat).
    { destruct op; discriminate. }
    destruct (perform op (supply env op) m) as [[r m'] es].
    cbn [fst snd] in Hg, Hsp. cbn [pause said mem].
    rewrite count_app. intros Hnone.
    destruct (spawns op) eqn:Hs; [specialize (Hsp eq_refl); lia|].
    destruct (IH r m' (Hk eq_refl r)) as [Hcg Hw]; [lia|].
    rewrite Hcg. split; [exact Hg|exact Hw].
  - intros _. split; [reflexivity|exact Ht].
Qed.

(** The guarded [kill] of the teardown. *)
Lemma teardown_kill_guard env m :
  childGlobal (snd (teardown_kill env m)) = childGlobal m
  /\ count is_spawn (fst (teardown_kill env m)) = 0%nat
  /\ (childGlobal m = None -> fst (teardown_kill env m) = [])
  /\ ((count is_delivered (fst (teardown_kill env m)) = 0%nat
       /\ child (snd (teardown_kill env m)) = child m)
      \/ (count is_delivered (fst (teardown_kill env m)) = 1%nat
          /\ exists c, child (snd (teardown_kill env m)) = Some c
                       /\ killed c = true)).
Proof.
  destruct m as [e b cg ch l]. unfold teardown_kill. cbn.
  destruct cg as [c|]; cbn.
  2: repeat split; try reflexivity; left; split; reflexivity.
  destruct ch as [[[] []]|]; cbn; try destruct (env_kill env); cbn;
    repeat split; try reflexivity; try discriminate;
    try (left; split; reflexivity).
  right. split; [reflexivity|]. eexists. split; reflexivity.
Qed.

(** One activation of [cleanupAndExit], in any memory. *)
Lemma turn_cleanup_shape env code m :
  exists pa tail,
    turn env (cleanupAndExit code) m
    = {| pause := pa;
         said := Called (call_cleanupAndExit code)
                 :: fst (teardown_kill env m) ++ tail;
         mem := snd (teardown_kill env m) |}
    /\ count is_kill tail = 0%nat
    /\ count is_spawn tail = 0%nat
    /\ match pa with
       | Waiting s =>
           forall r, killfree (resume s r) /\ cautious (resume s r)
       | _ => True
       end.
Proof.
  destruct (match ec2Global m with
            | Some _ => truthy (bastionIdGlobal m)
            | None => false
            end) eqn:Hoff.
  - destruct (ec2Global m) as [ec2|] eqn:He; [|discriminate].
    destruct (bastionIdGlobal m) as [id|] eqn:Hb; [|discriminate].
    cbn in Hoff. apply negb_true_iff in Hoff.
    rewrite (turn_cleanup_armed env code m ec2 id He Hb Hoff).
    eexists. eexists. split; [reflexivity|].
    repeat split; try reflexivity.
    + apply killfree_finish_cleanup.
    + apply cautious_finish_cleanup.
  - rewrite (turn_cleanup_unarmed_said env code m Hoff).
    eexists. eexists. split; [reflexivity|].
    repeat split; reflexivity.
Qed.

Lemma delivered_kill es :
  count is_kill es = 0%nat -> count is_delivered es = 0%nat.
Proof.
  unfold count. induction es as [|e es IH]; cbn; [reflexivity|].
  destruct e as [l|l|rq|sg r|c a|c|f]; cbn; try exact IH; discriminate.
Qed.

Lemma delivered_split es :
  count is_delivered es <> 0%nat ->
  exists pre sig r post, es = pre ++ Kill sig r :: post.
Proof.
  unfold count. induction es as [|e es IH]; cbn; [contradiction|].
  destruct e as [l|l|rq|sg r|c a|c|f]; cbn.
  4: intros _; exists [], sg, r, es; reflexivity.
  all: intros Hn; destruct (IH Hn) as (pre & sig & r' & post & ->);
    eexists (_ :: pre), sig, r', post; reflexivity.
Qed.

Lemma kills_late_spawned out :
  kills_late out -> count is_delivered out <> 0%nat ->
  count is_spawn out <> 0%nat.
Proof.
  intros Hlate Hn.
  destruct (delivered_split out Hn) as (pre & sig & r & post & ->).
  specialize (Hlate pre sig r post eq_refl).
  rewrite count_app. lia.
Qed.

Lemma kill_in_said said pre sig r post :
  said = pre ++ Kill sig r :: post -> count is_kill said <> 0%nat.
Proof.
  intros ->. rewrite count_app. unfold count. cbn. lia.
Qed.

Lemma kills_late_app out said :
  kills_late out ->
  count is_spawn out <> 0%nat \/ count is_kill said = 0%nat ->
  kills_late (out ++ said).
Proof.
  intros Hlate Hsaid pre sig r post Heq.
  apply app_eq_app in Heq. destruct Heq as (l & [[Ho Hs]|[Hp Hs]]).
  - destruct l as [|x l]; cbn in Hs.
    + rewrite app_nil_r in Ho. subst pre.
      destruct Hsaid as [Hsp|Hk]; [exact Hsp|].
      exfalso. apply (kill_in_said said [] sig r post); auto.
    + injection Hs as <- _. apply (Hlate pre sig r l Ho).
  - subst pre. rewrite count_app.
    destruct Hsaid as [Hsp|Hk]; [lia|].
    exfalso. apply (kill_in_said said l sig r post); auto.
Qed.

(** How an activation keeps the invariant, from what its first turn
    does. *)
Lemma activate_guarded env t st st' :
  activate env t st = Some st' ->
  kill_guarded st ->
  let u := turn env t (memory st) in
  match pause u with
  | Waiting s => forall r, killfree (resume s r)
  | _ => True
  end ->
  (count is_spawn (output st ++ said u) = 0%nat ->
   childGlobal (mem u) = None
   /\ match pause u with
      | Waiting s => forall r, cautious (resume s r)
      | _ => True
      end) ->
  (count is_delivered (output st ++ said u) = 0%nat
   \/ (count is_delivered (output st ++ said u) = 1%nat
       /\ exists c, child (mem u) = Some c /\ killed c = true)) ->
  count is_spawn (output st) <> 0%nat \/ count is_kill (said u) = 0%nat ->
  kill_guarded st'.
Proof.
  unfold activate. intros Hact Hinv Hw Hg Hd Hl.
  set (u := turn env t (memory st)) in *.
  destruct Hinv as (Hkf & Hcg & Hdel & Hlate).
  assert (Hlate' : kills_late (output st ++ said u))
    by (apply kills_late_app; assumption).
  assert (Hold : count is_spawn (output st ++ said u) = 0%nat ->
                 forall t0, In (Some t0) (tasks st) ->
                            forall r, cautious (resume t0 r)).
  { intros Hnone. apply Hcg. rewrite count_app in Hnone. lia. }
  destruct (pause u) as [|e|c|s|]; try discriminate Hact;
    injection Hact as <-; unfold kill_guarded; cbn [tasks output memory];
    (split; [|split; [|split; [exact Hd|exact Hlate']]]); auto.
  - intros Hnone. split; [apply Hg; exact Hnone|]. auto.
  - intros Hnone. split; [apply Hg; exact Hnone|]. auto.
  - intros Hnone. split; [apply Hg; exact Hnone|]. auto.
  - intros t0 Hin. apply in_app_or in Hin.
    destruct Hin as [Hin|[Heq|[]]]; [auto|]. injection Heq as <-. exact Hw.
  - intros Hnone. destruct (Hg Hnone) as [Hnone' Hw']. split; [exact Hnone'|].
    intros t0 Hin. apply in_app_or in Hin.
    destruct Hin as [Hin|[Heq|[]]]; [auto|]. injection Heq as <-. exact Hw'.
Qed.

(** An activation that calls no [kill]. *)
Lemma activate_killfree env t st st' :
  activate env t st = Some st' ->
  kill_guarded st ->
  killfree t ->
  (count is_spawn (output st) = 0%nat -> cautious t) ->
  (count is_spawn (output st) <> 0%nat ->
   count is_spawn (said (turn env t (memory st))) = 0%nat) ->
  kill_guarded st'.
Proof.
  intros Hact Hinv Ht Hc Hs.
  destruct (turn_killfree env t (memory st) Ht) as (Hk & Hch & Hw).
  pose proof (delivered_kill _ Hk) as Hd.
  apply (activate_guarded env t st st' Hact Hinv); cbv zeta.
  - exact Hw.
  - rewrite count_app. intros Hnone.
    destruct Hinv as (_ & Hcg & _).
    destruct Hcg as [Hg _]; [lia|].
    destruct (turn_cautious env t (memory st)) as [Hg' Hw'];
      [apply Hc; lia|lia|].
    rewrite Hg'. auto.
  - rewrite count_app, Hd, Nat.add_0_r.
    destruct Hinv as (_ & _ & [H0|(H1 & c & Hchild & Hkilled)] & Hlate);
      [left; exact H0|right].
    split; [exact H1|]. exists c. split; [|exact Hkilled].
    rewrite Hch; [exact Hchild|]. apply Hs.
    apply kills_late_spawned; [exact Hlate|lia].
  - right. exact Hk.
Qed.

Lemma step_kill_guarded env st ev st' :
  step env st ev = Some st' ->
  opened_once st -> kill_guarded st -> kill_guarded st'.
Proof.
  unfold step. destruct (status st); [|discriminate].
  intros Hstep Hopen Hinv.
  destruct ev as [sig|code|n s].
  - rewrite on_signal_code in Hstep.
    destruct (turn_cleanup_shape env (signal_code sig) (memory st))
      as (pa & tail & Hturn & Hk & Hs & Hw).
    destruct (teardown_kill_guard env (memory st))
      as (Hg & Hks & Hnone & Hkd).
    pose proof (delivered_kill _ Hk) as Hd.
    apply (activate_guarded env _ st st' Hstep Hinv); cbv zeta;
      rewrite Hturn; cbn [pause said mem].
    + destruct pa; auto. intros r. apply Hw.
    + change (Called (call_cleanupAndExit (signal_code sig))
              :: fst (teardown_kill env (memory st)) ++ tail)
        with ([Called (call_cleanupAndExit (signal_code sig))]
              ++ fst (teardown_kill env (memory st)) ++ tail).
      rewrite !count_app. intros H0.
      destruct Hinv as (_ & Hcg & _). destruct Hcg as [Hcg _]; [lia|].
      rewrite Hg. split; [exact Hcg|].
      destruct pa; auto. intros r. apply Hw.
    + change (Called (call_cleanupAndExit (signal_code sig))
              :: fst (teardown_kill env (memory st)) ++ tail)
        with ([Called (call_cleanupAndExit (signal_code sig))]
              ++ fst (teardown_kill env (memory st)) ++ tail).
      rewrite !count_app, Hd, Nat.add_0_r.
      change (count is_delivered
                [Called (call_cleanupAndExit (signal_code sig))])
        with 0%nat.
      rewrite Nat.add_0_l.
      destruct Hinv as (_ & _ & [H0|(H1 & c & Hchild & Hkilled)] & _).
      * rewrite H0, Nat.add_0_l.
        destruct Hkd as [[Hkd Hc]|[Hkd Hc]]; [left|right; split];
          assumption.
      * rewrite (teardown_kill_once env (memory st) c Hchild Hkilled).
        cbn [fst snd]. right. split; [rewrite H1; reflexivity|].
        exists c. auto.
    + destruct (Nat.eq_dec (count is_spawn (output st)) 0) as [H0|Hn];
        [right|left; exact Hn].
      destruct Hinv as (_ & Hcg & _). destruct (Hcg H0) as [Hcgn _].
      rewrite (Hnone Hcgn). cbn [app].
      change (Called (call_cleanupAndExit (signal_code sig)) :: tail)
        with ([Called (call_cleanupAndExit (signal_code sig))] ++ tail).
      rewrite count_app, Hk. reflexivity.
  - destruct (child (memory st)) as [c|] eqn:Hchild; [|discriminate].
    destruct (exited c) eqn:Hx; [discriminate|].
    assert (Hinv' : kill_guarded
                      {| memory := with_child (memory st)
                                     (Some {| killed := killed c;
                                              exited := true |});
                         tasks := tasks st; exitCode := exitCode st;
                         output := output st;
                         unhandled := unhandled st |}).
    { destruct Hinv as (Hkf & Hcg & Hdel & Hlate).
      unfold kill_guarded. cbn [tasks output memory with_child childGlobal
                                child].
      split; [exact Hkf|]. split; [exact Hcg|]. split; [|exact Hlate].
      destruct Hdel as [H0|(H1 & c' & Hc' & Hk')]; [left; exact H0|right].
      split; [exact H1|]. eexists. split; [reflexivity|]. cbn.
      rewrite Hc' in Hchild. injection Hchild as <-. exact Hk'. }
    destruct (exitListener (memory st)) as [[ec2 id]|].
    + apply (activate_killfree env _ _ st' Hstep Hinv').
      * apply killfree_on_child_exit.
      * intros _. apply cautious_on_child_exit.
      * intros _. apply startup_spawn.
        apply turn_winding. apply winding_on_child_exit.
    + injection Hstep as <-. exact Hinv'.
  - destruct (nth_error (tasks st) n) as [[t|]|] eqn:Hnth;
      try discriminate.
    destruct (deliver (awaited t) s) as [reply|]; [|discriminate].
    assert (Hin : In (Some t) (tasks st))
      by (apply nth_error_In in Hnth; exact Hnth).
    assert (Hinv' : kill_guarded
                      {| memory := memory st; tasks := clear n (tasks st);
                         exitCode := exitCode st; output := output st;
                         unhandled := unhandled st |}).
    { destruct Hinv as (Hkf & Hcg & Hdel & Hlate).
      unfold kill_guarded. cbn [tasks output memory].
      split; [|split; [|split; [exact Hdel|exact Hlate]]].
      - intros t0 Ht0. apply Hkf. apply (in_clear n). exact Ht0.
      - intros H0. destruct (Hcg H0) as [Hg Hc]. split; [exact Hg|].
        intros t0 Ht0. apply Hc. apply (in_clear n). exact Ht0. }
    destruct Hinv as (Hkf & Hcg & _).
    apply (activate_killfree env _ _ st' Hstep Hinv'); cbn [output memory].
    + apply Hkf. exact Hin.
    + intros H0. apply (Hcg H0). exact Hin.
    + intros Hn.
      destruct Hopen as [[H0 _]|(pre & c & a & post & _ & _ & _ & Hts)];
        [contradiction|].
      apply startup_spawn. apply turn_winding.
      rewrite Forall_forall in Hts. apply (Hts _ Hin).
Qed.

Lemma run_kill_guarded evs : forall st st',
    run st evs = Some st' ->
    opened_once st -> kill_guarded st -> kill_guarded st'.
Proof.
  induction evs as [|[env ev] evs IH]; intros st st'; cbn.
  - intros [= <-]. trivial.
  - destruct (step env st ev) as [st1|] eqn:Hstep; [|discriminate].
    intros Hrun Hopen Hinv. apply (IH st1 st' Hrun).
    + apply (step_opened_once env st ev st1 Hstep Hopen).
    + apply (step_kill_guarded env st ev st1 Hstep Hopen Hinv).
Qed.

Lemma loaded_kill_guarded : kill_guarded loaded.
Proof.
  unfold kill_guarded. cbn. split; [intros t []|].
  split; [intros _; split; [reflexivity|intros t []]|].
  split; [left; reflexivity|].
  intros [|e pre] sig r post Heq; discriminate Heq.
Qed.

Lemma opened_once_count st :
  opened_once st -> (count is_spawn (output st) <= 1)%nat.
Proof.
  intros [[H0 _]|(pre & c & a & post & Ho & Hpre & Hpost & _)]; [lia|].
  pose proof (startup_spawn _ Hpost) as Hp.
  rewrite Ho, count_app, Hpre. unfold count in *. cbn. rewrite Hp. lia.
Qed.

(** X24: in every run of the script a [kill] is only attempted after the
    child has been spawned, and the child is delivered a signal at most
    once. *)
Theorem child_signalled_once_after_spawn env fuel inv evs st0 st :
  boot env fuel inv = Some st0 -> run st0 evs = Some st ->
  (count is_delivered (output st) <= 1)%nat
  /\ forall pre sig r post,
      output st = pre ++ Kill sig r :: post ->
      count is_spawn pre = 1%nat.
Proof.
  intros Hboot Hrun.
  assert (Hopen0 : opened_once st0).
  { apply (activate_opener env (script fuel inv) loaded st0 Hboot).
    - apply opens_script.
    - reflexivity.
    - constructor. }
  assert (Hinit : kill_guarded st0).
  { apply (activate_killfree env (script fuel inv) loaded st0 Hboot).
    - apply loaded_kill_guarded.
    - apply killfree_script.
    - intros _. apply cautious_script.
    - intros Hn. exfalso. apply Hn. reflexivity. }
  pose proof (run_opened_once evs st0 st Hrun Hopen0) as Hopen.
  destruct (run_kill_guarded evs st0 st Hrun Hopen0 Hinit)
    as (_ & _ & Hdel & Hlate).
  split; [destruct Hdel as [H0|[H1 _]]; lia|].
  intros pre sig r post Ho.
  pose proof (Hlate pre sig r post Ho) as Hn.
  pose proof (opened_once_count st Hopen) as Hle.
  rewrite Ho, count_app in Hle. lia.
Qed.

End SignallingFacts.

(** ** No stop request without a trigger *)

Section TriggerFacts.
Context `{JsNumber}.

Lemma stopless_bind A B (t : Async A) (f : A -> Async B) :
  stopless t -> (forall a, stopless (f a)) -> stopless (bind t f).
Proof.
  induction t as [a|e|c|op k IH|rq k IH|]; cbn; intros Ht Hf; auto.
  destruct Ht as [Hrq Hk]. split; [exact Hrq|]. intros s. apply IH; auto.
Qed.

Lemma stopless_try_catch A (t : Async A) (h : Error -> Async A) :
  stopless t -> (forall e, stopless (h e)) -> stopless (try_catch t h).
Proof.
  induction t as [a|e|c|op k IH|rq k IH|]; cbn; intros Ht Hh; auto.
  destruct Ht as [Hrq Hk]. split; [exact Hrq|]. intros s. apply IH; auto.
Qed.

Lemma stopless_poll fuel ec2 id timeoutMs start :
  stopless (poll fuel ec2 id timeoutMs start).
Proof.
  induction fuel as [|fuel IH]; [exact I|].
  cbn. split; [reflexivity|]. intros [resp|e]; cbn; [|exact I].
  assert (Hwait : forall now : Z,
             stopless (if now - start >? timeoutMs
                       then Throw (TimedOutRunning id)
                       else bind (sleep 5000)
                              (fun _ => poll fuel ec2 id timeoutMs start))).
  { intros now. destruct (now - start >? timeoutMs); cbn; [exact I|].
    split; [reflexivity|]. intros _. apply IH. }
  assert (Hstopping : forall now : Z,
             stopless (if now - start >? timeoutMs
                       then Throw (TimedOutStopping id)
                       else bind (sleep 5000)
                              (fun _ => poll fuel ec2 id timeoutMs start))).
  { intros now. destruct (now - start >? timeoutMs); cbn; [exact I|].
    split; [reflexivity|]. intros _. apply IH. }
  destruct (stateOf resp) as [[]|]; cbn.
  all: intros _.
  all: try exact I.
  all: try first [exact Hwait|exact Hstopping].
  all: try (intros _; exact I).
  all: intros _; split; [reflexivity|]; intros [[]|e]; cbn; [|exact I];
    exact Hwait.
Qed.

Lemma stopless_getStackOutput cf name key :
  stopless (getStackOutput cf name key).
Proof.
  cbn. split; [reflexivity|]. intros [resp|e]; cbn; [|exact I].
  destruct (outputValue resp key) as [[v|]|]; cbn; try exact I.
  destruct (v =? "")%string; exact I.
Qed.

(** [main] sends no stop request, and neither does the handler of its
    rejection. *)
Lemma stopless_script fuel inv : stopless (script fuel inv).
Proof.
  assert (Hcatch : forall e,
             stopless (bind (console_error (Uncaught e))
                            (fun _ => ProcessExit 1) : Async unit)).
  { intros e. cbn. intros _. exact I. }
  unfold script, main. apply stopless_try_catch; [|exact Hcatch].
  apply stopless_bind.
  { destruct (parseArgs inv); exact I. }
  intros args. cbv zeta.
  apply stopless_bind; [apply stopless_getStackOutput|]. intros bastionId.
  apply stopless_bind; [cbn; intros _; exact I|]. intros _.
  apply stopless_bind; [cbn; intros _; exact I|]. intros _.
  apply stopless_bind; [apply stopless_getStackOutput|]. intros dbEndpoint.
  apply stopless_bind.
  { cbn. intros start. apply stopless_poll. }
  intros _. cbn. split; [reflexivity|]. intros _ _ _ _ _ _. exact I.
Qed.

Lemma stopless_finish_cleanup code r : stopless (finish_cleanup code r).
Proof. destruct r as [[]|e]; cbn; intros; exact I. Qed.

Lemma stopless_finish_listener r : stopless (finish_listener r).
Proof. destruct r as [[]|e]; cbn; intros; exact I. Qed.

Lemma perform_stops_nothing op x m :
  count is_stop (snd (perform op x m)) = 0%nat.
Proof.
  destruct op as [l|l| | |e| |i| |h|h|h sg|cmd a|h e i|f]; cbn;
    try reflexivity.
  destruct (child m) as [[k e]|]; cbn; [|reflexivity].
  destruct e; cbn; [reflexivity|]. destruct x; reflexivity.
Qed.

Lemma turn_stopless env (t : Async unit) :
  forall m, stopless t ->
    count is_stop (said (turn env t m)) = 0%nat
    /\ match pause (turn env t m) with
       | Waiting s => forall r, stopless (resume s r)
       | _ => True
       end.
Proof.
  induction t as [a|e|c|op k IH|rq k IH|]; intros m Ht; cbn;
    try (split; [reflexivity|exact I]).
  - pose proof (perform_stops_nothing op (supply env op) m) as Hp.
    destruct (perform op (supply env op) m) as [[r m'] es].
    cbn [snd] in Hp. cbn [pause said mem].
    destruct (IH r m' (Ht r)) as [Hs Hw].
    rewrite count_app, Hp, Hs. split; [reflexivity|exact Hw].
  - destruct Ht as [Hrq Hk]. split; [|exact Hk].
    destruct rq as [cf n|ec2 [i|i|i]|ms]; try reflexivity.
    discriminate Hrq.
Qed.

(** One activation of [cleanupAndExit] sends at most one stop request. *)
Lemma turn_cleanup_stops env code m :
  (count is_stop (said (turn env (cleanupAndExit code) m)) <= 1)%nat
  /\ match pause (turn env (cleanupAndExit code) m) with
     | Waiting s => forall r, stopless (resume s r)
     | _ => True
     end.
Proof.
  destruct (teardown_kill_effects env m) as (Hks & _ & _).
  destruct (match ec2Global m with
            | Some _ => truthy (bastionIdGlobal m)
            | None => false
            end) eqn:Hoff.
  - destruct (ec2Global m) as [ec2|] eqn:He; [|discriminate].
    destruct (bastionIdGlobal m) as [id|] eqn:Hb; [|discriminate].
    cbn in Hoff. apply negb_true_iff in Hoff.
    rewrite (turn_cleanup_armed env code m ec2 id He Hb Hoff).
    cbn [pause said]. split; [|apply stopless_finish_cleanup].
    change (Called (call_cleanupAndExit code)
            :: fst (teardown_kill env m) ++ ?l)
      with ([Called (call_cleanupAndExit code)]
            ++ fst (teardown_kill env m) ++ l).
    rewrite !count_app, Hks. cbn. lia.
  - rewrite (turn_cleanup_unarmed_said env code m Hoff).
    cbn [pause said]. split; [|exact I].
    change (Called (call_cleanupAndExit code)
            :: fst (teardown_kill env m) ++ ?l)
      with ([Called (call_cleanupAndExit code)]
            ++ fst (teardown_kill env m) ++ l).
    rewrite !count_app, Hks. cbn. lia.
Qed.

Lemma triggers_snoc evs env ev :
  triggers (evs ++ [(env, ev)])
  = (triggers evs + if is_trigger ev then 1 else 0)%nat.
Proof.
  unfold triggers. rewrite filter_app, length_app. cbn.
  destruct (is_trigger ev); reflexivity.
Qed.

Lemma activate_stops env t st st' n :
  activate env t st = Some st' ->
  (count is_stop (said (turn env t (memory st))) <= n)%nat ->
  match pause (turn env t (memory st)) with
  | Waiting s => forall r, stopless (resume s r)
  | _ => True
  end ->
  (forall t0, In (Some t0) (tasks st) -> forall r, stopless (resume t0 r)) ->
  (count is_stop (output st') <= count is_stop (output st) + n)%nat
  /\ forall t0, In (Some t0) (tasks st') -> forall r, stopless (resume t0 r).
Proof.
  unfold activate. intros Hact Hs Hw Hts.
  destruct (pause (turn env t (memory st))) as [|e|c|s|];
    try discriminate Hact; injection Hact as <-; cbn [output tasks];
    rewrite count_app; (split; [lia|]); auto.
  intros t0 Hin. apply in_app_or in Hin.
  destruct Hin as [Hin|[Heq|[]]]; [auto|]. injection Heq as <-. exact Hw.
Qed.

Lemma step_stops_triggered env st ev st' evs :
  step env st ev = Some st' ->
  stops_triggered evs st -> stops_triggered (evs ++ [(env, ev)]) st'.
Proof.
  unfold step. destruct (status st); [|discriminate].
  intros Hstep [Hout Hts]. unfold stops_triggered.
  rewrite triggers_snoc.
  destruct ev as [sig|code|n s]; cbn [is_trigger].
  - rewrite on_signal_code in Hstep.
    destruct (turn_cleanup_stops env (signal_code sig) (memory st))
      as [Hs Hw].
    destruct (activate_stops env _ st st' 1 Hstep Hs Hw Hts) as [Hc Ht].
    split; [lia|exact Ht].
  - destruct (child (memory st)) as [c|]; [|discriminate].
    destruct (exited c); [discriminate|].
    destruct (exitListener (memory st)) as [[ec2 id]|].
    + destruct (activate_stops env _ _ st' 1 Hstep) as [Hc Ht].
      * rewrite turn_on_child_exit. cbn. lia.
      * rewrite turn_on_child_exit. cbn [pause stop_in_listener resume].
        apply stopless_finish_listener.
      * exact Hts.
      * cbn [output] in Hc. split; [lia|exact Ht].
    + injection Hstep as <-. cbn [output tasks]. split; [lia|exact Hts].
  - destruct (nth_error (tasks st) n) as [[t|]|] eqn:Hnth;
      try discriminate.
    destruct (deliver (awaited t) s) as [reply|]; [|discriminate].
    assert (Hin : In (Some t) (tasks st))
      by (apply nth_error_In in Hnth; exact Hnth).
    destruct (turn_stopless env (resume t reply) (memory st)
                (Hts t Hin reply)) as [Hs Hw].
    destruct (activate_stops env _ _ st' 0 Hstep) as [Hc Ht];
      cbn [memory tasks output].
    + rewrite Hs. lia.
    + exact Hw.
    + intros t0 Ht0. apply Hts. apply (in_clear n). exact Ht0.
    + cbn [output] in Hc. split; [lia|exact Ht].
Qed.

Lemma run_stops_triggered evs : forall st st' pre,
    run st evs = Some st' ->
    stops_triggered pre st -> stops_triggered (pre ++ evs) st'.
Proof.
  induction evs as [|[env ev] evs IH]; intros st st' pre; cbn.
  - intros [= <-]. rewrite app_nil_r. trivial.
  - destruct (step env st ev) as [st1|] eqn:Hstep; [|discriminate].
    intros Hrun Hinv.
    replace (pre ++ (env, ev) :: evs) with ((pre ++ [(env, ev)]) ++ evs)
      by (rewrite <- app_assoc; reflexivity).
    apply (IH st1 st' _ Hrun).
    apply (step_stops_triggered env st ev st1 pre Hstep Hinv).
Qed.

(** X25: the script stops the instance only when it is told to: in
    every run there are at most as many stop requests as signals
    received and exits of the child.  [main] itself never sends one, so
    a start-up that fails after it has started the instance leaves the
    instance running. *)
Theorem stops_need_a_trigger env fuel inv evs st0 st :
  boot env fuel inv = Some st0 -> run st0 evs = Some st ->
  (count is_stop (output st) <= triggers evs)%nat.
Proof.
  intros Hboot Hrun.
  assert (Hinit : stops_triggered [] st0).
  { destruct (turn_stopless env (script fuel inv) (memory loaded)
                (stopless_script fuel inv)) as [Hs Hw].
    destruct (activate_stops env (script fuel inv) loaded st0 0 Hboot)
      as [Hc Ht].
    - rewrite Hs. lia.
    - exact Hw.
    - intros t0 [].
    - split; [cbn in *; lia|exact Ht]. }
  destruct (run_stops_triggered evs st0 st [] Hrun Hinit) as [Hout _].
  exact Hout.
Qed.

End TriggerFacts.

(** ** The properties at concrete inputs *)

Section Instances.
#[local] Existing Instance decimal_numbers.

(** C1 as stated fails: two signals in a row on an established session
    enter the teardown body twice and send two stop requests. *)
Lemma two_signals_two_teardowns :
  count is_teardown (output example_session) = 0%nat
  /\ count is_stop (output example_session) = 0%nat
  /\ option_map (fun st => (count is_teardown (output st),
                            count is_stop (output st)))
                (run example_session (signals example_burst))
     = Some (2%nat, 2%nat).
Proof. repeat split; vm_compute; reflexivity. Defined.

Lemma every_signal_runs_teardown_witness :
  status example_session = Running
  /\ exists st',
      run example_session (signals example_burst) = Some st'
      /\ count is_teardown (output st')
         = (count is_teardown (output example_session) + 2)%nat
      /\ count is_stop (output st')
         = (count is_stop (output example_session) + 2)%nat
      /\ status st' = Running.
Proof.
  split; [reflexivity|].
  destruct (every_signal_runs_teardown example_burst example_session
              example_ec2 "i-0abc" eq_refl eq_refl eq_refl eq_refl)
    as (st' & Hrun & Hteardowns & Hstops & _ & Hstatus).
  exists st'. repeat split; assumption.
Defined.

(** C2 as stated fails: on the child's exit the listener sends the stop
    request itself and [cleanupAndExit] is not entered. *)
Lemma exit_listener_bypasses_cleanup :
  option_map (fun st => (skipn (List.length (output example_session))
                               (output st),
                         count is_teardown (output st)))
             (step calm example_session (ChildExited (Some 0)))
  = Some ([Stdout (SsmSessionExited (Some 0));
           Called (call_stopInstance "i-0abc");
           Stdout (StoppingBastion "i-0abc");
           Sent (Ec2Send example_ec2 (StopInstancesCommand "i-0abc"))],
          0%nat).
Proof. vm_compute. reflexivity. Defined.

Lemma exit_listener_stops_instance_itself_witness :
  status example_session = Running
  /\ child (memory example_session)
     = Some {| killed := false; exited := false |}
  /\ exitListener (memory example_session) = Some (example_ec2, "i-0abc")
  /\ exists st1,
      step calm example_session (ChildExited (Some 0)) = Some st1
      /\ count is_teardown (output st1)
         = count is_teardown (output example_session)
      /\ exitCode st1 = None.
Proof.
  repeat split; try reflexivity.
  destruct (exit_listener_stops_instance_itself calm example_session
              (Some 0) {| killed := false; exited := false |}
              example_ec2 "i-0abc" eq_refl eq_refl eq_refl eq_refl)
    as (st1 & Hstep & _ & Hcount & Hexit & _).
  exists st1. repeat split; assumption.
Defined.

Lemma terminal_state_fails_on_first_poll_witness :
  is_state (stateOf (showing (Some terminated))) terminated
  || is_state (stateOf (showing (Some terminated))) shutting_down = true
  /\ outcome (play (ensureInstanceRunning 1 example_ec2 "i-0abc"
                                          default_timeoutMs)
                   (seen_once (Some terminated) 100) fresh)
     = Threw (TerminalState "i-0abc" (Some terminated)).
Proof.
  split; [reflexivity|].
  exact (proj1 (terminal_state_fails_on_first_poll
                  0 example_ec2 "i-0abc" default_timeoutMs
                  (showing (Some terminated)) [] [] [Resolved tt] 0 [100]
                  [] fresh eq_refl)).
Defined.

(** C5 as stated fails: an iteration that observes [running] 400 seconds
    after the start, past the 300 second deadline, returns successfully,
    and one that observes [terminated] then fails with the terminal-state
    error; neither reads the clock. *)
Lemma deadline_ignored_when_running_or_terminal :
  400000 - 0 > default_timeoutMs
  /\ (let r := play (ensureInstanceRunning 1 example_ec2 "i-0abc"
                                           default_timeoutMs)
                    (seen_once (Some running) 400000) fresh in
      outcome r = Returned tt /\ clock (remaining r) = [400000])
  /\ (let r := play (ensureInstanceRunning 1 example_ec2 "i-0abc"
                                           default_timeoutMs)
                    (seen_once (Some terminated) 400000) fresh in
      outcome r = Threw (TerminalState "i-0abc" (Some terminated))
      /\ clock (remaining r) = [400000]).
Proof. repeat split. Defined.

Lemma deadline_checked_only_while_waiting_witness :
  400000 - 0 > default_timeoutMs
  /\ outcome (play (poll 1 example_ec2 "i-0abc" default_timeoutMs 0)
                   {| stacks := []; observations := [observing (Some pending)];
                      commands := [Resolved tt]; clock := [400000];
                      kills := [] |} fresh)
     = Threw (TimedOutRunning "i-0abc").
Proof.
  split; [reflexivity|].
  exact (proj1 (deadline_checked_only_while_waiting
                  0 example_ec2 "i-0abc" default_timeoutMs 0
                  (showing (Some pending)) [] [] [] 400000 [] [] fresh
                  eq_refl)).
Defined.

Lemma stopped_pending_pending_running_witness :
  (200 - 0 <= default_timeoutMs /\ 5400 - 0 <= default_timeoutMs
   /\ 10600 - 0 <= default_timeoutMs)
  /\ (let r := play (ensureInstanceRunning 4 example_ec2 "i-0abc"
                                           default_timeoutMs)
                    cold_start fresh in
      outcome r = Returned tt
      /\ count is_start (effects r) = 1%nat
      /\ count is_sleep (effects r) = 3%nat).
Proof.
  assert (H1 : 200 - 0 <= default_timeoutMs) by (intro; discriminate).
  assert (H2 : 5400 - 0 <= default_timeoutMs) by (intro; discriminate).
  assert (H3 : 10600 - 0 <= default_timeoutMs) by (intro; discriminate).
  split; [repeat split; assumption|].
  destruct (stopped_pending_pending_running
              0 example_ec2 "i-0abc" default_timeoutMs 0 200 5400 10600
              (stacks cold_start) [] [] [] [] fresh H1 H2 H3)
    as (Hout & Hstart & Hsleep & _).
  repeat split; assumption.
Defined.

Lemma lookups_precede_lifecycle_witness :
  parseArgs example_invocation = inr example_args
  /\ (let r := play (script 1 example_invocation) second_lookup_refused
                    fresh in
      outcome r = ExitedWith 1
      /\ count is_ec2 (effects r) = 0%nat).
Proof.
  split; [reflexivity|].
  destruct (lookups_precede_lifecycle
              1 example_invocation example_args
              (publishing "VersoStatBastionInstanceId" "i-0abc")
              (Rejected (ServiceError "AccessDenied")) []
              [observing (Some stopped)] [Resolved tt] [0; 200] [] fresh
              eq_refl) as ((Hout & Heffects) & _).
  split; [exact Hout|].
  unfold second_lookup_refused. rewrite Heffects. reflexivity.
Defined.

Lemma failed_stop_keeps_exit_code_witness :
  status example_session = Running
  /\ ec2Global (memory example_session) = Some example_ec2
  /\ bastionIdGlobal (memory example_session) = Some "i-0abc"
  /\ exists st1,
      step calm example_session (SignalReceived SIGINT) = Some st1
      /\ exists st2,
          step calm st1
               (Settle (List.length (tasks example_session))
                       (CommandDone (Rejected (ServiceError "Throttled"))))
          = Some st2
          /\ status st2 = Terminated 130.
Proof.
  repeat split; try reflexivity.
  destruct (failed_stop_keeps_exit_code calm example_session SIGINT
              example_ec2 "i-0abc" eq_refl eq_refl eq_refl eq_refl)
    as ((st1 & Hstep & Hrun1 & Htasks) & Hsettle & _).
  exists st1. split; [exact Hstep|].
  destruct (Hsettle calm st1 (List.length (tasks example_session))
              (ServiceError "Throttled") Hrun1)
    as (st2 & Hstep2 & _ & _ & Hend).
  { rewrite Htasks. apply nth_error_last. }
  exists st2. split; assumption.
Defined.

Lemma exit_code_follows_cause_witness :
  status example_session = Running
  /\ (exists st1,
         step calm example_session (SignalReceived SIGTERM) = Some st1
         /\ (status st1 = Terminated 143
             \/ exists ec2 id,
                 status st1 = Running
                 /\ tasks st1 =
                    tasks example_session
                    ++ [Some (stop_in_cleanup ec2 id 143)]))
  /\ (exists st1 st2,
         step calm example_session (ChildExited (Some 0)) = Some st1
         /\ status st1 = Running
         /\ step calm st1
                 (Settle (List.length (tasks example_session))
                         (CommandDone (Resolved tt))) = Some st2
         /\ status st2 = Terminated 0)
  /\ outcome (play (script 1 example_invocation) second_lookup_refused fresh)
     = ExitedWith 1.
Proof.
  destruct exit_code_follows_cause
    as (_ & Hsignal & _ & Hchild & Hfatal & _).
  split; [reflexivity|]. split; [|split].
  - exact (Hsignal calm example_session SIGTERM eq_refl).
  - exact (Hchild calm calm example_session (Some 0)
             {| killed := false; exited := false |} example_ec2 "i-0abc"
             eq_refl eq_refl eq_refl eq_refl eq_refl).
  - exact (Hfatal 1%nat example_invocation second_lookup_refused fresh
             (ServiceError "AccessDenied") eq_refl).
Defined.

Lemma option_value_follows_first_flag_witness :
  parseArgs example_full_invocation = inr example_full_args
  /\ region example_full_args = "eu-west-1".
Proof.
  split; [reflexivity|].
  assert (Hv : "eu-west-1" <> "") by discriminate.
  exact (proj1 (option_value_follows_first_flag
                  example_full_invocation example_full_args eq_refl
                  [] "eu-west-1"
                  ["--access-stack"; "Access"; "--db-stack"; "Database";
                   "--local-port"; "6000"] Hv)
               eq_refl (fun Hin => Hin)).
Defined.

Lemma unusable_flag_falls_back_to_default_witness :
  parseArgs example_invocation = inr example_args
  /\ accessStack example_args = "VersoStat-AccessStack-prod".
Proof.
  split; [reflexivity|].
  apply (proj1 (proj2 (unusable_flag_falls_back_to_default
                         example_invocation example_args eq_refl))).
  left. cbn. intros [Heq|[Heq|[]]]; discriminate Heq.
Defined.

Lemma getStackOutput_returns_published_value_witness :
  outcome (play (getStackOutput {| cf_region := "us-east-1" |}
                                "VersoStat-AccessStack-prod"
                                "VersoStatBastionInstanceId")
                cold_start fresh) = Returned "i-0abc"
  /\ "i-0abc" <> "".
Proof.
  split; [reflexivity|].
  exact (proj1 (getStackOutput_returns_published_value
                  {| cf_region := "us-east-1" |}
                  "VersoStat-AccessStack-prod"
                  "VersoStatBastionInstanceId" cold_start fresh "i-0abc"
                  eq_refl)).
Defined.

Lemma first_matching_output_decides_witness :
  outcome (play (getStackOutput {| cf_region := "us-east-1" |}
                                "VersoStat-DatabaseStack-prod"
                                "VersoStatDbHost")
                {| stacks := [Resolved shadowed_output]; observations := [];
                   commands := []; clock := []; kills := [] |} fresh)
  = Threw (OutputNotFound "VersoStatDbHost" "VersoStat-DatabaseStack-prod").
Proof.
  apply (first_matching_output_decides
           {| cf_region := "us-east-1" |} "VersoStat-DatabaseStack-prod"
           "VersoStatDbHost" shadowed_output []
           {| Outputs :=
                Some [ {| OutputKey := Some "VersoStatDbPort";
                          OutputValue := Some "5432" |};
                       {| OutputKey := Some "VersoStatDbHost";
                          OutputValue := None |};
                       {| OutputKey := Some "VersoStatDbHost";
                          OutputValue := Some "db.internal" |} ] |}
           []
           [ {| OutputKey := Some "VersoStatDbPort";
                OutputValue := Some "5432" |} ]
           {| OutputKey := Some "VersoStatDbHost"; OutputValue := None |}
           [ {| OutputKey := Some "VersoStatDbHost";
                OutputValue := Some "db.internal" |} ]
           [] [] [] [] fresh eq_refl eq_refl).
  - intros p [<-|[]]. discriminate.
  - reflexivity.
Defined.

Lemma undescribed_instance_is_started_witness :
  shows_no_instance nothing_described = true
  /\ firstn 4 (effects
                 (play (ensureInstanceRunning 1 example_ec2 "i-0abc"
                                              default_timeoutMs)
                       {| stacks := []; observations :=
                                          [Resolved nothing_described];
                          commands := [Resolved tt]; clock := [0; 100];
                          kills := [] |} fresh))
     = [Sent (Ec2Send example_ec2 (DescribeInstancesCommand "i-0abc"));
        Stdout (CurrentBastionState None);
        Stdout (BastionStarting "i-0abc" None);
        Sent (Ec2Send example_ec2 (StartInstancesCommand "i-0abc"))].
Proof.
  split; [reflexivity|].
  exact (proj1 (proj2 (undescribed_instance_is_started
                         0 example_ec2 "i-0abc" default_timeoutMs
                         nothing_described [] [] (Resolved tt) [] 0 [100]
                         [] fresh eq_refl))).
Defined.

Lemma running_instance_left_alone_witness :
  stateOf (showing (Some running)) = Some running
  /\ count is_ec2
       (effects (play (ensureInstanceRunning 1 example_ec2 "i-0abc"
                                             default_timeoutMs)
                      (seen_once (Some running) 100) fresh)) = 1%nat.
Proof.
  split; [reflexivity|].
  unfold seen_once, observing.
  rewrite (running_instance_left_alone
             0 example_ec2 "i-0abc" default_timeoutMs
             (showing (Some running)) [] [] [Resolved tt] 0 [100] []
             fresh eq_refl).
  reflexivity.
Defined.

Lemma ensureInstanceRunning_errors_witness :
  outcome (play (ensureInstanceRunning 1 example_ec2 "i-0abc"
                                       default_timeoutMs)
                {| stacks := [];
                   observations := [Rejected (ServiceError "Throttled")];
                   commands := []; clock := [0]; kills := [] |} fresh)
  = Threw (ServiceError "Throttled")
  /\ In (Rejected (ServiceError "Throttled"))
        [@Rejected DescribeInstancesOutput (ServiceError "Throttled")].
Proof.
  split; [reflexivity|].
  destruct (ensureInstanceRunning_errors
              1 example_ec2 "i-0abc" default_timeoutMs
              {| stacks := [];
                 observations := [Rejected (ServiceError "Throttled")];
                 commands := []; clock := [0]; kills := [] |} fresh
              (ServiceError "Throttled") eq_refl)
    as [Habs|[Habs|[Habs|[Habs|[Hin|Hin]]]]];
    try discriminate Habs.
  - exact Hin.
  - destruct Hin.
Defined.

Lemma success_means_running_was_observed_witness :
  outcome (play (ensureInstanceRunning 4 example_ec2 "i-0abc"
                                       default_timeoutMs)
                cold_start fresh) = Returned tt
  /\ exists waited,
      printed_states
        (effects (play (ensureInstanceRunning 4 example_ec2 "i-0abc"
                                              default_timeoutMs)
                       cold_start fresh))
      = waited ++ [Some running]
      /\ forallb waits_on waited = true.
Proof.
  split; [reflexivity|].
  destruct (success_means_running_was_observed
              4 example_ec2 "i-0abc" default_timeoutMs cold_start fresh
              eq_refl) as (waited & Hprinted & Hwaits & _).
  exists waited. split; assumption.
Defined.

Lemma polling_ends_within_deadline_witness :
  advancing 0 0 [200; 5400; 10600] = true
  /\ (enough_polls default_timeoutMs <= 62)%nat
  /\ outcome (play (ensureInstanceRunning 62 example_ec2 "i-0abc"
                                          default_timeoutMs)
                   cold_start fresh) <> Unfinished.
Proof.
  assert (Hfuel : (enough_polls default_timeoutMs <= 62)%nat)
    by (apply Nat.leb_le; reflexivity).
  split; [reflexivity|]. split; [exact Hfuel|].
  exact (proj1 (polling_ends_within_deadline
                  62 example_ec2 "i-0abc" default_timeoutMs
                  (stacks cold_start) (observations cold_start)
                  (commands cold_start) 0 [200; 5400; 10600] [] fresh
                  eq_refl Hfuel)).
Defined.

Lemma timeout_only_after_deadline_witness :
  outcome (play (ensureInstanceRunning 1 example_ec2 "i-0abc"
                                       default_timeoutMs)
                (seen_once (Some pending) 400000) fresh)
  = Threw (TimedOutRunning "i-0abc")
  /\ ((exists t, In t [400000] /\ t - 0 > default_timeoutMs)
      \/ In (Rejected (TimedOutRunning "i-0abc"))
            [observing (Some pending)]
      \/ In (Rejected (TimedOutRunning "i-0abc")) [Resolved tt]).
Proof.
  split; [reflexivity|].
  exact (timeout_only_after_deadline
           1 example_ec2 "i-0abc" default_timeoutMs []
           [observing (Some pending)] [Resolved tt] 0 [400000] [] fresh
           (TimedOutRunning "i-0abc") eq_refl eq_refl).
Defined.

Lemma main_establishes_session_witness :
  parseArgs example_invocation = inr example_args
  /\ outcome (play (script 4 example_invocation) cold_start fresh)
     = Returned tt
  /\ final (play (script 4 example_invocation) cold_start fresh)
     = {| ec2Global := Some example_ec2; bastionIdGlobal := Some "i-0abc";
          childGlobal := Some TunnelChild;
          child := Some {| killed := false; exited := false |};
          exitListener := Some (example_ec2, "i-0abc") |}.
Proof.
  split; [reflexivity|].
  destruct (main_establishes_session
              4 example_invocation example_args
              {| Stacks :=
                   Some [ {| Outputs :=
                               Some [ {| OutputKey :=
                                           Some "VersoStatBastionInstanceId";
                                         OutputValue := Some "i-0abc" |} ]
                          |} ] |}
              {| Stacks :=
                   Some [ {| Outputs :=
                               Some [ {| OutputKey := Some "VersoStatDbHost";
                                         OutputValue := Some "db.internal" |}
                                    ] |} ] |}
              "i-0abc" "db.internal" [] (observations cold_start)
              [Resolved tt] [0; 200; 5400; 10600] [] fresh
              eq_refl eq_refl eq_refl eq_refl)
    as (Hout & _ & Hfinal & _).
  split; [exact Hout|exact Hfinal].
Defined.

Lemma signal_during_first_lookup_exits_at_once_witness :
  parseArgs example_invocation = inr example_args
  /\ exists st st1,
      boot calm 1 example_invocation = Some st
      /\ step calm st (SignalReceived SIGINT) = Some st1
      /\ status st1 = Terminated 130.
Proof.
  split; [reflexivity|].
  destruct (signal_during_first_lookup_exits_at_once
              calm 1 example_invocation example_args calm SIGINT eq_refl)
    as (st & st1 & Hboot & _ & Hstep & _ & Hstatus & _).
  exists st, st1. repeat split; assumption.
Defined.

Lemma signal_after_first_lookup_stops_bastion_witness :
  parseArgs example_invocation = inr example_args
  /\ lookup (publishing "VersoStatBastionInstanceId" "i-0abc")
            (accessStack example_args) "VersoStatBastionInstanceId"
     = inr "i-0abc"
  /\ exists st0 st1 st2,
      boot calm 1 example_invocation = Some st0
      /\ step calm st0
              (Settle 0 (StacksDescribed
                           (publishing "VersoStatBastionInstanceId"
                                       "i-0abc"))) = Some st1
      /\ step calm st1 (SignalReceived SIGTERM) = Some st2
      /\ count is_stop (output st2) = 1%nat
      /\ count is_lifecycle (output st2) = 0%nat.
Proof.
  split; [reflexivity|]. split; [reflexivity|].
  destruct (signal_after_first_lookup_stops_bastion
              calm 1 example_invocation example_args calm
              (publishing "VersoStatBastionInstanceId" "i-0abc") "i-0abc"
              calm SIGTERM eq_refl eq_refl)
    as (st0 & st1 & st2 & Hboot & Hstep1 & Hstep2 & Hout & Hnone & _).
  exists st0, st1, st2. repeat split; try assumption.
  rewrite Hout. reflexivity.
Defined.

Lemma failing_kill_does_not_block_stop_witness :
  status example_session = Running
  /\ child (memory example_session)
     = Some {| killed := false; exited := false |}
  /\ exists st1,
      step unkillable example_session (SignalReceived SIGINT) = Some st1
      /\ count is_stop (output st1)
         = S (count is_stop (output example_session))
      /\ unhandled st1 = unhandled example_session.
Proof.
  split; [reflexivity|]. split; [reflexivity|].
  destruct (failing_kill_does_not_block_stop
              unkillable example_session SIGINT example_ec2 "i-0abc"
              TunnelChild {| killed := false; exited := false |}
              eq_refl eq_refl eq_refl eq_refl eq_refl eq_refl eq_refl
              eq_refl)
    as (st1 & Hstep & Hout & Hunhandled & _).
  exists st1. split; [exact Hstep|]. split; [|exact Hunhandled].
  rewrite Hout, count_app. cbn. lia.
Defined.

Lemma interrupt_then_child_exit_stops_twice_witness :
  status example_session = Running
  /\ exitListener (memory example_session) = Some (example_ec2, "i-0abc")
  /\ exists st1 st2,
      step calm example_session (SignalReceived SIGINT) = Some st1
      /\ step calm st1 (ChildExited (Some 130)) = Some st2
      /\ filter is_stop (output st2)
         = filter is_stop (output example_session)
           ++ [Sent (Ec2Send example_ec2 (StopInstancesCommand "i-0abc"));
               Sent (Ec2Send example_ec2 (StopInstancesCommand "i-0abc"))].
Proof.
  split; [reflexivity|]. split; [reflexivity|].
  destruct (interrupt_then_child_exit_stops_twice
              calm calm example_session SIGINT (Some 130) TunnelChild
              {| killed := false; exited := false |}
              example_ec2 "i-0abc" example_ec2 "i-0abc"
              eq_refl eq_refl eq_refl eq_refl eq_refl eq_refl eq_refl
              eq_refl eq_refl)
    as (st1 & st2 & Hstep1 & Hstep2 & Hstops & _).
  exists st1, st2. repeat split; assumption.
Defined.

Lemma requests_target_one_instance_witness :
  boot calm 1 example_invocation = Some example_booted
  /\ run example_booted example_startup = Some example_tunnel
  /\ forall ec2 cmd,
      In (Sent (Ec2Send ec2 cmd)) (output example_tunnel) ->
      bastionIdGlobal (memory example_tunnel) = Some (instanceOf cmd).
Proof.
  assert (Hrun : run example_booted example_startup = Some example_tunnel)
    by (unfold example_tunnel; apply forced_some; vm_compute;
        reflexivity).
  split; [reflexivity|]. split; [exact Hrun|].
  intros ec2 cmd Hin.
  exact (proj1 (proj2 (proj1 (requests_target_one_instance
                                calm 1 example_invocation example_startup
                                example_booted example_tunnel
                                eq_refl Hrun) ec2 cmd Hin))).
Defined.

Lemma signal_stops_what_was_touched_witness :
  boot calm 1 example_invocation = Some example_booted
  /\ run example_booted example_startup = Some example_tunnel
  /\ status example_tunnel = Running
  /\ count is_ec2 (output example_tunnel) <> 0%nat
  /\ exists st1,
      step calm example_tunnel (SignalReceived SIGTERM) = Some st1
      /\ status st1 = Running.
Proof.
  assert (Hrun : run example_booted example_startup = Some example_tunnel)
    by (unfold example_tunnel; apply forced_some; vm_compute;
        reflexivity).
  assert (Hstatus : status example_tunnel = Running)
    by (vm_compute; reflexivity).
  assert (Hsome : count is_ec2 (output example_tunnel) <> 0%nat)
    by (vm_compute; discriminate).
  split; [reflexivity|]. split; [exact Hrun|]. split; [exact Hstatus|].
  split; [exact Hsome|].
  destruct (signal_stops_what_was_touched
              calm 1 example_invocation example_startup example_booted
              example_tunnel calm SIGTERM eq_refl Hrun Hstatus Hsome)
    as (ec2 & id & st1 & _ & Hstep & _ & Hstatus1).
  exists st1. split; assumption.
Defined.

Lemma script_keeps_to_its_constants_witness :
  boot calm 1 example_invocation = Some example_booted
  /\ run example_booted example_startup = Some example_tunnel
  /\ forall ms,
      In (Sent (SetTimeout ms)) (output example_tunnel) ->
      ms = 5000 \/ ms = 10000.
Proof.
  assert (Hrun : run example_booted example_startup = Some example_tunnel)
    by (unfold example_tunnel; apply forced_some; vm_compute;
        reflexivity).
  split; [reflexivity|]. split; [exact Hrun|].
  exact (proj1 (proj2 (proj2 (script_keeps_to_its_constants
                                calm 1 example_invocation example_startup
                                example_booted example_tunnel
                                eq_refl Hrun)))).
Defined.

Lemma tunnel_opens_only_after_running_witness :
  boot calm 1 example_invocation = Some example_booted
  /\ run example_booted example_startup = Some example_tunnel
  /\ count is_spawn (output example_tunnel) <> 0%nat
  /\ exists e n resp,
      In (e, Settle n (InstancesDescribed (Resolved resp))) example_startup
      /\ stateOf resp = Some running.
Proof.
  assert (Hrun : run example_booted example_startup = Some example_tunnel)
    by (unfold example_tunnel; apply forced_some; vm_compute;
        reflexivity).
  assert (Hspawned : count is_spawn (output example_tunnel) <> 0%nat)
    by (vm_compute; discriminate).
  split; [reflexivity|]. split; [exact Hrun|]. split; [exact Hspawned|].
  exact (tunnel_opens_only_after_running
           calm 1 example_invocation example_startup example_booted
           example_tunnel eq_refl Hrun Hspawned).
Defined.

Lemma nothing_but_stops_after_tunnel_witness :
  boot calm 1 example_invocation = Some example_booted
  /\ run example_booted example_interrupt = Some example_interrupted
  /\ (count is_spawn (output example_interrupted) <= 1)%nat
  /\ forall pre command args post,
      output example_interrupted = pre ++ Spawned command args :: post ->
      count is_startup post = 0%nat.
Proof.
  assert (Hrun : run example_booted example_interrupt
                 = Some example_interrupted)
    by (unfold example_interrupted; apply forced_some; vm_compute;
        reflexivity).
  split; [reflexivity|]. split; [exact Hrun|].
  exact (nothing_but_stops_after_tunnel
           calm 1 example_invocation example_interrupt example_booted
           example_interrupted eq_refl Hrun).
Defined.

Lemma child_signalled_once_after_spawn_witness :
  boot calm 1 example_invocation = Some example_booted
  /\ run example_booted example_interrupt = Some example_interrupted
  /\ count is_kill (output example_interrupted) = 1%nat
  /\ (count is_delivered (output example_interrupted) <= 1)%nat
  /\ forall pre sig r post,
      output example_interrupted = pre ++ Kill sig r :: post ->
      count is_spawn pre = 1%nat.
Proof.
  assert (Hrun : run example_booted example_interrupt
                 = Some example_interrupted)
    by (unfold example_interrupted; apply forced_some; vm_compute;
        reflexivity).
  split; [reflexivity|]. split; [exact Hrun|].
  split; [vm_compute; reflexivity|].
  exact (child_signalled_once_after_spawn
           calm 1 example_invocation example_interrupt example_booted
           example_interrupted eq_refl Hrun).
Defined.

Lemma stops_need_a_trigger_witness :
  boot calm 2 example_invocation = Some example_patient
  /\ run example_patient example_failed_start = Some example_abandoned
  /\ count is_start (output example_abandoned) = 1%nat
  /\ status example_abandoned = Terminated 1
  /\ triggers example_failed_start = 0%nat
  /\ (count is_stop (output example_abandoned)
      <= triggers example_failed_start)%nat.
Proof.
  assert (Hrun : run example_patient example_failed_start
                 = Some example_abandoned)
    by (unfold example_abandoned; apply forced_some; vm_compute;
        reflexivity).
  split; [reflexivity|]. split; [exact Hrun|].
  split; [vm_compute; reflexivity|]. split; [vm_compute; reflexivity|].
  split; [reflexivity|].
  exact (stops_need_a_trigger
           calm 2 example_invocation example_failed_start example_patient
           example_abandoned eq_refl Hrun).
Defined.

End Instances.
